(** * CleanSnap recording pipeline: a shallow embedding and its properties

    The development follows the TypeScript sources of the recorder:
    - [utils/frameBuffer.ts]           the bounded frame queue,
    - [utils/performanceOptimizer.ts]  frame rate and bitrate heuristics,
    - [hooks/useVideoRecorder.ts]      the recording hook (session control,
                                       crop rectangle, mode decision, timers),
    - [components/VideoRecorder.tsx]   the handler of the area selection,
    - [services/licenseService.ts]     the licence check and the
                                       recording-duration cap,
    - [index.tsx]                      the main-process stream handlers and
                                       the second-stage export.

    JavaScript numbers that hold counts and pixel sizes are integers ([Z]);
    numbers that may be fractional (normalised regions, frame rates, encoder
    percentages) are exact rationals ([Q]).  Mutable objects become records
    that are passed through explicitly; what the platform answers (feeds,
    dialogs, ffmpeg) is an explicit environment argument, and what the code
    asks of the platform is collected in a log of effects.  Logging is left
    out, and so is the per-frame drawing of the compositor. *)

From Stdlib Require Import ZArith QArith Qround Qminmax Lia Lqa Bool.
From stdpp Require Import base list strings gmap pretty.

#[local] Open Scope Z_scope.

(* ===================================================================== *)
(** * Part I: the model                                                   *)
(* ===================================================================== *)

(** ** utils/frameBuffer.ts *)

Module FrameBuffer.

(** An encoded chunk is opaque to the queue. *)
Definition ArrayBuffer : Type := list Byte.byte.

Inductive DropStrategy : Type :=
| DropOldest
| DropNewest.

(** [maxSize] is a queue depth: the constructor's caller passes an integer
    and [adjustQueueDepth] stores a clamped [Math.ceil]. *)
Record FrameBufferConfig : Type := mkConfig {
  maxSize : Z;
  dropStrategy : DropStrategy;
  targetFps : Q
}.

(** [Partial<FrameBufferConfig>]: every field may be missing. *)
Record PartialConfig : Type := mkPartial {
  p_maxSize : option Z;
  p_dropStrategy : option DropStrategy;
  p_targetFps : option Q
}.

Record Stats : Type := mkStats {
  framesReceived : Z;
  framesDropped : Z;
  framesProcessed : Z
}.

Record t : Type := mkBuffer {
  queue : list ArrayBuffer;
  config : FrameBufferConfig;
  stats : Stats
}.

(** [v || d] on a number: [undefined] and [0] are falsy. *)
Definition orZ (v : option Z) (d : Z) : Z :=
  match v with
  | Some n => if n =? 0 then d else n
  | None => d
  end.

Definition orQ (v : option Q) (d : Q) : Q :=
  match v with
  | Some q => if Qeq_bool q 0 then d else q
  | None => d
  end.

Definition constructor (c : PartialConfig) : t :=
  {| queue := [];
     config := {| maxSize := orZ (p_maxSize c) 8;
                  dropStrategy := default DropOldest (p_dropStrategy c);
                  targetFps := orQ (p_targetFps c) 30 |};
     stats := {| framesReceived := 0; framesDropped := 0; framesProcessed := 0 |} |}.

(** [Math.max(3, Math.min(8, Math.ceil((fps / 30) * 5)))] *)
Definition queueDepthFor (fps : Q) : Z :=
  let calculated := Qceiling ((fps / 30) * 5) in
  Z.max 3 (Z.min 8 calculated).

Definition adjustQueueDepth (fps : Q) (b : t) : t :=
  {| queue := queue b;
     config := {| maxSize := queueDepthFor fps;
                  dropStrategy := dropStrategy (config b);
                  targetFps := targetFps (config b) |};
     stats := stats b |}.

(** [Array.prototype.shift] and [pop], as far as the array is concerned:
    both leave an empty array empty. *)
Definition shift (q : list ArrayBuffer) : list ArrayBuffer := tail q.
Definition pop (q : list ArrayBuffer) : list ArrayBuffer := removelast q.

Definition isFull (b : t) : bool :=
  maxSize (config b) <=? Z.of_nat (length (queue b)).

Definition evict (b : t) : list ArrayBuffer :=
  match dropStrategy (config b) with
  | DropOldest => shift (queue b)
  | DropNewest => pop (queue b)
  end.

(** [add]: the returned boolean is the method's result. *)
Definition add (frame : ArrayBuffer) (b : t) : bool * t :=
  let received := framesReceived (stats b) + 1 in
  let full := isFull b in
  let dropped := if full then framesDropped (stats b) + 1 else framesDropped (stats b) in
  let q := if full then evict b else queue b in
  (true,
   {| queue := q ++ [frame];
      config := config b;
      stats := {| framesReceived := received;
                  framesDropped := dropped;
                  framesProcessed := framesProcessed (stats b) |} |}).

(** [get]: an [ArrayBuffer] object is always truthy, so the counter moves
    exactly when something was dequeued. *)
Definition get (b : t) : option ArrayBuffer * t :=
  match queue b with
  | [] => (None, b)
  | frame :: rest =>
      (Some frame,
       {| queue := rest;
          config := config b;
          stats := {| framesReceived := framesReceived (stats b);
                      framesDropped := framesDropped (stats b);
                      framesProcessed := framesProcessed (stats b) + 1 |} |})
  end.

Definition getAll (b : t) : list ArrayBuffer * t :=
  (queue b,
   {| queue := [];
      config := config b;
      stats := {| framesReceived := framesReceived (stats b);
                  framesDropped := framesDropped (stats b);
                  framesProcessed :=
                    framesProcessed (stats b) + Z.of_nat (length (queue b)) |} |}).

Definition clear (b : t) : t :=
  {| queue := []; config := config b; stats := stats b |}.

Definition getQueueDepth (b : t) : Z := Z.of_nat (length (queue b)).

Definition dropRate (b : t) : Q :=
  if 0 <? framesReceived (stats b)
  then (inject_Z (framesDropped (stats b)) / inject_Z (framesReceived (stats b))) * 100
  else 0.

(** A run of [add] calls, in order. *)
Definition addAll (frames : list ArrayBuffer) (b : t) : t :=
  fold_left (fun acc frame => snd (add frame acc)) frames b.

(** *** Statistics, and runs of calls *)

(** [getStats]: the counters, the queue length and the drop rate. *)
Record StatsReport : Type := mkReport {
  counters : Stats;
  currentQueueDepth : Z;
  reportedDropRate : Q
}.

Definition getStats (b : t) : StatsReport :=
  {| counters := stats b;
     currentQueueDepth := Z.of_nat (length (queue b));
     reportedDropRate := dropRate b |}.

Definition resetStats (b : t) : t :=
  {| queue := queue b;
     config := config b;
     stats := {| framesReceived := 0; framesDropped := 0; framesProcessed := 0 |} |}.

(** A method call that changes the buffer, and a run of such calls. *)
Inductive Call : Type :=
| CallAdd (frame : ArrayBuffer)
| CallGet
| CallGetAll
| CallClear
| CallAdjustQueueDepth (fps : Q)
| CallResetStats.

Definition call (c : Call) (b : t) : t :=
  match c with
  | CallAdd frame => snd (add frame b)
  | CallGet => snd (get b)
  | CallGetAll => snd (getAll b)
  | CallClear => clear b
  | CallAdjustQueueDepth fps => adjustQueueDepth fps b
  | CallResetStats => resetStats b
  end.

Definition calls (cs : list Call) (b : t) : t := fold_left (fun acc c => call c acc) cs b.

(** The calls that forget frames or counts. *)
Definition forgets (c : Call) : bool :=
  match c with
  | CallClear | CallResetStats => true
  | _ => false
  end.

(** The capacity is at least one and every frame received is among the
    dropped, the processed or the queued ones. *)
Definition accounted (b : t) : Prop :=
  1 <= maxSize (config b)
  /\ framesReceived (stats b)
     = framesDropped (stats b) + framesProcessed (stats b) + Z.of_nat (length (queue b)).

(** The drops are among the frames received. *)
Definition counted (b : t) : Prop :=
  0 <= framesDropped (stats b) <= framesReceived (stats b).

End FrameBuffer.

(** ** Results of the IPC calls between the hook and the main process *)

Module Ipc.

(** The object returned by [start-recording-stream] and
    [stop-recording-stream]: [success] is always there, the other keys only
    on some paths. *)
Record Result : Type := mkResult {
  success : bool;
  path : option string;
  error : option string;
  canceled : option bool
}.

(** The format argument of [stop-recording-stream]. *)
Inductive SaveFormat : Type :=
| mp4
| gif.

(** A promise, once it has settled. *)
Inductive Settled (A : Type) : Type :=
| Resolved (a : A)
| Rejected (err : string).
Arguments Resolved {A} a.
Arguments Rejected {A} err.

Definition resolved {A : Type} (s : Settled A) : option A :=
  match s with
  | Resolved a => Some a
  | Rejected _ => None
  end.

End Ipc.

(** ** utils/performanceOptimizer.ts *)

Module PerformanceOptimizer.

(** [navigator.hardwareConcurrency || 4]; an absent value is 0 here. *)
Definition getCPUCores (hardwareConcurrency : Z) : Z :=
  if hardwareConcurrency =? 0 then 4 else hardwareConcurrency.

Definition calculateOptimalScale (width height targetFps : Z) : Q := 1.

Definition calculateOptimalFps (cores width height : Z) : Z :=
  let pixels := width * height in
  if (cores <? 4) || (2560 * 1440 <? pixels) then 30
  else if (4 <=? cores) && (cores <? 8) && (pixels <=? 1920 * 1080) then 60
  else 60.

Definition calculateOptimalBitrate (width height fps : Z) : Z :=
  let pixels := width * height in
  let bitrate :=
    if pixels <=? 1280 * 720 then 5000000
    else if pixels <=? 1920 * 1080 then 10000000
    else if pixels <=? 2560 * 1440 then 12000000
    else 12000000 in
  let maxBitrate := 12000000 in
  Z.min bitrate maxBitrate.

End PerformanceOptimizer.

(** ** services/licenseService.ts *)

Module LicenseService.

(** The licence check itself (stored key, device binding) belongs to the
    licensing collaborator; its answer is the argument. *)
Definition getMaxRecordingDuration (isAuthorized : bool) : Z :=
  if isAuthorized then 0 else 600.

Import Stdlib.Strings.Ascii.

(** *** The licence check

    The check whose answer [getMaxRecordingDuration] takes, as the service
    makes it.  Strings are sequences of ASCII characters; [localStorage] is a finite
    map from strings to strings whose calls do not throw.  The device
    fingerprint is computed by [getDeviceFingerprint] below, from what the
    browser answers; the clock is an argument. *)

Definition LICENSE_STORAGE_KEY : string := "cleansnap_license_key".
Definition LICENSE_STATUS_KEY : string := "cleansnap_license_status".
Definition LICENSE_DEVICE_KEY : string := "cleansnap_license_device".
Definition LICENSE_TIMESTAMP_KEY : string := "cleansnap_license_timestamp".
Definition VALIDATION_SECRET : string := "CLEANSNAP_SECRET_2024".

Definition isAscii (s : string) : Prop :=
  Forall (fun c => (Ascii.N_of_ascii c < 128)%N) (String.list_ascii_of_string s).

(** [ToInt32]: a number wrapped into the signed 32-bit range, as [<<] and
    [&] leave it. *)
Definition toInt32 (z : Z) : Z := (z + 2 ^ 31) mod 2 ^ 32 - 2 ^ 31.

Definition charCodeAt (c : Ascii.ascii) : Z := Z.of_N (Ascii.N_of_ascii c).

(** The loop of [simpleHash], from the hash so far. *)
Fixpoint hashFrom (hash : Z) (input : string) : Z :=
  match input with
  | EmptyString => hash
  | String c rest =>
      let shifted := toInt32 (hash * 2 ^ 5) in
      hashFrom (toInt32 (shifted - hash + charCodeAt c)) rest
  end.

Definition simpleHash (input : string) : Z := Z.abs (hashFrom 0 input).

(** The white space [String.prototype.trim] removes, among ASCII
    characters: tab, line feed, vertical tab, form feed, carriage return
    and space. *)
Definition isWhiteSpace (c : Ascii.ascii) : bool :=
  let n := Ascii.N_of_ascii c in
  ((9 <=? n) && (n <=? 13))%N || (n =? 32)%N.

Fixpoint trimStart (s : string) : string :=
  match s with
  | EmptyString => EmptyString
  | String c rest => if isWhiteSpace c then trimStart rest else s
  end.

Fixpoint trimEnd (s : string) : string :=
  match s with
  | EmptyString => EmptyString
  | String c rest =>
      match trimEnd rest with
      | EmptyString => if isWhiteSpace c then EmptyString else String c EmptyString
      | kept => String c kept
      end
  end.

Definition trim (s : string) : string := trimEnd (trimStart s).

Definition upperAscii (c : Ascii.ascii) : Ascii.ascii :=
  let n := Ascii.N_of_ascii c in
  if ((97 <=? n) && (n <=? 122))%N then Ascii.ascii_of_N (n - 32) else c.

Fixpoint toUpperCase (s : string) : string :=
  match s with
  | EmptyString => EmptyString
  | String c rest => String (upperAscii c) (toUpperCase rest)
  end.

(** *** The two key formats *)

(** [[A-Z0-9]] *)
Definition isKeyChar (c : Ascii.ascii) : bool :=
  let n := Ascii.N_of_ascii c in
  ((65 <=? n) && (n <=? 90))%N || ((48 <=? n) && (n <=? 57))%N.

(** A literal at the head of [s]: what follows it. *)
Fixpoint literal (lit s : string) : option string :=
  match lit, s with
  | EmptyString, _ => Some s
  | String a lit', String b s' =>
      if Ascii.eqb a b then literal lit' s' else None
  | String _ _, EmptyString => None
  end.

(** [[A-Z0-9]{n}] at the head of [s]: what follows it. *)
Fixpoint group (n : nat) (s : string) : option string :=
  match n, s with
  | O, _ => Some s
  | S n', String c s' => if isKeyChar c then group n' s' else None
  | S _, EmptyString => None
  end.

(** [$]: nothing is left. *)
Definition atEnd (s : option string) : bool :=
  match s with
  | Some EmptyString => true
  | _ => false
  end.

(** The pieces of a pattern, matched one after the other from the head of
    [s]: what follows them. *)
Fixpoint sequence (pieces : list (string -> option string)) (s : string) : option string :=
  match pieces with
  | [] => Some s
  | piece :: pieces' =>
      match piece s with
      | Some rest => sequence pieces' rest
      | None => None
      end
  end.

(** [/^CLEANSNAP-[A-Z0-9]{4}-[A-Z0-9]{4}-[A-Z0-9]{4}-[A-Z0-9]{4}$/] *)
Definition format1 (s : string) : bool :=
  atEnd (sequence [literal "CLEANSNAP-"; group 4; literal "-"; group 4;
                   literal "-"; group 4; literal "-"; group 4] s).

(** [/^CLEANSNAP-[A-Z0-9]{8}-[A-Z0-9]{8}$/] *)
Definition format2 (s : string) : bool :=
  atEnd (sequence [literal "CLEANSNAP-"; group 8; literal "-"; group 8] s).

(** [s.replace(pattern, replacement)] with a string pattern: the first
    occurrence only. *)
Fixpoint replace (pattern replacement s : string) : string :=
  match literal pattern s with
  | Some rest => replacement +:+ rest
  | None =>
      match s with
      | EmptyString => EmptyString
      | String c s' => String c (replace pattern replacement s')
      end
  end.

(** [s.split(sep)] for a separator of one character. *)
Fixpoint split (sep : Ascii.ascii) (s : string) : list string :=
  match s with
  | EmptyString => [EmptyString]
  | String c s' =>
      if Ascii.eqb c sep then EmptyString :: split sep s'
      else match split sep s' with
           | part :: parts => String c part :: parts
           | [] => [String c EmptyString]
           end
  end.

(** [parts.join('')] *)
Definition join (parts : list string) : string := fold_right String.append EmptyString parts.

Inductive Validation : Type :=
| Valid
| Invalid (reason : string).

Definition validateLicenseKey (key deviceId : string) : Validation :=
  if (String.length (trim key) =? 0)%nat then Invalid "empty"
  else
    let trimmedKey := toUpperCase (trim key) in
    if negb (format1 trimmedKey) && negb (format2 trimmedKey)
       && (String.length trimmedKey <? 20)%nat
    then Invalid "format"
    else
      let keyParts := split "-"%char (replace "CLEANSNAP-" "" trimmedKey) in
      let keyData := join keyParts in
      let deviceHash := simpleHash (deviceId +:+ VALIDATION_SECRET) in
      let keyHash := simpleHash keyData in
      let expectedRange := deviceHash mod 1000000 in
      let keyRange := keyHash mod 1000000 in
      if (500000 <? Z.abs (expectedRange - keyRange))
         && (String.length trimmedKey <? 24)%nat
         && (String.length trimmedKey <? 20)%nat
      then Invalid "checksum"
      else Valid.

Definition isValid (v : Validation) : bool :=
  match v with
  | Valid => true
  | Invalid _ => false
  end.

(** *** The stored licence *)

(** [localStorage]: [getItem] is lookup, [setItem] insert, [removeItem]
    delete. *)

(** JavaScript truthiness of what [getItem] returns. *)
Definition isSet (v : option string) : bool :=
  match v with
  | Some EmptyString | None => false
  | Some _ => true
  end.

(** *** services/deviceFingerprint.ts

    The fingerprint the licence service asks for.  Numbers are exact
    integers, as JavaScript's are below 2^53. *)

Definition INSTALL_TIME_KEY : string := "cleansnap_install_time".
Definition DEVICE_ID_KEY : string := "cleansnap_device_id".

(** What the browser answers while one fingerprint is generated:
    [hardware] is the list [parts] as the screen, the navigator and the time
    zone fill it, or [None] when reading them throws; [clock] is
    [Date.now()]; [randomValues] are the eight bytes of
    [crypto.getRandomValues]. *)
Record Device : Type := mkDevice {
  hardware : option (list string);
  clock : Z;
  randomValues : list N
}.

Definition hexDigit (d : N) : Ascii.ascii :=
  if (d <? 10)%N then Ascii.ascii_of_N (48 + d) else Ascii.ascii_of_N (87 + d).

Fixpoint hexFrom (fuel : nat) (n : N) (acc : string) : string :=
  match fuel with
  | O => acc
  | S fuel' =>
      let acc' := String (hexDigit (n mod 16)) acc in
      if (n / 16 =? 0)%N then acc' else hexFrom fuel' (n / 16) acc'
  end.

(** [n.toString(16)] for a natural number. *)
Definition toString16 (n : N) : string := hexFrom (S (N.to_nat (N.log2 n))) n "".

Fixpoint zeros (n : nat) : string :=
  match n with
  | O => EmptyString
  | S n' => String "0" (zeros n')
  end.

(** [s.padStart(n, '0')] *)
Definition padStart (n : nat) (s : string) : string := zeros (n - String.length s) +:+ s.

Definition digitOf (c : Ascii.ascii) : option Z :=
  let n := Ascii.N_of_ascii c in
  if ((48 <=? n) && (n <=? 57))%N then Some (Z.of_N (n - 48)) else None.

(** The decimal digits at the head of [s], read from the value [acc]:
    [None] when there are none. *)
Fixpoint digitsFrom (acc : option Z) (s : string) : option Z :=
  match s with
  | EmptyString => acc
  | String c rest =>
      match digitOf c with
      | Some d => digitsFrom (Some (default 0 acc * 10 + d)) rest
      | None => acc
      end
  end.

(** [parseInt(s, 10)]; [None] is NaN. *)
Definition parseInt (s : string) : option Z :=
  match trimStart s with
  | String "-" rest => Z.opp <$> digitsFrom None rest
  | String "+" rest => digitsFrom None rest
  | t => digitsFrom None t
  end.

(** [parts.join('|')] *)
Fixpoint joinWith (sep : string) (parts : list string) : string :=
  match parts with
  | [] => EmptyString
  | [part] => part
  | part :: rest => part +:+ sep +:+ joinWith sep rest
  end.

(** The install time: the one stored, or the clock's, which is then
    stored. *)
Definition getOrSetInstallTime (dev : Device) (st : gmap string string)
    : option Z * gmap string string :=
  let saved := st !! INSTALL_TIME_KEY in
  if isSet saved
  then (parseInt (default "" saved), st)
  else (Some (clock dev), <[INSTALL_TIME_KEY := pretty (clock dev)]> st).

(** The fallback identifier: the one stored, or a random one, which is
    then stored. *)
Definition getOrCreateFallbackId (dev : Device) (st : gmap string string)
    : string * gmap string string :=
  let saved := st !! DEVICE_ID_KEY in
  if isSet saved
  then (default "" saved, st)
  else
    let id :=
      toUpperCase (join ((fun b => padStart 2 (toString16 b)) <$> randomValues dev)) in
    (id, <[DEVICE_ID_KEY := id]> st).

(** [Math.abs(t).toString(16)], where [None] is NaN. *)
Definition absToString16 (t : option Z) : string :=
  match t with
  | Some t => toString16 (Z.abs_N t)
  | None => "NaN"
  end.

(** The hash loop is the one of [simpleHash]. *)
Definition generateDeviceFingerprint (dev : Device) (st : gmap string string)
    : string * gmap string string :=
  match hardware dev with
  | Some parts =>
      let combined := joinWith "|" parts in
      let hash := hashFrom 0 combined in
      let hashStr := padStart 8 (absToString16 (Some hash)) in
      let '(installTime, st') := getOrSetInstallTime dev st in
      let installHash := padStart 8 (absToString16 installTime) in
      (toUpperCase (hashStr +:+ "-" +:+ installHash), st')
  | None => getOrCreateFallbackId dev st
  end.

(** What the service's code can read and write: [localStorage] and the
    module variable [cachedFingerprint]. *)
Record Browser : Type := mkBrowser {
  localStorage : gmap string string;
  cachedFingerprint : option string
}.

Definition withStorage (st : gmap string string) (b : Browser) : Browser :=
  {| localStorage := st; cachedFingerprint := cachedFingerprint b |}.

Definition getDeviceFingerprint (dev : Device) (b : Browser) : string * Browser :=
  if isSet (cachedFingerprint b)
  then (default "" (cachedFingerprint b), b)
  else
    let '(fp, st) := generateDeviceFingerprint dev (localStorage b) in
    (fp, {| localStorage := st; cachedFingerprint := Some fp |}).

(** *** The licence in the storage *)

Record LicenseStatus : Type := mkLicenseStatus {
  authorized : bool;
  licenseKey : option string;
  deviceId : option string
}.

Definition unauthorized : LicenseStatus :=
  {| authorized := false; licenseKey := None; deviceId := None |}.

Definition clearLicense (b : Browser) : Browser :=
  withStorage
    (delete LICENSE_TIMESTAMP_KEY
       (delete LICENSE_DEVICE_KEY
          (delete LICENSE_STATUS_KEY
             (delete LICENSE_STORAGE_KEY (localStorage b)))))
    b.

Definition isLicenseBoundToDevice (dev : Device) (b : Browser) : bool * Browser :=
  let savedDevice := localStorage b !! LICENSE_DEVICE_KEY in
  let '(currentDevice, b1) := getDeviceFingerprint dev b in
  if isSet savedDevice
  then (bool_decide (savedDevice = Some currentDevice), b1)
  else (true, withStorage (<[LICENSE_DEVICE_KEY := currentDevice]> (localStorage b1)) b1).

Definition getLicenseStatus (dev : Device) (b : Browser) : LicenseStatus * Browser :=
  let savedKey := localStorage b !! LICENSE_STORAGE_KEY in
  let savedStatus := localStorage b !! LICENSE_STATUS_KEY in
  match savedKey with
  | Some key =>
      if negb (isSet savedKey) || negb (bool_decide (savedStatus = Some "authorized"))
      then (unauthorized, b)
      else
        let '(currentDevice, b1) := getDeviceFingerprint dev b in
        if isValid (validateLicenseKey key currentDevice)
        then
          let '(_, b2) := isLicenseBoundToDevice dev b1 in
          ({| authorized := true; licenseKey := Some key; deviceId := Some currentDevice |},
           b2)
        else (unauthorized, clearLicense b1)
  | None => (unauthorized, b)
  end.


Definition isAuthorized (dev : Device) (b : Browser) : bool * Browser :=
  let '(status, b') := getLicenseStatus dev b in
  (authorized status, b').



End LicenseService.

(** ** hooks/useVideoRecorder.ts *)

Module Recorder.
Import Ipc.

(** *** Regions and the crop rectangle *)

(** A normalised region: fractions of the capture surface. *)
Record Region : Type := mkRegion {
  x : Q;
  y : Q;
  width : Q;
  height : Q
}.

Record CropRect : Type := mkCrop {
  cropX : Z;
  cropY : Z;
  cropWidth : Z;
  cropHeight : Z
}.

(** [Math.round] on a rational. *)
Definition round (q : Q) : Z := Qfloor (q + (1 # 2)).

(** [screenVideo.videoWidth || 1920] *)
Definition orDefault (v d : Z) : Z := if v =? 0 then d else v.

(** The crop rectangle of the recording canvas, in capture pixels. *)
Definition cropRect (region : option Region) (width height : Z) : CropRect :=
  match region with
  | None => {| cropX := 0; cropY := 0; cropWidth := width; cropHeight := height |}
  | Some region =>
      let rawCropX := (x region * inject_Z width)%Q in
      let rawCropY := (y region * inject_Z height)%Q in
      let rawCropWidth := (Recorder.width region * inject_Z width)%Q in
      let rawCropHeight := (Recorder.height region * inject_Z height)%Q in
      let cropX := Z.max 0 (Z.min (width - 1) (Qfloor rawCropX)) in
      let cropY := Z.max 0 (Z.min (height - 1) (Qfloor rawCropY)) in
      let cropWidth := Z.max 1 (Z.min (width - cropX) (Qfloor rawCropWidth)) in
      let cropHeight := Z.max 1 (Z.min (height - cropY) (Qfloor rawCropHeight)) in
      {| cropX := cropX; cropY := cropY; cropWidth := cropWidth; cropHeight := cropHeight |}
  end.

(** The same computation in the preview canvas of
    [components/VideoRecorder.tsx]. *)
Definition previewCropRect (normalizedRegion : Region) (videoWidth videoHeight : Z) : CropRect :=
  let cropX :=
    Z.max 0 (Z.min (videoWidth - 1) (Qfloor (x normalizedRegion * inject_Z videoWidth))) in
  let cropY :=
    Z.max 0 (Z.min (videoHeight - 1) (Qfloor (y normalizedRegion * inject_Z videoHeight))) in
  let rawCropWidth := (width normalizedRegion * inject_Z videoWidth)%Q in
  let rawCropHeight := (height normalizedRegion * inject_Z videoHeight)%Q in
  let cropWidth := Z.max 1 (Z.min (videoWidth - cropX) (Qfloor rawCropWidth)) in
  let cropHeight := Z.max 1 (Z.min (videoHeight - cropY) (Qfloor rawCropHeight)) in
  {| cropX := cropX; cropY := cropY; cropWidth := cropWidth; cropHeight := cropHeight |}.

(** *** Streams, the canvas and the encoder *)

Inductive Track : Type :=
| ScreenVideo
| CanvasVideo (fps : Z)
| CameraVideo
| MicAudio
| DisplayAudio.

Definition MediaStream : Type := list Track.

Definition isVideo (t : Track) : bool :=
  match t with
  | ScreenVideo | CanvasVideo _ | CameraVideo => true
  | MicAudio | DisplayAudio => false
  end.

Definition getVideoTracks (s : MediaStream) : list Track := List.filter isVideo s.
Definition getAudioTracks (s : MediaStream) : list Track :=
  List.filter (fun t => negb (isVideo t)) s.

Record Canvas : Type := mkCanvas {
  canvasWidth : Z;
  canvasHeight : Z
}.

Definition isGif (f : SaveFormat) : bool :=
  match f with
  | gif => true
  | mp4 => false
  end.

Inductive MimeType : Type :=
| video_mp4_avc1
| video_webm.

Inductive RecorderState : Type :=
| inactive
| recording
| paused.

(** A [MediaRecorder] together with what its [onstop] closure captured when
    the recorder was created.  After [stop()] the recorder is [inactive] and
    its [stop] event is queued. *)
Record MediaRecorder : Type := mkRecorder {
  recState : RecorderState;
  stopEventPending : bool;
  recStream : MediaStream;
  mimeType : MimeType;
  videoBitsPerSecond : Z;
  audioBitsPerSecond : Z;
  capturedFormat : SaveFormat
}.

Definition withRecState (st : RecorderState) (pending : bool) (r : MediaRecorder) : MediaRecorder :=
  {| recState := st; stopEventPending := pending; recStream := recStream r;
     mimeType := mimeType r; videoBitsPerSecond := videoBitsPerSecond r;
     audioBitsPerSecond := audioBitsPerSecond r; capturedFormat := capturedFormat r |}.

(** *** The hook's state *)

(** Settings chosen in the UI; the hook only reads them. *)
Record Settings : Type := mkSettings {
  includeCamera : bool;
  includeMicrophone : bool;
  includeSystemAudio : bool;
  saveFormat : SaveFormat
}.

(** The values held with [useState]. *)
Record ReactState : Type := mkState {
  isRecording : bool;
  isPaused : bool;
  recordingDuration : Z;
  targetFrameRate : Z;
  isExporting : bool;
  exportProgress : Q
}.

Definition set_isRecording (v : bool) (s : ReactState) : ReactState :=
  {| isRecording := v; isPaused := isPaused s;
     recordingDuration := recordingDuration s;
     targetFrameRate := targetFrameRate s; isExporting := isExporting s;
     exportProgress := exportProgress s |}.

Definition set_isPaused (v : bool) (s : ReactState) : ReactState :=
  {| isRecording := isRecording s; isPaused := v;
     recordingDuration := recordingDuration s;
     targetFrameRate := targetFrameRate s; isExporting := isExporting s;
     exportProgress := exportProgress s |}.

Definition set_recordingDuration (v : Z) (s : ReactState) : ReactState :=
  {| isRecording := isRecording s; isPaused := isPaused s;
     recordingDuration := v; targetFrameRate := targetFrameRate s;
     isExporting := isExporting s; exportProgress := exportProgress s |}.

Definition set_targetFrameRate (v : Z) (s : ReactState) : ReactState :=
  {| isRecording := isRecording s; isPaused := isPaused s;
     recordingDuration := recordingDuration s; targetFrameRate := v;
     isExporting := isExporting s; exportProgress := exportProgress s |}.

Definition set_isExporting (v : bool) (s : ReactState) : ReactState :=
  {| isRecording := isRecording s; isPaused := isPaused s;
     recordingDuration := recordingDuration s;
     targetFrameRate := targetFrameRate s; isExporting := v;
     exportProgress := exportProgress s |}.

Definition set_exportProgress (v : Q) (s : ReactState) : ReactState :=
  {| isRecording := isRecording s; isPaused := isPaused s;
     recordingDuration := recordingDuration s;
     targetFrameRate := targetFrameRate s; isExporting := isExporting s;
     exportProgress := v |}.

(** The values held with [useRef].  [timerIntervalRef] tells whether the
    one-second interval is running.  [systemAudioStreamRef] is left out: no
    stream is ever stored in it.  The camera overlay's geometry
    ([cameraConfig]) only feeds the drawing and is left out too. *)
Record Refs : Type := mkRefs {
  isProcessingRef : bool;
  recordingRegionRef : option Region;
  displayStreamRef : option MediaStream;
  cameraStreamRef : option MediaStream;
  streamRef : option MediaStream;
  recordingCanvasRef : option Canvas;
  originalVideoSizeRef : option (Z * Z);
  mediaRecorderRef : option MediaRecorder;
  timerIntervalRef : bool;
  frameBufferRef : option FrameBuffer.t
}.

Definition set_isProcessingRef (v : bool) (r : Refs) : Refs :=
  {| isProcessingRef := v; recordingRegionRef := recordingRegionRef r;
     displayStreamRef := displayStreamRef r;
     cameraStreamRef := cameraStreamRef r; streamRef := streamRef r;
     recordingCanvasRef := recordingCanvasRef r;
     originalVideoSizeRef := originalVideoSizeRef r;
     mediaRecorderRef := mediaRecorderRef r;
     timerIntervalRef := timerIntervalRef r;
     frameBufferRef := frameBufferRef r |}.

Definition set_recordingRegionRef (v : option Region) (r : Refs) : Refs :=
  {| isProcessingRef := isProcessingRef r; recordingRegionRef := v;
     displayStreamRef := displayStreamRef r;
     cameraStreamRef := cameraStreamRef r; streamRef := streamRef r;
     recordingCanvasRef := recordingCanvasRef r;
     originalVideoSizeRef := originalVideoSizeRef r;
     mediaRecorderRef := mediaRecorderRef r;
     timerIntervalRef := timerIntervalRef r;
     frameBufferRef := frameBufferRef r |}.

Definition set_displayStreamRef (v : option MediaStream) (r : Refs) : Refs :=
  {| isProcessingRef := isProcessingRef r;
     recordingRegionRef := recordingRegionRef r; displayStreamRef := v;
     cameraStreamRef := cameraStreamRef r; streamRef := streamRef r;
     recordingCanvasRef := recordingCanvasRef r;
     originalVideoSizeRef := originalVideoSizeRef r;
     mediaRecorderRef := mediaRecorderRef r;
     timerIntervalRef := timerIntervalRef r;
     frameBufferRef := frameBufferRef r |}.

Definition set_cameraStreamRef (v : option MediaStream) (r : Refs) : Refs :=
  {| isProcessingRef := isProcessingRef r;
     recordingRegionRef := recordingRegionRef r;
     displayStreamRef := displayStreamRef r; cameraStreamRef := v;
     streamRef := streamRef r; recordingCanvasRef := recordingCanvasRef r;
     originalVideoSizeRef := originalVideoSizeRef r;
     mediaRecorderRef := mediaRecorderRef r;
     timerIntervalRef := timerIntervalRef r;
     frameBufferRef := frameBufferRef r |}.

Definition set_streamRef (v : option MediaStream) (r : Refs) : Refs :=
  {| isProcessingRef := isProcessingRef r;
     recordingRegionRef := recordingRegionRef r;
     displayStreamRef := displayStreamRef r;
     cameraStreamRef := cameraStreamRef r; streamRef := v;
     recordingCanvasRef := recordingCanvasRef r;
     originalVideoSizeRef := originalVideoSizeRef r;
     mediaRecorderRef := mediaRecorderRef r;
     timerIntervalRef := timerIntervalRef r;
     frameBufferRef := frameBufferRef r |}.

Definition set_recordingCanvasRef (v : option Canvas) (r : Refs) : Refs :=
  {| isProcessingRef := isProcessingRef r;
     recordingRegionRef := recordingRegionRef r;
     displayStreamRef := displayStreamRef r;
     cameraStreamRef := cameraStreamRef r; streamRef := streamRef r;
     recordingCanvasRef := v; originalVideoSizeRef := originalVideoSizeRef r;
     mediaRecorderRef := mediaRecorderRef r;
     timerIntervalRef := timerIntervalRef r;
     frameBufferRef := frameBufferRef r |}.

Definition set_originalVideoSizeRef (v : option (Z * Z)) (r : Refs) : Refs :=
  {| isProcessingRef := isProcessingRef r;
     recordingRegionRef := recordingRegionRef r;
     displayStreamRef := displayStreamRef r;
     cameraStreamRef := cameraStreamRef r; streamRef := streamRef r;
     recordingCanvasRef := recordingCanvasRef r; originalVideoSizeRef := v;
     mediaRecorderRef := mediaRecorderRef r;
     timerIntervalRef := timerIntervalRef r;
     frameBufferRef := frameBufferRef r |}.

Definition set_mediaRecorderRef (v : option MediaRecorder) (r : Refs) : Refs :=
  {| isProcessingRef := isProcessingRef r;
     recordingRegionRef := recordingRegionRef r;
     displayStreamRef := displayStreamRef r;
     cameraStreamRef := cameraStreamRef r; streamRef := streamRef r;
     recordingCanvasRef := recordingCanvasRef r;
     originalVideoSizeRef := originalVideoSizeRef r; mediaRecorderRef := v;
     timerIntervalRef := timerIntervalRef r;
     frameBufferRef := frameBufferRef r |}.

Definition set_timerIntervalRef (v : bool) (r : Refs) : Refs :=
  {| isProcessingRef := isProcessingRef r;
     recordingRegionRef := recordingRegionRef r;
     displayStreamRef := displayStreamRef r;
     cameraStreamRef := cameraStreamRef r; streamRef := streamRef r;
     recordingCanvasRef := recordingCanvasRef r;
     originalVideoSizeRef := originalVideoSizeRef r;
     mediaRecorderRef := mediaRecorderRef r; timerIntervalRef := v;
     frameBufferRef := frameBufferRef r |}.

Definition set_frameBufferRef (v : option FrameBuffer.t) (r : Refs) : Refs :=
  {| isProcessingRef := isProcessingRef r;
     recordingRegionRef := recordingRegionRef r;
     displayStreamRef := displayStreamRef r;
     cameraStreamRef := cameraStreamRef r; streamRef := streamRef r;
     recordingCanvasRef := recordingCanvasRef r;
     originalVideoSizeRef := originalVideoSizeRef r;
     mediaRecorderRef := mediaRecorderRef r;
     timerIntervalRef := timerIntervalRef r; frameBufferRef := v |}.

(** The values the effects depended on at the last committed render. *)
Record Deps : Type := mkDeps {
  depRecording : bool;
  depPaused : bool;
  depDuration : Z;
  depFormat : SaveFormat
}.

Record Hook : Type := mkHook {
  settings : Settings;
  state : ReactState;
  refs : Refs;
  rendered : Deps
}.

Definition with_state (f : ReactState -> ReactState) (h : Hook) : Hook :=
  {| settings := settings h; state := f (state h); refs := refs h; rendered := rendered h |}.

Definition with_refs (f : Refs -> Refs) (h : Hook) : Hook :=
  {| settings := settings h; state := state h; refs := f (refs h); rendered := rendered h |}.

Definition set_rendered (d : Deps) (h : Hook) : Hook :=
  {| settings := settings h; state := state h; refs := refs h; rendered := d |}.

Definition depsOf (h : Hook) : Deps :=
  {| depRecording := isRecording (state h);
     depPaused := isPaused (state h);
     depDuration := recordingDuration (state h);
     depFormat := saveFormat (settings h) |}.

(** The hook as first mounted with the given settings and frame rate. *)
Definition mount (s : Settings) (fps : Z) : Hook :=
  {| settings := s;
     state := {| isRecording := false; isPaused := false; recordingDuration := 0;
                 targetFrameRate := fps; isExporting := false; exportProgress := 0 |};
     refs := {| isProcessingRef := false; recordingRegionRef := None;
                displayStreamRef := None; cameraStreamRef := None; streamRef := None;
                recordingCanvasRef := None; originalVideoSizeRef := None;
                mediaRecorderRef := None; timerIntervalRef := false;
                frameBufferRef := None |};
     rendered := {| depRecording := false; depPaused := false; depDuration := 0;
                    depFormat := saveFormat s |} |}.

(** *** What the hook asks of the platform *)

Inductive Notice : Type :=
| LicenseLimitReached
| SaveFailed (err : option string)
| StartFailed (err : string).

Inductive Effect : Type :=
| GetDesktopStream (sourceId : string)
| GetDisplayMedia (audio : bool)
| GetMicrophone
| GetCamera
| CreateCanvas
| CaptureCanvasStream (w h fps : Z)
| StartRecordingStream
| NewMediaRecorder (stream : MediaStream)
| RecorderStart (timeslice : Z)
| RecorderStop
| RecorderPause
| RecorderResume
| StopTracks (stream : MediaStream)
| StopDrawing
| ShowMainWindow
| HideRecordingOverlay
| StopRecordingStream (format : SaveFormat)
| Alert (notice : Notice).

(** *** The monad of the hook's code: state, exceptions, an effect log *)

Inductive Outcome (A : Type) : Type :=
| Ok (a : A)
| Throw (err : string).
Arguments Ok {A} a.
Arguments Throw {A} err.

Definition M (A : Type) : Type := Hook -> Outcome A * Hook * list Effect.

Definition ret {A : Type} (a : A) : M A := fun h => (Ok a, h, []).

Definition bind {A B : Type} (m : M A) (k : A -> M B) : M B :=
  fun h =>
    match m h with
    | (Ok a, h1, e1) => let '(r, h2, e2) := k a h1 in (r, h2, e1 ++ e2)
    | (Throw err, h1, e1) => (Throw err, h1, e1)
    end.

Notation "'let*' x ':=' m 'in' k" := (bind m (fun x => k))
  (at level 10, x name, m at level 100, k at level 200).
Notation "m ';;' k" := (bind m (fun _ => k))
  (at level 100, k at level 200, right associativity).

Definition throw {A : Type} (err : string) : M A := fun h => (Throw err, h, []).

Definition tryCatch {A : Type} (body : M A) (handler : string -> M A) : M A :=
  fun h =>
    match body h with
    | (Ok a, h1, e1) => (Ok a, h1, e1)
    | (Throw err, h1, e1) => let '(r, h2, e2) := handler err h1 in (r, h2, e1 ++ e2)
    end.

Definition finally {A : Type} (body : M A) (fin : M unit) : M A :=
  fun h =>
    let '(r, h1, e1) := body h in
    match fin h1 with
    | (Ok _, h2, e2) => (r, h2, e1 ++ e2)
    | (Throw err, h2, e2) => (Throw err, h2, e1 ++ e2)
    end.

(** The three parts of a finished computation. *)
Definition outcomeOf {A : Type} (x : Outcome A * Hook * list Effect) : Outcome A := fst (fst x).
Definition hookOf {A : Type} (x : Outcome A * Hook * list Effect) : Hook := snd (fst x).
Definition effectsOf {A : Type} (x : Outcome A * Hook * list Effect) : list Effect := snd x.

Definition emit (e : Effect) : M unit := fun h => (Ok tt, h, [e]).
Definition gets {A : Type} (f : Hook -> A) : M A := fun h => (Ok (f h), h, []).
Definition modify (f : Hook -> Hook) : M unit := fun h => (Ok tt, f h, []).
Definition when (b : bool) (m : M unit) : M unit := if b then m else ret tt.

(** [await] of a settled promise: its value, or the rejection thrown. *)
Definition await {A : Type} (p : Settled A) : M A :=
  match p with
  | Resolved a => ret a
  | Rejected err => throw err
  end.

Definition setIsRecording (v : bool) : M unit := modify (with_state (set_isRecording v)).
Definition setIsPaused (v : bool) : M unit := modify (with_state (set_isPaused v)).
Definition setRecordingDuration (v : Z) : M unit := modify (with_state (set_recordingDuration v)).
Definition setTargetFrameRate (v : Z) : M unit := modify (with_state (set_targetFrameRate v)).
Definition setIsExporting (v : bool) : M unit := modify (with_state (set_isExporting v)).
Definition setExportProgress (v : Q) : M unit := modify (with_state (set_exportProgress v)).
Definition setIsProcessingRef (v : bool) : M unit := modify (with_refs (set_isProcessingRef v)).

(** Where the hook runs and what the licensing collaborator answers. *)
Record World : Type := mkWorld {
  isElectron : bool;
  maxRecordingDuration : Z
}.

(** What the platform answers during one [startRecording]. *)
Record StartEnv : Type := mkStartEnv {
  displayResult : Settled MediaStream;
  microphoneResult : Settled MediaStream;
  cameraResult : Settled MediaStream;
  videoWidth : Z;
  videoHeight : Z;
  hardwareConcurrency : Z;
  fileStreamResult : Settled Result;
  mp4Supported : bool;
  recorderResult : Settled unit
}.

(** *** Releasing feeds *)

Definition stopStream (get : Refs -> option MediaStream)
    (clear : Refs -> Refs) : M unit :=
  let* s := gets (fun h => get (refs h)) in
  match s with
  | Some stream => emit (StopTracks stream);; modify (with_refs clear)
  | None => ret tt
  end.

Definition stopCanvas : M unit :=
  let* c := gets (fun h => recordingCanvasRef (refs h)) in
  match c with
  | Some _ => emit StopDrawing;; modify (with_refs (set_recordingCanvasRef None))
  | None => ret tt
  end.

Definition clearFrameBuffer : M unit :=
  modify (with_refs (set_frameBufferRef None)).

Definition cleanupStreams : M unit :=
  stopStream cameraStreamRef (set_cameraStreamRef None);;
  stopStream displayStreamRef (set_displayStreamRef None);;
  stopCanvas;;
  modify (with_refs (set_timerIntervalRef false));;
  clearFrameBuffer.

(** *** startRecording

    The function is asynchronous.  It is cut in two at its first [await]:
    what runs at once when it is called ([startRecording_sync]) and what
    runs when the screen feed has been answered ([startRecording_async],
    taken in one step with the answers of the platform as an argument).
    Another call can find the hook between the two. *)

(** The part that runs before the first [await]: the guard, the resets, the
    frame buffer, and the request for the screen feed. *)
Definition startRecording_sync (w : World) (sourceId : string)
    (region : option Region) : M bool :=
  let* processing := gets (fun h => isProcessingRef (refs h)) in
  if processing then ret false
  else
    setIsProcessingRef true;;
    setRecordingDuration 0;;
    setExportProgress 0;;
    modify (with_refs (set_recordingRegionRef region));;
    let* fps := gets (fun h => targetFrameRate (state h)) in
    modify (with_refs (set_frameBufferRef (Some
      (FrameBuffer.adjustQueueDepth (inject_Z fps)
        (FrameBuffer.constructor
           {| FrameBuffer.p_maxSize := Some 5;
              FrameBuffer.p_dropStrategy := Some FrameBuffer.DropOldest;
              FrameBuffer.p_targetFps := Some (inject_Z fps) |})))));;
    (if isElectron w then emit (GetDesktopStream sourceId)
     else let* audio := gets (fun h => includeSystemAudio (settings h)) in
          emit (GetDisplayMedia audio));;
    ret true.

(** Steps 1 to 3: the screen feed (its failure aborts), then the microphone
    and the camera (their failures are swallowed). *)
Definition acquireFeeds (env : StartEnv) : M (MediaStream * option MediaStream) :=
  let* displayStream := await (displayResult env) in
  modify (with_refs (set_displayStreamRef (Some displayStream)));;
  let* includeMicrophone := gets (fun h => includeMicrophone (settings h)) in
  let* picStream :=
    (if includeMicrophone
     then emit GetMicrophone;; ret (resolved (microphoneResult env))
     else ret None) in
  let* includeCamera := gets (fun h => includeCamera (settings h)) in
  (if includeCamera
   then emit GetCamera;;
        match cameraResult env with
        | Resolved camStream => modify (with_refs (set_cameraStreamRef (Some camStream)))
        | Rejected _ => ret tt
        end
   else ret tt);;
  ret (displayStream, picStream).

(** The test of step 4: a camera feed that is wanted and held, or a region. *)
Definition useCompositeMode (h : Hook) : bool :=
  let hasRegion := bool_decide (is_Some (recordingRegionRef (refs h))) in
  (includeCamera (settings h) && bool_decide (is_Some (cameraStreamRef (refs h))))
  || hasRegion.

(** The canvas branch of step 4, up to [canvas.captureStream].
    [targetFrameRate] is the value the call was made with: what
    [setTargetFrameRate] stores is seen by later renders only. *)
Definition compositeStream (env : StartEnv) (targetFrameRate : Z) : M MediaStream :=
  emit CreateCanvas;;
  let width := orDefault (videoWidth env) 1920 in
  let height := orDefault (videoHeight env) 1080 in
  modify (with_refs (set_originalVideoSizeRef (Some (width, height))));;
  let optimalScale :=
    PerformanceOptimizer.calculateOptimalScale width height targetFrameRate in
  let optimalFps :=
    PerformanceOptimizer.calculateOptimalFps
      (PerformanceOptimizer.getCPUCores (hardwareConcurrency env)) width height in
  let actualFps := Z.min targetFrameRate optimalFps in
  when (negb (actualFps =? targetFrameRate)) (setTargetFrameRate actualFps);;
  modify (with_refs (fun r =>
    set_frameBufferRef
      (FrameBuffer.adjustQueueDepth (inject_Z actualFps) <$> frameBufferRef r) r));;
  let* region := gets (fun h => recordingRegionRef (refs h)) in
  let crop := cropRect region width height in
  let canvas :=
    {| canvasWidth := round (inject_Z (cropWidth crop) * optimalScale);
       canvasHeight := round (inject_Z (cropHeight crop) * optimalScale) |} in
  modify (with_refs (set_recordingCanvasRef (Some canvas)));;
  emit (CaptureCanvasStream (canvasWidth canvas) (canvasHeight canvas) actualFps);;
  ret [CanvasVideo actualFps].

(** Step 4: the stream handed to the encoder. *)
Definition composeStreams (env : StartEnv) (targetFrameRate : Z)
    (displayStream : MediaStream) (picStream : option MediaStream) : M MediaStream :=
  let* composite := gets useCompositeMode in
  let* finalStream :=
    (if composite then compositeStream env targetFrameRate else ret displayStream) in
  let* s := gets settings in
  let micTracks :=
    match picStream with
    | Some mic => if includeMicrophone s then getAudioTracks mic else []
    | None => []
    end in
  let displayAudioTracks :=
    if includeCamera s then [] else getAudioTracks displayStream in
  let combinedStream := getVideoTracks finalStream ++ micTracks ++ displayAudioTracks in
  modify (with_refs (set_streamRef (Some combinedStream)));;
  ret combinedStream.

(** Step 5: the temporary file in the main process. *)
Definition initStreamToDisk (w : World) (env : StartEnv) : M unit :=
  if isElectron w
  then emit StartRecordingStream;;
       let* res := await (fileStreamResult env) in
       if success res then ret tt else throw "Failed to start file stream"
  else ret tt.

(** Step 6: the encoder. *)
Definition startMediaRecorder (env : StartEnv) (targetFrameRate : Z)
    (combinedStream : MediaStream) : M unit :=
  let* canvas := gets (fun h => recordingCanvasRef (refs h)) in
  let* format := gets (fun h => saveFormat (settings h)) in
  let optimalBitrate :=
    PerformanceOptimizer.calculateOptimalBitrate
      (orDefault (default 0 (canvasWidth <$> canvas)) 1920)
      (orDefault (default 0 (canvasHeight <$> canvas)) 1080)
      targetFrameRate in
  emit (NewMediaRecorder combinedStream);;
  await (recorderResult env);;
  let mediaRecorder :=
    {| recState := recording; stopEventPending := false;
       recStream := combinedStream;
       mimeType := if mp4Supported env then video_mp4_avc1 else video_webm;
       videoBitsPerSecond := optimalBitrate;
       audioBitsPerSecond := 192000;
       capturedFormat := format |} in
  modify (with_refs (set_mediaRecorderRef (Some mediaRecorder)));;
  emit (RecorderStart 250);;
  setIsRecording true;;
  setIsPaused false.

(** What follows the first [await]: the [try] block, ... *)
Definition startRecording_try (w : World) (env : StartEnv) : M unit :=
  let* targetFrameRate := gets (fun h => targetFrameRate (state h)) in
  let* feeds := acquireFeeds env in
  let* combinedStream := composeStreams env targetFrameRate (fst feeds) (snd feeds) in
  initStreamToDisk w env;;
  startMediaRecorder env targetFrameRate combinedStream.

(** ... the [catch] block, ... *)
Definition startRecording_catch (err : string) : M unit :=
  setIsRecording false;;
  setIsPaused false;;
  cleanupStreams;;
  setIsProcessingRef false;;
  emit (Alert (StartFailed err)).

(** ... and the [finally] block around both. *)
Definition startRecording_async (w : World) (env : StartEnv) : M unit :=
  finally
    (tryCatch (startRecording_try w env) startRecording_catch)
    (setIsProcessingRef false).

Definition startRecording (w : World) (env : StartEnv) (sourceId : string)
    (region : option Region) : M unit :=
  let* entered := startRecording_sync w sourceId region in
  if entered then startRecording_async w env else ret tt.

(** *** stop, pause, resume *)

Definition stopRecording (w : World) : M unit :=
  let* rec := gets (fun h => mediaRecorderRef (refs h)) in
  match rec with
  | Some r =>
      match recState r with
      | inactive => cleanupStreams
      | _ =>
          when (isElectron w) (emit ShowMainWindow;; emit HideRecordingOverlay);;
          emit RecorderStop;;
          modify (with_refs (set_mediaRecorderRef (Some (withRecState inactive true r))));;
          setIsRecording false;;
          setIsPaused false
      end
  | None => cleanupStreams
  end.

Definition pauseRecording : M unit :=
  let* rec := gets (fun h => mediaRecorderRef (refs h)) in
  match rec with
  | Some r =>
      match recState r with
      | recording =>
          emit RecorderPause;;
          modify (with_refs (set_mediaRecorderRef
            (Some (withRecState paused (stopEventPending r) r))));;
          setIsPaused true
      | _ => ret tt
      end
  | None => ret tt
  end.

Definition resumeRecording : M unit :=
  let* rec := gets (fun h => mediaRecorderRef (refs h)) in
  match rec with
  | Some r =>
      match recState r with
      | paused =>
          emit RecorderResume;;
          modify (with_refs (set_mediaRecorderRef
            (Some (withRecState recording (stopEventPending r) r))));;
          setIsPaused false
      | _ => ret tt
      end
  | None => ret tt
  end.

(** The recorder's [onstop] handler, run when its queued [stop] event is
    delivered; [answer] is how the promise of [stop-recording-stream]
    settles.  The handler awaits it outside any [try]: a rejection leaves
    the handler where it stood. *)
Definition onstop (w : World) (format : SaveFormat) (answer : Settled Result) : M unit :=
  stopStream cameraStreamRef (set_cameraStreamRef None);;
  stopStream displayStreamRef (set_displayStreamRef None);;
  stopCanvas;;
  when (isElectron w)
    (setIsExporting true;;
     setExportProgress 0;;
     emit (StopRecordingStream format);;
     let* result := await answer in
     setIsExporting false;;
     setExportProgress 100;;
     if success result then ret tt
     else if bool_decide (canceled result = Some true) then ret tt
     else emit (Alert (SaveFailed (error result))));;
  clearFrameBuffer;;
  setIsProcessingRef false.

(** The queued [stop] event of the current recorder reaching its handler. *)
Definition deliverStop (w : World) (answer : Settled Result) : M unit :=
  let* rec := gets (fun h => mediaRecorderRef (refs h)) in
  match rec with
  | Some r =>
      if stopEventPending r
      then modify (with_refs (set_mediaRecorderRef (Some (withRecState inactive false r))));;
           onstop w (capturedFormat r) answer
      else ret tt
  | None => ret tt
  end.

(** *** The effects of the hook, in the order they are declared *)

(** Duration timer, dependencies [isRecording, isPaused]: after it ran, the
    one-second interval exists exactly while recording and not paused. *)
Definition durationTimerEffect (snap : Deps) : M unit :=
  modify (with_refs (set_timerIntervalRef (depRecording snap && negb (depPaused snap)))).

(** GIF auto-stop, dependencies [recordingDuration, isRecording, saveFormat]. *)
Definition gifAutoStopEffect (w : World) (snap : Deps) : M unit :=
  when (depRecording snap && isGif (depFormat snap) && (60 <=? depDuration snap))
    (stopRecording w).

(** Licence limit, dependencies [recordingDuration, isRecording, isPaused]
    and [getTranslation], which is taken to be the same function at every
    render. *)
Definition licenseLimitEffect (w : World) (snap : Deps) : M unit :=
  when (depRecording snap && negb (depPaused snap))
    (let maxDuration := maxRecordingDuration w in
     when ((0 <? maxDuration) && (maxDuration <=? depDuration snap))
       (stopRecording w;;
        emit (Alert LicenseLimitReached))).

Definition formatEqb (a b : SaveFormat) : bool :=
  match a, b with
  | mp4, mp4 | gif, gif => true
  | _, _ => false
  end.

Definition timerDepsChanged (old new : Deps) : bool :=
  negb (Bool.eqb (depRecording old) (depRecording new))
  || negb (Bool.eqb (depPaused old) (depPaused new)).

Definition gifDepsChanged (old new : Deps) : bool :=
  negb (depDuration old =? depDuration new)
  || negb (Bool.eqb (depRecording old) (depRecording new))
  || negb (formatEqb (depFormat old) (depFormat new)).

Definition licenseDepsChanged (old new : Deps) : bool :=
  negb (depDuration old =? depDuration new)
  || negb (Bool.eqb (depRecording old) (depRecording new))
  || negb (Bool.eqb (depPaused old) (depPaused new)).

(** One render and its effects: each effect whose dependencies changed runs
    against the values of this render. *)
Definition runEffects (w : World) : M unit :=
  let* snap := gets depsOf in
  let* old := gets rendered in
  when (timerDepsChanged old snap) (durationTimerEffect snap);;
  when (gifDepsChanged old snap) (gifAutoStopEffect w snap);;
  when (licenseDepsChanged old snap) (licenseLimitEffect w snap);;
  modify (set_rendered snap).

Definition depsEqb (a b : Deps) : bool :=
  Bool.eqb (depRecording a) (depRecording b)
  && Bool.eqb (depPaused a) (depPaused b)
  && (depDuration a =? depDuration b)
  && formatEqb (depFormat a) (depFormat b).

(** Nothing is left to render. *)
Definition settled (h : Hook) : bool := depsEqb (rendered h) (depsOf h).

(** React renders again while an effect has changed the state. *)
Fixpoint commit (fuel : nat) (w : World) : M unit :=
  match fuel with
  | O => ret tt
  | S fuel' =>
      runEffects w;;
      let* done := gets settled in
      if done then ret tt else commit fuel' w
  end.

Definition render (w : World) : M unit := commit 2 w.

(** The one-second interval firing. *)
Definition tick (w : World) : M unit :=
  let* running := gets (fun h => timerIntervalRef (refs h)) in
  when running
    (let* prev := gets (fun h => recordingDuration (state h)) in
     setRecordingDuration (prev + 1));;
  render w.

(** The check made by the draw loop every 30 frames. *)
Definition checkPerformance (frameCount actualFps : Z) : M unit :=
  let* fb := gets (fun h => frameBufferRef (refs h)) in
  match fb with
  | Some b =>
      when ((frameCount mod 30 =? 0)
            && negb (Qle_bool (FrameBuffer.dropRate b) 10))
        (let newFps := Z.max 15 (actualFps - 5) in
         setTargetFrameRate newFps;;
         modify (with_refs (set_frameBufferRef
           (Some (FrameBuffer.adjustQueueDepth (inject_Z newFps) b)))))
  | None => ret tt
  end.

(** What the user and the platform can do to a mounted hook. *)
Inductive Event : Type :=
| EvTick
| EvPause
| EvResume
| EvStop
| EvStopDelivered (answer : Settled Result).

(** An event and the render it causes.  The [onstop] handler is an async
    function called by the platform: what it throws is an unhandled
    rejection and reaches no code of the hook. *)
Definition step (w : World) (ev : Event) : M unit :=
  match ev with
  | EvTick => tick w
  | EvPause => pauseRecording;; render w
  | EvResume => resumeRecording;; render w
  | EvStop => stopRecording w;; render w
  | EvStopDelivered answer =>
      tryCatch (deliverStop w answer) (fun _ => ret tt);; render w
  end.

Fixpoint run (w : World) (evs : list Event) : M unit :=
  match evs with
  | [] => ret tt
  | ev :: evs' => step w ev;; run w evs'
  end.

(** The session as the specification names its states. *)
Inductive SessionState : Type :=
| Idle
| Starting
| Recording
| Paused
| Stopping.

Definition sessionState (h : Hook) : SessionState :=
  if isProcessingRef (refs h) then Starting
  else match mediaRecorderRef (refs h) with
       | Some r =>
           match recState r with
           | recording => Recording
           | paused => Paused
           | inactive => if stopEventPending r then Stopping else Idle
           end
       | None => Idle
       end.

Definition alerts (es : list Effect) : list Notice :=
  omap (fun e => match e with Alert n => Some n | _ => None end) es.

Definition isLicenseNotice (e : Effect) : bool :=
  match e with
  | Alert LicenseLimitReached => true
  | _ => false
  end.

Definition isRecorderStop (e : Effect) : bool :=
  match e with
  | RecorderStop => true
  | _ => false
  end.

Definition isCanvasEffect (e : Effect) : bool :=
  match e with
  | CreateCanvas | CaptureCanvasStream _ _ _ => true
  | _ => false
  end.

(** Whether frames went through a canvas. *)
Definition usesCanvas (es : list Effect) : bool := existsb isCanvasEffect es.

(** The streams handed to an encoder. *)
Definition encoderStreams (es : list Effect) : list MediaStream :=
  omap (fun e => match e with NewMediaRecorder s => Some s | _ => None end) es.

(** How many times the licence notice was shown. *)
Definition licenseNotices (es : list Effect) : nat :=
  length (List.filter isLicenseNotice es).

(** How many times the encoder was told to stop. *)
Definition recorderStops (es : list Effect) : nat :=
  length (List.filter isRecorderStop es).

(** *** Vocabulary of the properties *)

(** A camera feed is held when step 4 decides: acquired by this call, or
    still referenced from before. *)
Definition cameraHeld (env : StartEnv) (h : Hook) : bool :=
  bool_decide (is_Some (resolved (cameraResult env)))
  || bool_decide (is_Some (cameraStreamRef (refs h))).

(** The fields the mode decision reads. *)
Definition modeInputs (h : Hook) : bool * option MediaStream * option Region :=
  (includeCamera (settings h), cameraStreamRef (refs h), recordingRegionRef (refs h)).

(** Nothing of a canvas and no encoder in a log. *)
Definition plain (es : list Effect) : Prop :=
  usesCanvas es = false /\ encoderStreams es = [].

(** [m] keeps the property [P] of the hook and shows no licence notice. *)
Definition silent (P : Hook -> Prop) {A : Type} (m : M A) : Prop :=
  forall h, P h ->
    P (hookOf (m h)) /\ licenseNotices (effectsOf (m h)) = 0%nat.

(** Properties that survive every update made by stop, pause, resume,
    the [onstop] handler and the effects. *)
Record invariant (P : Hook -> Prop) : Prop := mkInvariant {
  inv_refs : forall f h, P h -> P (with_refs f h);
  inv_rendered : forall d h, P h -> P (set_rendered d h);
  inv_paused : forall v h, P h -> P (with_state (set_isPaused v) h);
  inv_stopped : forall h, P h -> P (with_state (set_isRecording false) h);
  inv_exporting : forall v h, P h -> P (with_state (set_isExporting v) h);
  inv_progress : forall v h, P h -> P (with_state (set_exportProgress v) h)
}.

(** The licence effect has nothing to do in any state satisfying [P]. *)
Definition licenseIdle (w : World) (P : Hook -> Prop) : Prop :=
  forall h, P h -> licenseLimitEffect w (depsOf h) = ret tt.

(** *** A session used in the examples *)

Definition demoWorld : World := {| isElectron := true; maxRecordingDuration := 600 |}.

Definition demoSettings : Settings :=
  {| includeCamera := false; includeMicrophone := true;
     includeSystemAudio := true; saveFormat := mp4 |}.

Definition demoEnv : StartEnv :=
  {| displayResult := Resolved [ScreenVideo];
     microphoneResult := Resolved [MicAudio];
     cameraResult := Rejected "NotFoundError";
     videoWidth := 1920;
     videoHeight := 1080;
     hardwareConcurrency := 8;
     fileStreamResult :=
       Resolved {| success := true; path := Some "/tmp/stream-recording-1.webm";
                   error := None; canceled := None |};
     mp4Supported := true;
     recorderResult := Resolved tt |}.

(** A first render, a successful start, its render, and [n] seconds. *)
Definition recordingFor (w : World) (s : Settings) (n : nat) : Hook :=
  hookOf ((render w;;
           startRecording w demoEnv "screen:0:0" None;;
           render w;;
           run w (replicate n EvTick)) (mount s 30)).

(** *** Whole sessions *)

(** [m] keeps the property [P] of the hook and issues only effects that
    satisfy [Q]. *)
Definition keeps (P : Hook -> Prop) (Q : Effect -> Prop) {A : Type} (m : M A) : Prop :=
  forall h, P h -> P (hookOf (m h)) /\ Forall Q (effectsOf (m h)).

(** What can happen to a mounted hook: a call to [startRecording] with the
    answers of the platform, an event, or the draw loop's check; each is
    followed by the render it causes. *)
Inductive Action : Type :=
| ActStart (env : StartEnv) (sourceId : string) (region : option Region)
| ActEvent (ev : Event)
| ActCheck (frameCount actualFps : Z).

Definition act (w : World) (a : Action) : M unit :=
  match a with
  | ActStart env sourceId region => startRecording w env sourceId region;; render w
  | ActEvent ev => step w ev
  | ActCheck frameCount actualFps => checkPerformance frameCount actualFps;; render w
  end.

Fixpoint session (w : World) (acts : list Action) : M unit :=
  match acts with
  | [] => ret tt
  | a :: acts' => act w a;; session w acts'
  end.

(** The hook's frame buffer, if there is one, has never been given a
    frame. *)
Definition unfed (h : Hook) : Prop :=
  match frameBufferRef (refs h) with
  | Some b => FrameBuffer.framesReceived (FrameBuffer.stats b) = 0
  | None => True
  end.

(** Every effect. *)
Definition anyEffect (e : Effect) : Prop := True.

(** Why a [startRecording] that passed its guard does not end recording:
    the rejection of the screen feed, of the temporary file (in Electron)
    or of the encoder, in the order the code awaits them.  The microphone
    and the camera are not in the list. *)
Definition startFailure (w : World) (env : StartEnv) : option string :=
  match displayResult env with
  | Rejected err => Some err
  | Resolved _ =>
      let fileFailure :=
        if isElectron w
        then match fileStreamResult env with
             | Rejected err => Some err
             | Resolved res =>
                 if success res then None else Some "Failed to start file stream"
             end
        else None in
      match fileFailure with
      | Some err => Some err
      | None =>
          match recorderResult env with
          | Rejected err => Some err
          | Resolved _ => None
          end
      end
  end.

(** The temporary file of step 5 is there: outside Electron none is asked
    for, in Electron the main process answered with success. *)
Definition fileGranted (w : World) (env : StartEnv) : bool :=
  negb (isElectron w)
  || match fileStreamResult env with
     | Resolved res => success res
     | Rejected _ => false
     end.

(** [mediaRecorderRef.current && mediaRecorderRef.current.state !== 'inactive'] *)
Definition recorderActive (h : Hook) : bool :=
  match mediaRecorderRef (refs h) with
  | Some r =>
      match recState r with
      | inactive => false
      | _ => true
      end
  | None => false
  end.

(** The alert [onstop] shows for an answer of [stop-recording-stream]. *)
Definition saveAlert (w : World) (result : Result) : list Notice :=
  if isElectron w && negb (success result)
     && negb (bool_decide (canceled result = Some true))
  then [SaveFailed (error result)]
  else [].

(** [m] never throws, and takes every hook to one related to it by [R]. *)
Definition relates (R : Hook -> Hook -> Prop) {A : Type} (m : M A) : Prop :=
  forall h, exists a h' es, m h = (Ok a, h', es) /\ R h h'.

(** What a render may do to the settings and the state: the settings
    stay, and the state stays unless the recording was stopped. *)
Definition stopped (s : ReactState) : ReactState :=
  set_isPaused false (set_isRecording false s).

Definition stoppedOrSame (h h' : Hook) : Prop :=
  settings h' = settings h
  /\ (state h' = state h \/ state h' = stopped (state h)).

End Recorder.

(** ** components/VideoRecorder.tsx: the handler of the area selection *)

Module VideoRecorder.
Import Recorder.

(** A width and a height, as in [screen.bounds] and [screen.workArea]. *)
Record Size : Type := mkSize {
  sizeWidth : Z;
  sizeHeight : Z
}.

(** What [getScreens] reports for the primary display; [bounds] may be
    missing. *)
Record Screen : Type := mkScreen {
  bounds : option Size;
  workArea : Size
}.

(** The rectangle the area selector sends, in work-area coordinates. *)
Record Selection : Type := mkSelection {
  selX : Q;
  selY : Q;
  selWidth : Q;
  selHeight : Q
}.

(** [screenBounds.width || primary.workArea.width], and the same for the
    height, with [screenBounds = primary.bounds || primary.workArea]. *)
Definition screenSize (primary : Screen) : Size :=
  let screenBounds := default (workArea primary) (bounds primary) in
  {| sizeWidth := orDefault (sizeWidth screenBounds) (sizeWidth (workArea primary));
     sizeHeight := orDefault (sizeHeight screenBounds) (sizeHeight (workArea primary)) |}.

(** The handler of the area selection: the rectangle in screen pixels
    (shown as the recording overlay) and the normalised region given to
    [startRecording]. *)
Definition selectionRegion (primary : Screen) (sel : Selection) : CropRect * Region :=
  let screenWidth := sizeWidth (screenSize primary) in
  let screenHeight := sizeHeight (screenSize primary) in
  let workAreaWidth := sizeWidth (workArea primary) in
  let workAreaHeight := sizeHeight (workArea primary) in
  let scaleX := (inject_Z screenWidth / inject_Z workAreaWidth)%Q in
  let scaleY := (inject_Z screenHeight / inject_Z workAreaHeight)%Q in
  let screenX := (selX sel * scaleX)%Q in
  let screenY := (selY sel * scaleY)%Q in
  let screenW := (selWidth sel * scaleX)%Q in
  let screenH := (selHeight sel * scaleY)%Q in
  let finalX := Z.max 0 (Z.min (screenWidth - 1) (round screenX)) in
  let finalY := Z.max 0 (Z.min (screenHeight - 1) (round screenY)) in
  let roundedW := round screenW in
  let roundedH := round screenH in
  let finalW := Z.max 1 (Z.min (screenWidth - finalX) roundedW) in
  let finalH := Z.max 1 (Z.min (screenHeight - finalY) roundedH) in
  let normX := (inject_Z finalX / inject_Z screenWidth)%Q in
  let normY := (inject_Z finalY / inject_Z screenHeight)%Q in
  let normW := (inject_Z finalW / inject_Z screenWidth)%Q in
  let normH := (inject_Z finalH / inject_Z screenHeight)%Q in
  ({| cropX := finalX; cropY := finalY; cropWidth := finalW; cropHeight := finalH |},
   {| x := normX; y := normY; width := normW; height := normH |}).

End VideoRecorder.

(** ** index.tsx: the stream handlers of the main process *)

Module Main.
Import Ipc.

(** *** Hardware tier and encoder settings *)

Inductive Tier : Type :=
| low
| medium
| high.

Definition getPerformanceTier (cores : Z) : Tier :=
  if cores <? 4 then low
  else if cores <? 8 then medium
  else high.

Definition getRecommendedPreset (darwin : bool) (cores : Z) : string :=
  if darwin then "medium"
  else match getPerformanceTier cores with
       | low => "fast"
       | medium => "medium"
       | high => "slow"
       end.

Definition getRecommendedCRF (darwin : bool) (cores : Z) : Z :=
  if darwin then 18
  else match getPerformanceTier cores with
       | low => 20
       | medium => 18
       | high => 16
       end.

(** *** What ffprobe reports *)

Record StreamInfo : Type := mkStream {
  codec_type : option string;
  codec_name : option string
}.

(** [duration] is 0 when the format carries none. *)
Record Metadata : Type := mkMetadata {
  streams : option (list StreamInfo);
  duration : Q
}.

Definition lowerAscii (c : Ascii.ascii) : Ascii.ascii :=
  let n := Ascii.N_of_ascii c in
  if ((65 <=? n) && (n <=? 90))%N then Ascii.ascii_of_N (n + 32) else c.

Fixpoint toLowerCase (s : string) : string :=
  match s with
  | EmptyString => EmptyString
  | String c rest => String (lowerAscii c) (toLowerCase rest)
  end.

Definition endsWith (s suffix : string) : bool :=
  String.prefix (String.rev suffix) (String.rev s).

(** [metadata.streams.find(s => s.codec_type === ty)?.codec_name?.toLowerCase()] *)
Definition codecOf (ty : string) (ss : list StreamInfo) : option string :=
  match List.find (fun s => bool_decide (codec_type s = Some ty)) ss with
  | Some s => toLowerCase <$> codec_name s
  | None => None
  end.

(** The streams seen by the code: none when the probe failed or reported
    no stream list. *)
Definition probedStreams (probe : option Metadata) : option (list StreamInfo) :=
  match probe with
  | Some metadata => streams metadata
  | None => None
  end.

Definition videoCodecOf (probe : option Metadata) : option string :=
  match probedStreams probe with
  | Some ss => codecOf "video" ss
  | None => None
  end.

Definition audioCodecOf (probe : option Metadata) : option string :=
  match probedStreams probe with
  | Some ss => codecOf "audio" ss
  | None => None
  end.

(** JavaScript truthiness of an optional string. *)
Definition truthy (s : option string) : bool :=
  match s with
  | Some EmptyString | None => false
  | Some _ => true
  end.

Definition isCodec (name : string) (codec : option string) : bool :=
  bool_decide (codec = Some name).

(** The decision taken in the probe callback. *)
Definition useStreamCopy (probe : option Metadata) : bool :=
  match probedStreams probe with
  | Some ss =>
      let videoCodec := codecOf "video" ss in
      let audioCodec := codecOf "audio" ss in
      isCodec "h264" videoCodec
      && (isCodec "aac" audioCodec || isCodec "mp3" audioCodec || negb (truthy audioCodec))
  | None => false
  end.

Definition x264Params : string :=
  "keyint=250:min-keyint=25:scenecut=60:ref=6:bframes=6:me=umh:subme=9:merange=24:trellis=2:aq-mode=2:aq-strength=1.0".

Definition videoOptions (videoCodec : option string) (preset : string) (crf : Z) : list string :=
  if isCodec "h264" videoCodec
  then ["-c:v"; "copy"]
  else ["-c:v"; "libx264";
        "-preset"; preset;
        "-crf"; pretty crf;
        "-profile:v"; "high";
        "-level"; "4.2";
        "-pix_fmt"; "yuv420p";
        "-threads"; "0";
        "-tune"; "film";
        "-x264-params"; x264Params].

Definition audioOptions (audioCodec : option string) : list string :=
  if isCodec "aac" audioCodec || isCodec "mp3" audioCodec
  then ["-c:a"; "copy"]
  else ["-c:a"; "aac"; "-b:a"; "192k"; "-ar"; "48000"; "-ac"; "2"].

(** The output options given to ffmpeg for an MP4 destination. *)
Definition mp4OutputOptions (probe : option Metadata) (preset : string) (crf : Z) : list string :=
  if useStreamCopy probe
  then ["-c"; "copy"; "-movflags"; "+faststart"; "-async"; "1"; "-vsync"; "cfr"]
  else videoOptions (videoCodecOf probe) preset crf
       ++ audioOptions (audioCodecOf probe)
       ++ ["-movflags"; "+faststart"]
       ++ ["-async"; "1"; "-vsync"; "cfr"; "-r"; "30"].

Definition gifOutputOptions : list string :=
  ["-vf"; "fps=15,scale=800:-1:flags=lanczos,split[s0][s1];[s0]palettegen[p];[s1][p]paletteuse";
   "-loop"; "0"].

(** [opts] holds the option [key] followed by the value [value]. *)
Fixpoint hasOption (key value : string) (opts : list string) : bool :=
  match opts with
  | k :: ((v :: _) as rest) =>
      (String.eqb k key && String.eqb v value) || hasOption key value rest
  | _ => false
  end.

Definition copiesVideo (opts : list string) : bool :=
  hasOption "-c" "copy" opts || hasOption "-c:v" "copy" opts.

Definition copiesAudio (opts : list string) : bool :=
  hasOption "-c" "copy" opts || hasOption "-c:a" "copy" opts.

(** *** Progress while ffmpeg runs *)

(** A JavaScript number as the progress code can meet one: a rational, an
    infinity or NaN.  A comparison with NaN is false, and NaN goes through
    [Math.max], [Math.min], [Math.round] and [+] unchanged. *)
Inductive Number : Type :=
| Num (q : Q)
| PosInfinity
| NegInfinity
| NaN.

(** What happens between the start of an ffmpeg job and its end: the
    fallback interval firing ([elapsed] seconds after the job started), the
    [start] event, and ffmpeg's own progress reports.  A report may carry a
    [percent], which is a number (NaN included), and a time mark, given as
    the hours, minutes and seconds the code's pattern extracts from it; a
    mark the pattern rejects counts as absent. *)
Inductive FfmpegEvent : Type :=
| Interval (elapsed : Q)
| Started
| Progress (percent : option Number) (timemark : option (Z * Z * Q)).

#[local] Open Scope Q_scope.

Definition round (q : Q) : Q := inject_Z (Qfloor (q + (1 # 2))).

Definition Qltb (a b : Q) : bool := negb (Qle_bool b a).

(** [Math.max(a, b)] *)
Definition mathMax (a b : Number) : Number :=
  match a, b with
  | NaN, _ | _, NaN => NaN
  | PosInfinity, _ | _, PosInfinity => PosInfinity
  | NegInfinity, v | v, NegInfinity => v
  | Num x, Num y => Num (Qmax x y)
  end.

(** [Math.min(a, b)] *)
Definition mathMin (a b : Number) : Number :=
  match a, b with
  | NaN, _ | _, NaN => NaN
  | NegInfinity, _ | _, NegInfinity => NegInfinity
  | PosInfinity, v | v, PosInfinity => v
  | Num x, Num y => Num (Qmin x y)
  end.

(** [Math.round(a)] *)
Definition mathRound (a : Number) : Number :=
  match a with
  | Num x => Num (round x)
  | other => other
  end.

(** [a < b] *)
Definition lessThan (a b : Number) : bool :=
  match a, b with
  | NaN, _ | _, NaN => false
  | Num x, Num y => Qltb x y
  | _, NegInfinity => false
  | NegInfinity, _ => true
  | PosInfinity, _ => false
  | _, PosInfinity => true
  end.

(** [a + q] for a rational [q] *)
Definition plus (a : Number) (q : Q) : Number :=
  match a with
  | Num x => Num (x + q)
  | other => other
  end.

Definition secondsOf (tm : Z * Z * Q) : Q :=
  let '(hours, minutes, seconds) := tm in
  inject_Z (hours * 3600 + minutes * 60)%Z + seconds.

(** One event of the GIF job: the new [lastProgress] and what is sent. *)
Definition gifProgress (inputDuration : Q) (ev : FfmpegEvent) (lastProgress : Number)
    : Number * list Number :=
  match ev with
  | Interval _ =>
      if lessThan lastProgress (Num 90)
      then (plus lastProgress 5, [plus lastProgress 5])
      else (lastProgress, [])
  | Started => (lastProgress, [])
  | Progress (Some p) _ =>
      let percent := mathMin (Num 95) (mathMax (Num 5) p) in
      (percent, [percent])
  | Progress None (Some tm) =>
      if Qltb 0 inputDuration
      then let currentTime := secondsOf tm in
           let percent :=
             mathMin (Num 95) (mathMax (Num 5) (Num ((currentTime / inputDuration) * 100))) in
           (percent, [percent])
      else (lastProgress, [])
  | Progress None None => (lastProgress, [])
  end.

Definition speedFactor (tier : Tier) : Q :=
  match tier with
  | low => 3 # 10
  | medium => 7 # 10
  | high => 12 # 10
  end.

(** One event of the MP4 job. *)
Definition mp4Progress (copy : bool) (tier : Tier) (actualDuration : Q)
    (ev : FfmpegEvent) (lastProgress : Number) : Number * list Number :=
  match ev with
  | Interval elapsed =>
      if copy
      then if lessThan lastProgress (Num 95) then (Num 95, [Num 95]) else (lastProgress, [])
      else
        let estimatedTotal :=
          if Qltb 0 actualDuration
          then actualDuration / speedFactor tier
          else Qmax 5 (if Qeq_bool actualDuration 0 then 10 else actualDuration) in
        let timeBasedProgress :=
          mathMin (Num 90) (mathMax (Num 10) (Num ((elapsed / estimatedTotal) * 100))) in
        if lessThan lastProgress timeBasedProgress
        then (timeBasedProgress, [mathRound timeBasedProgress])
        else if lessThan lastProgress (Num 50)
             then (plus lastProgress 3, [mathRound (plus lastProgress 3)])
             else (lastProgress, [])
  | Started => (lastProgress, [Num 15])
  | Progress (Some p) _ =>
      let percent := mathMin (Num 95) (mathMax (Num 10) p) in
      (percent, [mathRound percent])
  | Progress None (Some tm) =>
      if Qltb 0 actualDuration
      then let currentTime := secondsOf tm in
           let percent :=
             mathMin (Num 95) (mathMax (Num 10) (Num ((currentTime / actualDuration) * 100))) in
           (percent, [mathRound percent])
      else (lastProgress, [])
  | Progress None None => (lastProgress, [])
  end.

(** The values sent while the job's events arrive, in order. *)
Fixpoint sentDuring (onEvent : FfmpegEvent -> Number -> Number * list Number)
    (events : list FfmpegEvent) (lastProgress : Number) : list Number :=
  match events with
  | [] => []
  | ev :: rest =>
      let '(next, sent) := onEvent ev lastProgress in
      sent ++ sentDuring onEvent rest next
  end.

#[local] Close Scope Q_scope.

(** *** The handlers *)

(** The module-level streaming state, and the files on disk. *)
Record State : Type := mkMain {
  recordingWriteStream : option string;
  recordingTempPath : option string;
  files : gset string
}.

Definition startRecordingStream (tmpdir now : string) (m : State) : Result * State :=
  let tempInput := tmpdir +:+ "/stream-recording-" +:+ now +:+ ".webm" in
  ({| success := true; path := Some tempInput; error := None; canceled := None |},
   {| recordingWriteStream := Some tempInput;
      recordingTempPath := Some tempInput;
      files := {[ tempInput ]} ∪ files m |}).

Definition writeRecordingChunk (m : State) : bool :=
  bool_decide (is_Some (recordingWriteStream m)).

(** What the platform answers during one [stop-recording-stream]. *)
Record StopEnv : Type := mkStopEnv {
  dialogCanceled : bool;
  dialogFilePath : string;
  probe : option Metadata;
  events : list FfmpegEvent;
  ffmpegResult : Settled unit;
  copyResult : Settled unit;
  cores : Z;
  darwin : bool
}.

Definition withFiles (fs : gset string) (m : State) : State :=
  {| recordingWriteStream := recordingWriteStream m;
     recordingTempPath := recordingTempPath m;
     files := fs |}.

(** [unlink]: removing a file that is not there fails. *)
Definition unlink (p : string) (m : State) : Settled State :=
  if bool_decide (p ∈ files m)
  then Resolved (withFiles (files m ∖ {[ p ]}) m)
  else Rejected "ENOENT".

Definition copyFile (env : StopEnv) (src dst : string) (m : State) : Settled State :=
  if bool_decide (src ∈ files m)
  then match copyResult env with
       | Resolved _ => Resolved (withFiles ({[ dst ]} ∪ files m) m)
       | Rejected err => Rejected err
       end
  else Rejected "ENOENT".

(** An ffmpeg job writing [filePath]: what was sent, and how it ended. *)
Definition runFfmpeg (env : StopEnv) (filePath : string)
    (onEvent : FfmpegEvent -> Number -> Number * list Number) (lastProgress : Number)
    (m : State) : Settled State * list Number :=
  let sent := sentDuring onEvent (events env) lastProgress in
  match ffmpegResult env with
  | Resolved _ => (Resolved (withFiles ({[ filePath ]} ∪ files m) m), sent ++ [Num 100])
  | Rejected err => (Rejected err, sent)
  end.

(** The duration read before the export starts: 0 unless the file can be
    examined and ffprobe reports one. *)
Definition inputDurationOf (env : StopEnv) (tempInput : string) (m : State) : Q :=
  if bool_decide (tempInput ∈ files m)
  then match probe env with
       | Some metadata => duration metadata
       | None => 0%Q
       end
  else 0%Q.

(** The body of the [try] block, up to the removal of the temporary file. *)
Definition export (env : StopEnv) (format : SaveFormat) (tempInput filePath : string)
    (m : State) : Settled State * list Number :=
  let inputDuration := inputDurationOf env tempInput m in
  match format with
  | gif =>
      let '(r, sent) := runFfmpeg env filePath (gifProgress inputDuration) (Num 5) m in
      (r, [Num 5] ++ sent)
  | mp4 =>
      if endsWith filePath ".webm" && endsWith tempInput ".webm"
      then (copyFile env tempInput filePath m,
            [Num 5; Num 50]
            ++ (if bool_decide (is_Some (resolved (copyFile env tempInput filePath m)))
                then [Num 100] else []))
      else if endsWith filePath ".mp4"
      then
        let copy := useStreamCopy (probe env) in
        let actualDuration :=
          match probe env with
          | Some metadata =>
              if bool_decide (is_Some (streams metadata)) && negb (Qeq_bool (duration metadata) 0)
              then duration metadata else inputDuration
          | None => inputDuration
          end in
        let tier := getPerformanceTier (cores env) in
        let '(r, sent) :=
          runFfmpeg env filePath (mp4Progress copy tier actualDuration) (Num 10) m in
        (r, [Num 5; Num 10] ++ sent)
      else (copyFile env tempInput filePath m,
            [Num 5; Num 50]
            ++ (if bool_decide (is_Some (resolved (copyFile env tempInput filePath m)))
                then [Num 100] else []))
  end.

Definition declined (env : StopEnv) : bool :=
  dialogCanceled env || bool_decide (dialogFilePath env = "").

Definition failure (err : string) : Result :=
  {| success := false; path := None; error := Some err; canceled := None |}.

(** [stop-recording-stream]: the result, the new state, and the
    [export-progress] values sent to the renderer. *)
Definition stopRecordingStream (env : StopEnv) (format : SaveFormat)
    (m : State) : Result * State * list Number :=
  match recordingWriteStream m with
  | None => (failure "No active stream", m, [])
  | Some _ =>
      let m1 := {| recordingWriteStream := None;
                   recordingTempPath := recordingTempPath m;
                   files := files m |} in
      match recordingTempPath m1 with
      | None => (failure "No temp file path", m1, [])
      | Some tempInput =>
          if declined env
          then
            let m2 := match unlink tempInput m1 with
                      | Resolved m' => m'
                      | Rejected _ => m1
                      end in
            ({| success := false; path := None; error := None; canceled := Some true |},
             m2, [])
          else
            let filePath := dialogFilePath env in
            match export env format tempInput filePath m1 with
            | (Resolved m2, sent) =>
                match unlink tempInput m2 with
                | Resolved m3 =>
                    ({| success := true; path := Some filePath; error := None;
                        canceled := None |}, m3, sent)
                | Rejected err => (failure err, m2, sent)
                end
            | (Rejected err, sent) => (failure err, m1, sent)
            end
      end
  end.

(** *** A recording used in the examples *)

Definition demoRecording : State :=
  snd (startRecordingStream "/tmp" "1700000000000"
         {| recordingWriteStream := None; recordingTempPath := None; files := ∅ |}).

Definition demoTemp : string := "/tmp/stream-recording-1700000000000.webm".

(** A WebM intermediate file: VP8 video, Opus audio or none. *)
Definition vp8Opus : Metadata :=
  {| streams := Some [ {| codec_type := Some "video"; codec_name := Some "vp8" |};
                       {| codec_type := Some "audio"; codec_name := Some "opus" |} ];
     duration := 10%Q |}.

Definition vp8Silent : Metadata :=
  {| streams := Some [ {| codec_type := Some "video"; codec_name := Some "vp8" |} ];
     duration := 10%Q |}.

(** The user picks a GIF destination; the fallback interval fires twice,
    then ffmpeg reports 12.5 percent, then the job ends. *)
Definition gifExport : StopEnv :=
  {| dialogCanceled := false;
     dialogFilePath := "/home/user/recording.gif";
     probe := Some vp8Opus;
     events := [Interval (1 # 2)%Q; Interval 1%Q; Progress (Some (Num (25 # 2))) None];
     ffmpegResult := Resolved tt;
     copyResult := Resolved tt;
     cores := 8;
     darwin := false |}.

(** The user picks an MP4 destination; the job starts, then ffmpeg reports
    3 percent, then the job ends. *)
Definition mp4Export : StopEnv :=
  {| dialogCanceled := false;
     dialogFilePath := "/home/user/recording.mp4";
     probe := Some vp8Opus;
     events := [Started; Progress (Some (Num 3)) None];
     ffmpegResult := Resolved tt;
     copyResult := Resolved tt;
     cores := 8;
     darwin := false |}.

(** [a <= b] *)
Definition lessOrEqual (a b : Number) : Prop :=
  match a, b with
  | NaN, _ | _, NaN => False
  | Num x, Num y => (x <= y)%Q
  | NegInfinity, _ | _, PosInfinity => True
  | _, NegInfinity | PosInfinity, _ => False
  end.

(** The sequence never goes down. *)
Fixpoint nonDecreasing (l : list Number) : Prop :=
  match l with
  | a :: ((b :: _) as rest) => lessOrEqual a b /\ nonDecreasing rest
  | _ => True
  end.

Definition isInteger (v : Number) : Prop :=
  match v with
  | Num q => exists z : Z, (q == inject_Z z)%Q
  | _ => False
  end.

(** *** Ranges of the progress values *)

(** The number lies between [lo] and [hi]; NaN and the infinities do
    not. *)
Definition within (lo hi : Q) (v : Number) : Prop :=
  match v with
  | Num q => (lo <= q <= hi)%Q
  | _ => False
  end.

(** The value is one the renderer can show: between 5 and 100. *)
Definition displayable (v : Number) : Prop := within 5 100 v.

(** A value sent while the job runs: at most 95. *)
Definition running (v : Number) : Prop := within 5 95 v.

(** The same for the MP4 job, which starts at 10. *)
Definition mp4Running (v : Number) : Prop := within 10 95 v.

(** The event is not a report whose [percent] is NaN. *)
Definition numeric (ev : FfmpegEvent) : Prop :=
  match ev with
  | Progress (Some NaN) _ => False
  | _ => True
  end.

End Main.

(* ===================================================================== *)
(** * Part II: properties                                                 *)
(* ===================================================================== *)

Module FrameBufferFacts.
Import FrameBuffer.

Lemma length_shift q : length (shift q) = Nat.pred (length q).
Proof. by destruct q. Qed.

Lemma length_pop q : length (pop q) = Nat.pred (length q).
Proof.
  unfold pop. induction q as [|a [|b q] IH]; simpl in *; try done.
  by rewrite IH.
Qed.

Lemma length_evict b : length (evict b) = Nat.pred (length (queue b)).
Proof. unfold evict. destruct (dropStrategy _); [apply length_shift | apply length_pop]. Qed.

Lemma config_add frame b : config (snd (add frame b)) = config b.
Proof. done. Qed.

Lemma config_addAll frames b : config (addAll frames b) = config b.
Proof.
  revert b. induction frames as [|f fs IH]; intros b; simpl; [done|].
  unfold addAll in *. simpl. by rewrite IH.
Qed.

Lemma length_add frame b :
  length (queue (snd (add frame b))) =
  if isFull b then S (Nat.pred (length (queue b))) else S (length (queue b)).
Proof.
  unfold add. simpl. rewrite length_app. simpl.
  destruct (isFull b); [rewrite length_evict|]; lia.
Qed.

(** One [add] keeps the queue within a capacity of at least one. *)
Lemma add_within frame b :
  1 <= maxSize (config b) ->
  Z.of_nat (length (queue b)) <= maxSize (config b) ->
  Z.of_nat (length (queue (snd (add frame b)))) <= maxSize (config b).
Proof.
  intros Hcap Hle. rewrite length_add. unfold isFull.
  destruct (Z.leb_spec (maxSize (config b)) (Z.of_nat (length (queue b)))); lia.
Qed.

Lemma addAll_within frames b :
  1 <= maxSize (config b) ->
  Z.of_nat (length (queue b)) <= maxSize (config b) ->
  Z.of_nat (length (queue (addAll frames b))) <= maxSize (config b).
Proof.
  revert b. induction frames as [|f fs IH]; intros b Hcap Hle; [done|].
  change (addAll (f :: fs) b) with (addAll fs (snd (add f b))).
  rewrite <- (config_add f b). apply IH; rewrite config_add; [done|].
  by apply add_within.
Qed.

Lemma add_returns_true frame b : fst (add frame b) = true.
Proof. done. Qed.

Lemma add_received frame b :
  framesReceived (stats (snd (add frame b))) = framesReceived (stats b) + 1.
Proof. done. Qed.

Lemma add_not_full frame b :
  isFull b = false ->
  queue (snd (add frame b)) = queue b ++ [frame]
  /\ framesDropped (stats (snd (add frame b))) = framesDropped (stats b).
Proof. intros Hf. unfold add. by rewrite Hf. Qed.

Lemma add_full frame b :
  isFull b = true ->
  queue (snd (add frame b)) = evict b ++ [frame]
  /\ framesDropped (stats (snd (add frame b))) = framesDropped (stats b) + 1.
Proof. intros Hf. unfold add. by rewrite Hf. Qed.

Lemma pop_snoc (q : list ArrayBuffer) x : pop (q ++ [x]) = q.
Proof. unfold pop. apply removelast_last. Qed.

Lemma nonempty_snoc (q : list ArrayBuffer) :
  q <> [] -> exists init last, q = init ++ [last].
Proof.
  intros Hq. destruct (exists_last Hq) as [init [last Heq]]. by exists init, last.
Qed.

(** What is evicted from a non-empty queue: its head or its last entry. *)
Lemma evict_nonempty b :
  queue b <> [] ->
  match dropStrategy (config b) with
  | DropOldest => exists oldest rest, queue b = oldest :: rest /\ evict b = rest
  | DropNewest => exists init newest, queue b = init ++ [newest] /\ evict b = init
  end.
Proof.
  intros Hq. unfold evict. destruct (dropStrategy (config b)).
  - destruct (queue b) as [|x rest]; [done|]. by exists x, rest.
  - destruct (nonempty_snoc _ Hq) as (init & last & Heq).
    exists init, last. rewrite Heq. split; [done|]. apply pop_snoc.
Qed.

(** C3: with a fixed capacity of at least one, a buffer that starts empty
    never holds more than [maxSize] chunks, whatever is added.  An [add] on a
    full queue first evicts exactly one entry (the head under [DropOldest],
    the tail under [DropNewest]), then appends, and counts one dropped frame;
    an [add] on a queue that is not full only appends and counts no drop.
    [add] answers [true] in every case. *)
Theorem add_bounded_evicts_one
  (c : PartialConfig) (frames : list ArrayBuffer) (frame : ArrayBuffer) :
  1 <= maxSize (config (constructor c)) ->
  let b := addAll frames (constructor c) in
  let b' := snd (add frame b) in
  let cap := maxSize (config (constructor c)) in
  maxSize (config b) = cap
  /\ Z.of_nat (length (queue b)) <= cap
  /\ Z.of_nat (length (queue b')) <= cap
  /\ fst (add frame b) = true
  /\ (Z.of_nat (length (queue b)) = cap ->
      framesDropped (stats b') = framesDropped (stats b) + 1
      /\ match dropStrategy (config b) with
         | DropOldest =>
             exists oldest rest,
               queue b = oldest :: rest /\ queue b' = rest ++ [frame]
         | DropNewest =>
             exists init newest,
               queue b = init ++ [newest] /\ queue b' = init ++ [frame]
         end)
  /\ (Z.of_nat (length (queue b)) < cap ->
      framesDropped (stats b') = framesDropped (stats b)
      /\ queue b' = queue b ++ [frame]).
Proof.
  intros Hcap b b' cap.
  assert (Hcfg : maxSize (config b) = cap) by (unfold b; by rewrite config_addAll).
  assert (Hle : Z.of_nat (length (queue b)) <= cap).
  { unfold b, cap. apply addAll_within; [done|]. simpl in *. lia. }
  split; [done|]. split; [done|]. split.
  { unfold b'. fold cap in Hcap. rewrite <- Hcfg in *. by apply add_within. }
  split; [apply add_returns_true|]. split.
  - intros Hfull.
    assert (Hf : isFull b = true).
    { unfold isFull. apply Z.leb_le. lia. }
    destruct (add_full frame b Hf) as [Hq Hd]. split; [done|].
    assert (Hne : queue b <> []).
    { intros Hnil. rewrite Hnil in Hfull. simpl in Hfull. lia. }
    pose proof (evict_nonempty b Hne) as Hev.
    destruct (dropStrategy (config b)).
    + destruct Hev as (o & r & Hb & He). exists o, r. unfold b'. by rewrite Hq, He.
    + destruct Hev as (i & n & Hb & He). exists i, n. unfold b'. by rewrite Hq, He.
  - intros Hlt.
    assert (Hf : isFull b = false).
    { unfold isFull. apply Z.leb_gt. lia. }
    destruct (add_not_full frame b Hf) as [Hq Hd]. by split.
Qed.

(** A buffer of capacity 2 that drops the oldest chunk, fed three chunks. *)
Lemma add_bounded_evicts_one_witness :
  let c := {| p_maxSize := Some 2; p_dropStrategy := Some DropOldest; p_targetFps := None |} in
  let f1 := [Byte.x01] in
  let f2 := [Byte.x02] in
  let f3 := [Byte.x03] in
  queue (addAll [f1; f2] (constructor c)) = [f1; f2]
  /\ queue (snd (add f3 (addAll [f1; f2] (constructor c)))) = [f2; f3]
  /\ Z.of_nat (length (queue (snd (add f3 (addAll [f1; f2] (constructor c)))))) <= 2.
Proof.
  intros c f1 f2 f3.
  assert (Hcap : 1 <= maxSize (config (constructor c))) by (simpl; lia).
  pose proof (add_bounded_evicts_one c [f1; f2] f3 Hcap) as H.
  simpl in H. destruct H as (_ & _ & Hlen & _).
  split; [reflexivity|]. split; [reflexivity|]. exact Hlen.
Defined.

(** *** Queue depth as a function of the frame rate *)

Lemma scaled_fps_le (a b : Q) : (a <= b)%Q -> ((a / 30) * 5 <= (b / 30) * 5)%Q.
Proof.
  intros H. apply Qmult_le_compat_r; [|unfold Qle; simpl; lia].
  unfold Qdiv. apply Qmult_le_compat_r; [done | unfold Qle; simpl; lia].
Qed.

Lemma queueDepthFor_range fps : 3 <= queueDepthFor fps <= 8.
Proof. unfold queueDepthFor. lia. Qed.

Lemma queueDepthFor_mono (a b : Q) :
  (a <= b)%Q -> queueDepthFor a <= queueDepthFor b.
Proof.
  intros H. unfold queueDepthFor.
  pose proof (Qceiling_resp_le _ _ (scaled_fps_le a b H)). lia.
Qed.

Lemma queueDepthFor_nonpositive (a : Q) : (a <= 0)%Q -> queueDepthFor a = 3.
Proof.
  intros H. unfold queueDepthFor.
  assert (Hs : ((a / 30) * 5 <= 0)%Q).
  { apply (Qle_trans _ ((0 / 30) * 5)); [by apply scaled_fps_le|].
    unfold Qle. simpl. lia. }
  pose proof (Qceiling_resp_le _ _ Hs) as Hc.
  change (Qceiling 0) with 0 in Hc. lia.
Qed.

Lemma queueDepthFor_double (a : Q) : queueDepthFor a <= queueDepthFor (2 * a).
Proof.
  destruct (Qlt_le_dec a 0) as [Hneg|Hpos].
  - rewrite (queueDepthFor_nonpositive a) by lra.
    apply queueDepthFor_range.
  - apply queueDepthFor_mono. lra.
Qed.

(** C4: [adjustQueueDepth fps] stores [max(3, min(8, ceil(fps/30*5)))]; the
    stored capacity lies in [3,8], never decreases when the frame rate
    grows (nor when it is doubled), and is 5 at 25 frames per second. *)
Theorem adjustQueueDepth_clamped_monotone (fps fps' : Q) (b b' : t) :
  (fps <= fps')%Q ->
  maxSize (config (adjustQueueDepth fps b))
    = Z.max 3 (Z.min 8 (Qceiling ((fps / 30) * 5)))
  /\ 3 <= maxSize (config (adjustQueueDepth fps b)) <= 8
  /\ maxSize (config (adjustQueueDepth fps b))
       <= maxSize (config (adjustQueueDepth fps' b'))
  /\ maxSize (config (adjustQueueDepth fps b))
       <= maxSize (config (adjustQueueDepth (2 * fps) b'))
  /\ maxSize (config (adjustQueueDepth 25 b)) = 5.
Proof.
  intros Hle. simpl. split; [done|]. split; [apply queueDepthFor_range|].
  split; [by apply queueDepthFor_mono|]. split; [apply queueDepthFor_double|].
  reflexivity.
Qed.

(** From 30 to 60 frames per second the depth goes from 5 to 8. *)
Lemma adjustQueueDepth_clamped_monotone_witness :
  let b := constructor {| p_maxSize := Some 5; p_dropStrategy := None; p_targetFps := None |} in
  maxSize (config (adjustQueueDepth 30 b)) = 5
  /\ maxSize (config (adjustQueueDepth 60 b)) = 8
  /\ maxSize (config (adjustQueueDepth 30 b)) <= maxSize (config (adjustQueueDepth 60 b)).
Proof.
  intros b.
  assert (H3060 : (30 <= 60)%Q) by (unfold Qle; simpl; lia).
  destruct (adjustQueueDepth_clamped_monotone 30 60 b b H3060) as (_ & _ & Hm & _).
  split; [reflexivity|]. split; [reflexivity|]. exact Hm.
Defined.

(** *** Shrinking the capacity under a longer queue *)

Lemma add_over frame b :
  0 <= maxSize (config b) ->
  maxSize (config b) < Z.of_nat (length (queue b)) ->
  length (queue (snd (add frame b))) = length (queue b)
  /\ framesDropped (stats (snd (add frame b))) = framesDropped (stats b) + 1.
Proof.
  intros H0 Hlt.
  assert (Hf : isFull b = true) by (unfold isFull; apply Z.leb_le; lia).
  split.
  - rewrite length_add, Hf. lia.
  - by destruct (add_full frame b Hf).
Qed.

Lemma addAll_over frames b :
  0 <= maxSize (config b) ->
  maxSize (config b) < Z.of_nat (length (queue b)) ->
  length (queue (addAll frames b)) = length (queue b)
  /\ framesDropped (stats (addAll frames b))
       = framesDropped (stats b) + Z.of_nat (length frames).
Proof.
  revert b. induction frames as [|f fs IH]; intros b H0 Hlt.
  - simpl. split; [done|lia].
  - change (addAll (f :: fs) b) with (addAll fs (snd (add f b))).
    destruct (add_over f b H0 Hlt) as [Hl Hd].
    destruct (IH (snd (add f b))) as [Hl' Hd'].
    + by rewrite config_add.
    + rewrite config_add, Hl. done.
    + rewrite Hl', Hd', Hl, Hd. split; [done|]. simpl length. lia.
Qed.

(** C10: [adjustQueueDepth] writes [maxSize] and nothing else: the queued
    chunks, the three counters, the drop strategy and the stored target rate
    are the ones it was given.  It evicts nothing, so when the new capacity
    is below the queue length the queue is longer than its capacity
    afterwards; from there every [add] evicts one entry (one more dropped
    frame per call) and appends one, so the length is still the old one. *)
Theorem adjustQueueDepth_frame (fps : Q) (b : t) (frames : list ArrayBuffer) :
  let b' := adjustQueueDepth fps b in
  queue b' = queue b
  /\ stats b' = stats b
  /\ dropStrategy (config b') = dropStrategy (config b)
  /\ targetFps (config b') = targetFps (config b)
  /\ maxSize (config b') = queueDepthFor fps
  /\ (queueDepthFor fps < Z.of_nat (length (queue b)) ->
      maxSize (config b') < Z.of_nat (length (queue b'))
      /\ length (queue (addAll frames b')) = length (queue b)
      /\ framesDropped (stats (addAll frames b'))
           = framesDropped (stats b) + Z.of_nat (length frames)
      /\ maxSize (config (addAll frames b'))
           < Z.of_nat (length (queue (addAll frames b')))).
Proof.
  intros b'. do 5 (split; [done|]). intros Hlt.
  assert (H0 : 0 <= maxSize (config b')).
  { simpl. pose proof (queueDepthFor_range fps). lia. }
  assert (Hlt' : maxSize (config b') < Z.of_nat (length (queue b'))) by done.
  destruct (addAll_over frames b' H0 Hlt') as [Hl Hd].
  split; [done|]. split; [done|]. split; [done|].
  rewrite config_addAll, Hl. done.
Qed.

(** Eight chunks queued at capacity 8, then the rate drops to 15 frames per
    second (capacity 3): the eight chunks stay, and two further [add]s
    leave eight chunks with two drops counted. *)
Lemma adjustQueueDepth_frame_witness :
  let c := {| p_maxSize := Some 8; p_dropStrategy := None; p_targetFps := None |} in
  let f := [Byte.x00] in
  let b := addAll [f; f; f; f; f; f; f; f] (constructor c) in
  let b' := adjustQueueDepth 15 b in
  maxSize (config b') = 3
  /\ length (queue b') = 8%nat
  /\ length (queue (addAll [f; f] b')) = 8%nat
  /\ framesDropped (stats (addAll [f; f] b')) = 2.
Proof.
  intros c f b b'.
  destruct (adjustQueueDepth_frame 15 b [f; f]) as (_ & _ & _ & _ & _ & Hover).
  assert (Hlt : queueDepthFor 15 < Z.of_nat (length (queue b))) by (vm_compute; reflexivity).
  destruct (Hover Hlt) as (_ & Hl & Hd & _).
  split; [reflexivity|]. split; [reflexivity|]. split; [exact Hl | exact Hd].
Defined.

(** *** Counters and contents over runs of calls *)

Lemma queueDepthFor_ge fps : 3 <= queueDepthFor fps.
Proof. unfold queueDepthFor. lia. Qed.

Lemma call_accounted c b : forgets c = false -> accounted b -> accounted (call c b).
Proof.
  intros Hc [Hcap Hacc]. destruct c; try done; unfold accounted; simpl.
  - split; [done|]. rewrite length_app. simpl.
    destruct (isFull b) eqn:Hf.
    + rewrite length_evict. unfold isFull in Hf. apply Z.leb_le in Hf. lia.
    + lia.
  - unfold get. destruct (queue b) eqn:Hq; simpl; [by rewrite Hq|].
    split; [done|]. simpl in Hacc. lia.
  - split; [done|]. lia.
  - split; [|done]. apply Z.le_trans with 3; [lia | apply queueDepthFor_ge].
Qed.

Lemma calls_app cs1 cs2 b : calls (cs1 ++ cs2) b = calls cs2 (calls cs1 b).
Proof. unfold calls. apply fold_left_app. Qed.

Lemma calls_accounted cs b :
  forallb (fun c => negb (forgets c)) cs = true -> accounted b -> accounted (calls cs b).
Proof.
  revert b. induction cs as [|c cs IH]; intros b Hcs Hb; [done|].
  simpl in Hcs. apply andb_prop in Hcs as [Hc Hcs].
  change (calls (c :: cs) b) with (calls cs (call c b)).
  apply IH; [done|]. apply call_accounted; [|done]. by destruct (forgets c).
Qed.

(** X1: on a buffer built with a capacity of at least one, whatever run of
    [add], [get], [getAll] and [adjustQueueDepth] calls is made, every frame
    received is accounted for: it was counted as dropped, it was handed out
    ([framesProcessed]), or it is still in the queue. *)
Theorem frames_accounted (c : PartialConfig) (cs : list Call) :
  1 <= maxSize (config (constructor c)) ->
  forallb (fun k => negb (forgets k)) cs = true ->
  let b := calls cs (constructor c) in
  framesReceived (stats b)
  = framesDropped (stats b) + framesProcessed (stats b) + Z.of_nat (length (queue b)).
Proof.
  intros Hcap Hcs b. apply (calls_accounted cs (constructor c) Hcs). by split.
Qed.

(** A buffer of capacity 2 that overflows, is read, resized and emptied. *)
Lemma frames_accounted_witness :
  let c := {| p_maxSize := Some 2; p_dropStrategy := Some DropNewest; p_targetFps := None |} in
  let cs := [CallAdd [Byte.x01]; CallAdd [Byte.x02]; CallAdd [Byte.x03]; CallGet;
             CallAdjustQueueDepth 30; CallAdd [Byte.x04]; CallGetAll] in
  let b := calls cs (constructor c) in
  framesReceived (stats b) = 4
  /\ framesReceived (stats b)
     = framesDropped (stats b) + framesProcessed (stats b) + Z.of_nat (length (queue b)).
Proof.
  intros c cs b. split; [reflexivity|].
  apply (frames_accounted c cs); [simpl; lia | reflexivity].
Defined.

Lemma call_counted c b : counted b -> counted (call c b).
Proof.
  unfold counted. intros H. destruct c; simpl; try lia.
  - destruct (isFull b); lia.
  - unfold get. destruct (queue b); simpl; lia.
Qed.

Lemma calls_counted cs b : counted b -> counted (calls cs b).
Proof.
  revert b. induction cs as [|c cs IH]; intros b Hb; [done|].
  change (calls (c :: cs) b) with (calls cs (call c b)). by apply IH, call_counted.
Qed.

Lemma dropRate_counted b : counted b -> (0 <= dropRate b <= 100)%Q.
Proof.
  unfold counted, dropRate. intros [Hd Hr].
  destruct (Z.ltb_spec 0 (framesReceived (stats b))) as [Hpos|Hz]; [|by split].
  set (d := framesDropped (stats b)) in *. set (r := framesReceived (stats b)) in *.
  assert (Hq : (inject_Z d / inject_Z r * 100 == (d * 100) # (Z.to_pos r))%Q).
  { unfold Qeq, Qdiv, Qmult, Qinv, inject_Z. destruct r; try lia. simpl. lia. }
  rewrite Hq. unfold Qle. simpl. rewrite Z2Pos.id by lia. nia.
Qed.

(** X2: after any run of calls on a new buffer ([clear] and [resetStats]
    included) the counters satisfy [0 <= framesDropped <= framesReceived],
    so the drop rate reported by [getStats] is a percentage between 0 and
    100; it is 0 as long as nothing was received. *)
Theorem dropRate_percentage (c : PartialConfig) (cs : list Call) :
  let b := calls cs (constructor c) in
  0 <= framesDropped (stats b) <= framesReceived (stats b)
  /\ (0 <= reportedDropRate (getStats b) <= 100)%Q
  /\ (framesReceived (stats b) = 0 -> reportedDropRate (getStats b) = 0%Q).
Proof.
  intros b.
  assert (Hc : counted b) by (apply calls_counted; unfold counted; simpl; lia).
  split; [exact Hc|]. split; [by apply dropRate_counted|].
  intros Hz. simpl. unfold dropRate. by rewrite Hz.
Qed.

Lemma addAll_app fs1 fs2 b : addAll (fs1 ++ fs2) b = addAll fs2 (addAll fs1 b).
Proof. unfold addAll. apply fold_left_app. Qed.

Lemma received_addAll frames b :
  framesReceived (stats (addAll frames b))
  = framesReceived (stats b) + Z.of_nat (length frames).
Proof.
  revert b. induction frames as [|f fs IH]; intros b; [simpl; lia|].
  change (addAll (f :: fs) b) with (addAll fs (snd (add f b))).
  rewrite IH, add_received. simpl length. lia.
Qed.

Lemma processed_addAll frames b :
  framesProcessed (stats (addAll frames b)) = framesProcessed (stats b).
Proof.
  revert b. induction frames as [|f fs IH]; intros b; [done|].
  change (addAll (f :: fs) b) with (addAll fs (snd (add f b))). by rewrite IH.
Qed.

(** While there is room, [add] only appends. *)
Lemma addAll_fill frames b :
  Z.of_nat (length (queue b) + length frames) <= maxSize (config b) ->
  queue (addAll frames b) = queue b ++ frames.
Proof.
  revert b. induction frames as [|f fs IH]; intros b Hroom.
  { simpl. by rewrite app_nil_r. }
  change (addAll (f :: fs) b) with (addAll fs (snd (add f b))).
  simpl length in Hroom.
  assert (Hf : isFull b = false) by (unfold isFull; apply Z.leb_gt; lia).
  destruct (add_not_full f b Hf) as [Hq _].
  rewrite IH; rewrite Hq, ?config_add, ?length_app; simpl; [|lia].
  by rewrite <- app_assoc.
Qed.

(** On a full queue that drops its oldest entry, each [add] shifts the
    window by one. *)
Lemma addAll_full_oldest frames b :
  dropStrategy (config b) = DropOldest ->
  1 <= maxSize (config b) ->
  Z.of_nat (length (queue b)) = maxSize (config b) ->
  queue (addAll frames b) = drop (length frames) (queue b ++ frames).
Proof.
  revert b. induction frames as [|f fs IH]; intros b Hs Hcap Hlen.
  { simpl. by rewrite app_nil_r. }
  change (addAll (f :: fs) b) with (addAll fs (snd (add f b))).
  assert (Hf : isFull b = true) by (unfold isFull; apply Z.leb_le; lia).
  destruct (add_full f b Hf) as [Hq _].
  unfold evict in Hq. rewrite Hs in Hq.
  destruct (queue b) as [|x r] eqn:Hb; [simpl in Hlen; lia|].
  rewrite IH; rewrite ?config_add, ?Hq; try done.
  - simpl. by rewrite <- app_assoc.
  - rewrite length_app. simpl in *. lia.
Qed.

(** On a full queue that drops its newest entry, each [add] overwrites the
    last slot. *)
Lemma addAll_full_newest f frames b :
  dropStrategy (config b) = DropNewest ->
  1 <= maxSize (config b) ->
  Z.of_nat (length (queue b)) = maxSize (config b) ->
  exists newest,
    last (f :: frames) = Some newest
    /\ queue (addAll (f :: frames) b) = pop (queue b) ++ [newest].
Proof.
  revert f b. induction frames as [|g fs IH]; intros f b Hs Hcap Hlen.
  - exists f. split; [done|].
    assert (Hf : isFull b = true) by (unfold isFull; apply Z.leb_le; lia).
    destruct (add_full f b Hf) as [Hq _]. unfold evict in Hq. by rewrite Hs in Hq.
  - change (addAll (f :: g :: fs) b) with (addAll (g :: fs) (snd (add f b))).
    assert (Hf : isFull b = true) by (unfold isFull; apply Z.leb_le; lia).
    destruct (add_full f b Hf) as [Hq _]. unfold evict in Hq. rewrite Hs in Hq.
    destruct (IH g (snd (add f b))) as (newest & Hlast & Hqueue).
    + by rewrite config_add.
    + by rewrite config_add.
    + rewrite config_add, Hq, length_app, length_pop. simpl. lia.
    + exists newest. split; [done|]. by rewrite Hqueue, Hq, pop_snoc.
Qed.

Lemma pop_take (q : list ArrayBuffer) : pop q = take (length q - 1) q.
Proof.
  induction q as [|a [|b q] IH]; try done.
  change (pop (a :: b :: q)) with (a :: pop (b :: q)). rewrite IH.
  simpl. by rewrite Nat.sub_0_r.
Qed.

Lemma fresh_fill c frames :
  1 <= maxSize (config (constructor c)) ->
  queue (addAll (take (Z.to_nat (maxSize (config (constructor c)))) frames) (constructor c))
  = take (Z.to_nat (maxSize (config (constructor c)))) frames.
Proof.
  intros Hcap. rewrite addAll_fill; [done|].
  change (queue (constructor c)) with (@nil ArrayBuffer).
  rewrite length_take. simpl length. lia.
Qed.

Lemma addAll_accounted frames b : accounted b -> accounted (addAll frames b).
Proof.
  revert b. induction frames as [|f fs IH]; intros b Hb; [done|].
  change (addAll (f :: fs) b) with (addAll fs (call (CallAdd f) b)).
  by apply IH, call_accounted.
Qed.

(** The drops of a run of [add] calls on a new buffer: what did not stay. *)
Lemma dropped_addAll c frames :
  1 <= maxSize (config (constructor c)) ->
  framesDropped (stats (addAll frames (constructor c)))
  = Z.of_nat (length frames) - Z.of_nat (length (queue (addAll frames (constructor c)))).
Proof.
  intros Hcap.
  destruct (addAll_accounted frames (constructor c)) as [_ Hacc]; [by split|].
  rewrite received_addAll, processed_addAll in Hacc. simpl in Hacc. lia.
Qed.

(** X3: a new buffer that drops its oldest entry holds, after any run of
    [add] calls, the newest frames in the order they arrived: the last
    [maxSize] of them, or all of them when fewer arrived.  [framesReceived]
    counts the calls and [framesDropped] the frames beyond the capacity. *)
Theorem drop_oldest_keeps_newest (c : PartialConfig) (frames : list ArrayBuffer) :
  1 <= maxSize (config (constructor c)) ->
  dropStrategy (config (constructor c)) = DropOldest ->
  let cap := Z.to_nat (maxSize (config (constructor c))) in
  let n := length frames in
  let b := addAll frames (constructor c) in
  queue b = drop (n - cap) frames
  /\ framesReceived (stats b) = Z.of_nat n
  /\ framesDropped (stats b) = Z.of_nat (n - cap).
Proof.
  intros Hcap Hs cap n b.
  assert (Hq : queue b = drop (n - cap) frames).
  { unfold b. rewrite <- (take_drop cap frames) at 1. rewrite addAll_app.
    destruct (Nat.le_gt_cases n cap) as [Hle|Hgt].
    - rewrite (drop_ge frames cap) by done. simpl.
      replace (n - cap)%nat with 0%nat by lia. unfold cap. rewrite fresh_fill by done.
      by rewrite take_ge.
    - unfold cap.
      rewrite addAll_full_oldest; rewrite ?config_addAll, ?fresh_fill; try done.
      + rewrite take_drop, length_drop. done.
      + rewrite length_take. fold n. unfold cap in Hgt. lia. }
  split; [done|].
  assert (Hr : framesReceived (stats b) = Z.of_nat n).
  { unfold b. rewrite received_addAll. simpl. lia. }
  split; [done|].
  unfold b. rewrite (dropped_addAll c frames Hcap). fold b. rewrite Hq, length_drop. fold n. lia.
Qed.

(** Five frames into a buffer of capacity 2. *)
Lemma drop_oldest_keeps_newest_witness :
  let c := {| p_maxSize := Some 2; p_dropStrategy := None; p_targetFps := None |} in
  let frames := [[Byte.x01]; [Byte.x02]; [Byte.x03]; [Byte.x04]; [Byte.x05]] in
  queue (addAll frames (constructor c)) = [[Byte.x04]; [Byte.x05]]
  /\ framesDropped (stats (addAll frames (constructor c))) = 3.
Proof.
  intros c frames.
  destruct (drop_oldest_keeps_newest c frames) as (Hq & _ & Hd); [simpl; lia | reflexivity |].
  split; [exact Hq | exact Hd].
Defined.

(** X4: a new buffer that drops its newest entry keeps what arrived first.
    While the frames fit it holds them all; once more than [maxSize] frames
    were added it holds the first [maxSize - 1] frames followed by the frame
    added last: every frame in between overwrote the last slot.  The number
    of drops is the number of frames beyond the capacity. *)
Theorem drop_newest_keeps_oldest (c : PartialConfig) (frames : list ArrayBuffer) :
  1 <= maxSize (config (constructor c)) ->
  dropStrategy (config (constructor c)) = DropNewest ->
  let cap := Z.to_nat (maxSize (config (constructor c))) in
  let n := length frames in
  let b := addAll frames (constructor c) in
  (n <= cap -> queue b = frames)%nat
  /\ (cap < n ->
      exists newest, last frames = Some newest
                     /\ queue b = take (cap - 1) frames ++ [newest])%nat
  /\ framesDropped (stats b) = Z.of_nat (n - cap).
Proof.
  intros Hcap Hs cap n b.
  assert (Hfit : (n <= cap -> queue b = frames)%nat).
  { intros Hle. unfold b. rewrite addAll_fill; [done|].
    change (queue (constructor c)) with (@nil ArrayBuffer). simpl length.
    unfold cap, n in Hle. lia. }
  assert (Hover : (cap < n ->
      exists newest, last frames = Some newest
                     /\ queue b = take (cap - 1) frames ++ [newest])%nat).
  { intros Hgt. pose proof (take_drop cap frames) as Hsplit.
    destruct (drop cap frames) as [|f rest] eqn:Hrest.
    { apply (f_equal length) in Hrest. rewrite length_drop in Hrest. simpl in Hrest.
      fold n in Hrest. lia. }
    destruct (addAll_full_newest f rest (addAll (take cap frames) (constructor c)))
      as (newest & Hlast & Hq).
    - by rewrite config_addAll.
    - by rewrite config_addAll.
    - rewrite config_addAll. unfold cap. rewrite fresh_fill by done.
      rewrite length_take. fold n. unfold cap in Hgt. lia.
    - exists newest. split.
      + by rewrite <- Hsplit, last_app, Hlast.
      + transitivity (queue (addAll (take cap frames ++ f :: rest) (constructor c)));
          [unfold b; by rewrite Hsplit|].
        rewrite addAll_app, Hq. unfold cap. rewrite fresh_fill by done. rewrite pop_take.
        rewrite length_take, take_take. fold cap. fold n.
        by replace ((cap `min` n - 1) `min` cap)%nat with (cap - 1)%nat by lia. }
  split; [done|]. split; [done|].
  unfold b. rewrite (dropped_addAll c frames Hcap). fold b.
  destruct (Nat.le_gt_cases n cap) as [Hle|Hgt].
  - rewrite Hfit by done. fold n. lia.
  - destruct (Hover Hgt) as (newest & _ & ->).
    rewrite length_app, length_take. simpl. fold n. unfold cap in *. lia.
Qed.

(** Five frames into a buffer of capacity 2 that drops the newest. *)
Lemma drop_newest_keeps_oldest_witness :
  let c := {| p_maxSize := Some 2; p_dropStrategy := Some DropNewest; p_targetFps := None |} in
  let frames := [[Byte.x01]; [Byte.x02]; [Byte.x03]; [Byte.x04]; [Byte.x05]] in
  queue (addAll frames (constructor c)) = [[Byte.x01]; [Byte.x05]]
  /\ framesDropped (stats (addAll frames (constructor c))) = 3.
Proof.
  intros c frames.
  destruct (drop_newest_keeps_oldest c frames) as (_ & Hq & Hd); [simpl; lia | reflexivity |].
  split; [|exact Hd].
  destruct Hq as (newest & Hlast & Hq); [simpl; lia|].
  injection Hlast as <-. exact Hq.
Defined.

(** X5: frames added to a new buffer without exceeding its capacity come
    back in the order they were added: [get] answers the first of them,
    [getAll] answers all of them, empties the queue and counts them as
    processed; nothing is counted as dropped, and a [get] on the emptied
    buffer answers null and changes nothing. *)
Theorem getAll_returns_added (c : PartialConfig) (frames : list ArrayBuffer) :
  Z.of_nat (length frames) <= maxSize (config (constructor c)) ->
  let b := addAll frames (constructor c) in
  let '(out, b') := getAll b in
  fst (get b) = head frames
  /\ out = frames
  /\ queue b' = []
  /\ framesProcessed (stats b') = Z.of_nat (length frames)
  /\ framesDropped (stats b') = 0
  /\ get b' = (None, b').
Proof.
  intros Hfit b.
  assert (Hq : queue b = frames).
  { unfold b. rewrite addAll_fill; [done|].
    change (queue (constructor c)) with (@nil ArrayBuffer). simpl length. lia. }
  assert (Hd : framesDropped (stats b) = 0).
  { destruct frames as [|f fs]; [done|].
    unfold b. rewrite dropped_addAll; [|simpl length in Hfit; lia].
    fold b. rewrite Hq. lia. }
  unfold getAll. rewrite Hq.
  split; [unfold get; rewrite Hq; by destruct frames|].
  split; [done|]. split; [done|]. split.
  { simpl. unfold b. rewrite processed_addAll. simpl. lia. }
  split; [done|]. done.
Qed.

(** Three frames into a buffer of capacity 5. *)
Lemma getAll_returns_added_witness :
  let c := {| p_maxSize := Some 5; p_dropStrategy := Some DropOldest; p_targetFps := None |} in
  let frames := [[Byte.x01]; [Byte.x02]; [Byte.x03]] in
  fst (getAll (addAll frames (constructor c))) = frames
  /\ fst (get (addAll frames (constructor c))) = Some [Byte.x01].
Proof.
  intros c frames.
  assert (Hfit : Z.of_nat (length frames) <= maxSize (config (constructor c)))
    by (simpl; lia).
  pose proof (getAll_returns_added c frames Hfit) as H. cbv zeta in H.
  destruct (getAll (addAll frames (constructor c))) as [out b'].
  destruct H as (Hget & Hout & _). split; [exact Hout | exact Hget].
Defined.

End FrameBufferFacts.

Module PerformanceOptimizerFacts.
Import PerformanceOptimizer.

Lemma calculateOptimalFps_spec cores width height :
  calculateOptimalFps cores width height
  = if (4 <=? cores) && (width * height <=? 2560 * 1440) then 60 else 30.
Proof.
  unfold calculateOptimalFps. cbn zeta.
  destruct (Z.ltb_spec cores 4), (Z.ltb_spec (2560 * 1440) (width * height)),
    (Z.leb_spec 4 cores), (Z.leb_spec (width * height) (2560 * 1440)),
    (Z.ltb_spec cores 8), (Z.leb_spec (width * height) (1920 * 1080)); cbn; lia.
Qed.

(** X6: [calculateOptimalFps] is 60 exactly when there are at least four
    cores and at most 2560 x 1440 pixels, and 30 otherwise, so it never
    decreases with more cores or fewer pixels.  [calculateOptimalBitrate]
    depends on the pixel count alone (not on the frame rate), is 5, 10 or
    12 Mbit/s, and never decreases with the pixel count.
    [calculateOptimalScale] is always 1. *)
Theorem optimizer_heuristics (cores cores' width height width' height' fps fps' : Z) :
  let rate := calculateOptimalFps cores width height in
  let bitrate := calculateOptimalBitrate width height fps in
  (rate = if (4 <=? cores) && (width * height <=? 2560 * 1440) then 60 else 30)
  /\ (cores <= cores' -> width' * height' <= width * height ->
      rate <= calculateOptimalFps cores' width' height')
  /\ (bitrate = if width * height <=? 1280 * 720 then 5000000
                else if width * height <=? 1920 * 1080 then 10000000
                else 12000000)
  /\ (width * height <= width' * height' ->
      bitrate <= calculateOptimalBitrate width' height' fps')
  /\ calculateOptimalScale width height fps = 1%Q.
Proof.
  cbn zeta. split; [apply calculateOptimalFps_spec|]. split; [|split; [|split; [|done]]].
  - intros Hc Hp. rewrite !calculateOptimalFps_spec.
    destruct (Z.leb_spec 4 cores), (Z.leb_spec (width * height) (2560 * 1440)),
      (Z.leb_spec 4 cores'), (Z.leb_spec (width' * height') (2560 * 1440)); cbn; lia.
  - unfold calculateOptimalBitrate. cbn zeta.
    destruct (width * height <=? 1280 * 720), (width * height <=? 1920 * 1080),
      (width * height <=? 2560 * 1440); reflexivity.
  - intros Hp. unfold calculateOptimalBitrate. cbn zeta.
    destruct (Z.leb_spec (width * height) (1280 * 720)),
      (Z.leb_spec (width * height) (1920 * 1080)),
      (Z.leb_spec (width * height) (2560 * 1440)),
      (Z.leb_spec (width' * height') (1280 * 720)),
      (Z.leb_spec (width' * height') (1920 * 1080)),
      (Z.leb_spec (width' * height') (2560 * 1440)); cbn; lia.
Qed.

End PerformanceOptimizerFacts.

Module CropFacts.
Import Recorder.

(** Whatever the floored products are, the clamps keep the rectangle on a
    surface that has at least one pixel in each direction. *)
Lemma clamp_origin (size raw : Z) :
  0 < size -> 0 <= Z.max 0 (Z.min (size - 1) raw) <= size - 1.
Proof. lia. Qed.

Lemma clamp_extent (size origin raw : Z) :
  0 <= origin <= size - 1 ->
  1 <= Z.max 1 (Z.min (size - origin) raw) <= size - origin.
Proof. lia. Qed.

(** C2: for a region with its four components in [0,1] and a capture
    surface of positive width and height, the crop rectangle of the recording
    compositor starts at non-negative coordinates and ends inside the
    surface: [cropX + cropWidth <= W] and [cropY + cropHeight <= H]. *)
Theorem cropRect_within_surface (region : Region) (W H : Z) :
  (0 <= x region <= 1)%Q -> (0 <= y region <= 1)%Q ->
  (0 <= width region <= 1)%Q -> (0 <= height region <= 1)%Q ->
  0 < W -> 0 < H ->
  let c := cropRect (Some region) W H in
  0 <= cropX c /\ 0 <= cropY c
  /\ cropX c + cropWidth c <= W
  /\ cropY c + cropHeight c <= H.
Proof.
  intros _ _ _ _ HW HH c. unfold c, cropRect. cbn [cropX cropY cropWidth cropHeight].
  pose proof (clamp_origin W (Qfloor (x region * inject_Z W)) HW) as Hx.
  pose proof (clamp_origin H (Qfloor (y region * inject_Z H)) HH) as Hy.
  pose proof (clamp_extent W _ (Qfloor (width region * inject_Z W)) Hx) as Hw.
  pose proof (clamp_extent H _ (Qfloor (height region * inject_Z H)) Hy) as Hh.
  lia.
Qed.

(** The centred half-size region on a 1920 x 1080 surface. *)
Lemma cropRect_within_surface_witness :
  let region := {| x := 1 # 4; y := 1 # 4; width := 1 # 2; height := 1 # 2 |} in
  cropRect (Some region) 1920 1080
    = {| cropX := 480; cropY := 270; cropWidth := 960; cropHeight := 540 |}
  /\ cropX (cropRect (Some region) 1920 1080)
       + cropWidth (cropRect (Some region) 1920 1080) <= 1920
  /\ cropY (cropRect (Some region) 1920 1080)
       + cropHeight (cropRect (Some region) 1920 1080) <= 1080.
Proof.
  intros region.
  assert (Hq : forall a : Q, Qle_bool 0 a = true -> Qle_bool a 1 = true -> (0 <= a <= 1)%Q).
  { intros a H0 H1. split; by apply Qle_bool_iff. }
  destruct (cropRect_within_surface region 1920 1080) as (_ & _ & Hx & Hy);
    try (apply Hq; reflexivity); try lia.
  split; [reflexivity|]. split; [exact Hx | exact Hy].
Defined.

(** The preview canvas computes the same rectangle. *)
Lemma previewCropRect_agrees (region : Region) (W H : Z) :
  previewCropRect region W H = cropRect (Some region) W H.
Proof. reflexivity. Qed.

End CropFacts.

Module VideoRecorderFacts.
Import Recorder VideoRecorder CropFacts.

Lemma inject_Z_pos (b : Z) : 0 < b -> (0 < inject_Z b)%Q.
Proof. intros Hb. change (inject_Z 0 < inject_Z b)%Q. by rewrite <- Zlt_Qlt. Qed.

Lemma inject_Z_nonneg (a : Z) : 0 <= a -> (0 <= inject_Z a)%Q.
Proof. intros Ha. change (inject_Z 0 <= inject_Z a)%Q. by rewrite <- Zle_Qle. Qed.

Lemma fraction_range (a b : Z) :
  0 <= a <= b -> 0 < b -> (0 <= inject_Z a / inject_Z b <= 1)%Q.
Proof.
  intros Ha Hb. pose proof (inject_Z_pos b Hb) as Hpos. split.
  - apply Qle_shift_div_l; [done|]. rewrite Qmult_0_l. apply inject_Z_nonneg. lia.
  - apply Qle_shift_div_r; [done|]. rewrite Qmult_1_l. rewrite <- Zle_Qle. lia.
Qed.

Lemma fraction_sum (a c b : Z) :
  0 < b ->
  (inject_Z a / inject_Z b + inject_Z c / inject_Z b == inject_Z (a + c) / inject_Z b)%Q.
Proof.
  intros Hb. rewrite inject_Z_plus. field.
  intros H. pose proof (inject_Z_pos b Hb) as Hpos. lra.
Qed.

(** X7: whatever rectangle the area selector sends, on a primary display
    with a positive work area and a positive screen size the handler
    produces a pixel rectangle that lies on the screen (it starts inside,
    is at least one pixel wide and high, and ends inside) and a normalised
    region whose four components lie in [0,1] with [x + width <= 1] and
    [y + height <= 1]; the region is the pixel rectangle divided by the
    screen size. *)
Theorem selectionRegion_within_screen (primary : Screen) (sel : Selection) :
  0 < sizeWidth (workArea primary) -> 0 < sizeHeight (workArea primary) ->
  0 < sizeWidth (screenSize primary) -> 0 < sizeHeight (screenSize primary) ->
  let W := sizeWidth (screenSize primary) in
  let H := sizeHeight (screenSize primary) in
  let '(final, region) := selectionRegion primary sel in
  (0 <= cropX final <= W - 1 /\ 1 <= cropWidth final /\ cropX final + cropWidth final <= W)
  /\ (0 <= cropY final <= H - 1 /\ 1 <= cropHeight final
      /\ cropY final + cropHeight final <= H)
  /\ (0 <= x region <= 1 /\ 0 <= width region <= 1 /\ x region + width region <= 1)%Q
  /\ (0 <= y region <= 1 /\ 0 <= height region <= 1 /\ y region + height region <= 1)%Q
  /\ (x region == inject_Z (cropX final) / inject_Z W)%Q
  /\ (width region == inject_Z (cropWidth final) / inject_Z W)%Q.
Proof.
  intros _ _ HW HH W H. unfold selectionRegion.
  cbn [cropX cropY cropWidth cropHeight x y width height]. fold W H.
  set (fx := Z.max 0 (Z.min (W - 1) _)). set (fy := Z.max 0 (Z.min (H - 1) _)).
  set (fw := Z.max 1 (Z.min (W - fx) _)). set (fh := Z.max 1 (Z.min (H - fy) _)).
  pose proof (clamp_origin W _ HW : 0 <= fx <= W - 1) as Hx.
  pose proof (clamp_origin H _ HH : 0 <= fy <= H - 1) as Hy.
  pose proof (clamp_extent W fx _ Hx : 1 <= fw <= W - fx) as Hw.
  pose proof (clamp_extent H fy _ Hy : 1 <= fh <= H - fy) as Hh.
  split; [lia|]. split; [lia|]. split; [|split; [|by split]].
  - split; [apply fraction_range; lia|]. split; [apply fraction_range; lia|].
    rewrite fraction_sum by done. apply fraction_range; lia.
  - split; [apply fraction_range; lia|]. split; [apply fraction_range; lia|].
    rewrite fraction_sum by done. apply fraction_range; lia.
Qed.

(** A selection on a 1440 x 900 display whose work area leaves out a menu
    bar of 25 pixels. *)
Lemma selectionRegion_within_screen_witness :
  let primary := {| bounds := Some {| sizeWidth := 1440; sizeHeight := 900 |};
                    workArea := {| sizeWidth := 1440; sizeHeight := 875 |} |} in
  let sel := {| selX := 100; selY := 175; selWidth := 2000; selHeight := 350 |} in
  fst (selectionRegion primary sel)
  = {| cropX := 100; cropY := 180; cropWidth := 1340; cropHeight := 360 |}
  /\ (x (snd (selectionRegion primary sel)) + width (snd (selectionRegion primary sel)) <= 1)%Q.
Proof.
  intros primary sel. split; [reflexivity|].
  pose proof (selectionRegion_within_screen primary sel) as H.
  cbv zeta in H. destruct (selectionRegion primary sel) as [final region].
  destruct H as (_ & _ & (_ & _ & Hsum) & _); [reflexivity..|]. exact Hsum.
Defined.

End VideoRecorderFacts.

Module RecorderFacts.
Import Ipc Recorder.

(** ** Computing with the hook's monad *)

Ltac monad_unfold :=
  unfold bind, gets, when, modify, emit, ret, await, throw,
    setRecordingDuration, setIsRecording, setIsPaused, setIsProcessingRef,
    setIsExporting, setExportProgress, setTargetFrameRate,
    with_state, with_refs, set_rendered, hookOf, effectsOf, outcomeOf in *.

Lemma bind_gets {A B : Type} (f : Hook -> A) (k : A -> M B) (h : Hook) :
  bind (gets f) k h = k (f h) h.
Proof. unfold bind, gets. by destruct (k (f h) h) as [[r h2] e2]. Qed.

Lemma bind_ok {A B : Type} (m : M A) (k : A -> M B) (h h1 : Hook) a e1 :
  m h = (Ok a, h1, e1) ->
  bind m k h = (outcomeOf (k a h1), hookOf (k a h1), e1 ++ effectsOf (k a h1)).
Proof. intros Hm. unfold bind. rewrite Hm. by destruct (k a h1) as [[r h2] e2]. Qed.

Lemma bind_throw {A B : Type} (m : M A) (k : A -> M B) (h h1 : Hook) err e1 :
  m h = (Throw err, h1, e1) -> bind m k h = (Throw err, h1, e1).
Proof. intros Hm. unfold bind. by rewrite Hm. Qed.

(** ** The guard of startRecording *)

Lemma finally_clears_flag {A : Type} (body : M A) (h : Hook) :
  isProcessingRef (refs (hookOf (finally body (setIsProcessingRef false) h))) = false.
Proof. unfold finally. destruct (body h) as [[r h1] e1]. reflexivity. Qed.

Lemma startRecording_sync_rejects w sourceId region h :
  isProcessingRef (refs h) = true ->
  startRecording_sync w sourceId region h = (Ok false, h, []).
Proof.
  intros Hflag. unfold startRecording_sync. rewrite bind_gets. by rewrite Hflag.
Qed.

Lemma startRecording_sync_enters w sourceId region h :
  isProcessingRef (refs h) = false ->
  exists h1 es,
    startRecording_sync w sourceId region h = (Ok true, h1, es)
    /\ isProcessingRef (refs h1) = true
    /\ plain es
    /\ modeInputs h1 = (includeCamera (settings h), cameraStreamRef (refs h), region).
Proof.
  intros Hflag. unfold startRecording_sync. rewrite bind_gets, Hflag. monad_unfold.
  destruct (isElectron w); cbn; eexists _, _; (split; [reflexivity|]); by cbn.
Qed.

(** C1 (as amended): a call to [startRecording] that finds the "already
    processing" flag set returns at once: no effect is issued (no feed, no
    recorder, no temporary file) and the hook is left as it was.  A call
    that finds the flag clear sets it before its first [await] and clears
    it again when it ends, whether the recording started or failed; so the
    flag is set only while a call is in flight. *)
Theorem startRecording_guard (w : World) (env : StartEnv) (sourceId : string)
    (region : option Region) (h : Hook) :
  (isProcessingRef (refs h) = true ->
     startRecording w env sourceId region h = (Ok tt, h, []))
  /\ (isProcessingRef (refs h) = false ->
     outcomeOf (startRecording_sync w sourceId region h) = Ok true
     /\ isProcessingRef (refs (hookOf (startRecording_sync w sourceId region h))) = true
     /\ isProcessingRef (refs (hookOf (startRecording w env sourceId region h))) = false).
Proof.
  split; intros Hflag.
  - unfold startRecording.
    by rewrite (bind_ok _ _ h h false [] (startRecording_sync_rejects _ _ _ _ Hflag)).
  - destruct (startRecording_sync_enters w sourceId region h Hflag)
      as (h1 & es & Hsync & Hset & _ & _).
    rewrite Hsync. split; [done|]. split; [done|].
    unfold startRecording. rewrite (bind_ok _ _ h h1 true es Hsync).
    unfold startRecording_async. cbn [hookOf fst snd]. apply finally_clears_flag.
Qed.

(** A second call made while the first is still setting up. *)
Lemma startRecording_guard_witness :
  let h0 := mount demoSettings 30 in
  let h1 := hookOf (startRecording_sync demoWorld "screen:0:0" None h0) in
  isProcessingRef (refs h1) = true
  /\ startRecording demoWorld demoEnv "screen:0:0" None h1 = (Ok tt, h1, []).
Proof.
  intros h0 h1.
  assert (Hset : isProcessingRef (refs h1) = true) by reflexivity.
  split; [exact Hset|].
  exact (proj1 (startRecording_guard demoWorld demoEnv "screen:0:0" None h1) Hset).
Defined.

(** Three seconds into a recording the flag is clear again, and a second
    call goes through: it asks for feeds, for a temporary file and for a new
    recorder, and resets the duration of the running session. *)
Lemma startRecording_proceeds_while_recording :
  let h := recordingFor demoWorld demoSettings 3 in
  let again := startRecording demoWorld demoEnv "screen:0:0" None h in
  sessionState h = Recording
  /\ isRecording (state h) = true
  /\ recordingDuration (state h) = 3
  /\ effectsOf again =
       [GetDesktopStream "screen:0:0"; GetMicrophone; StartRecordingStream;
        NewMediaRecorder [ScreenVideo; MicAudio]; RecorderStart 250]
  /\ recordingDuration (state (hookOf again)) = 0
  /\ again <> (Ok tt, h, []).
Proof.
  intros h again.
  assert (Hes : effectsOf again =
       [GetDesktopStream "screen:0:0"; GetMicrophone; StartRecordingStream;
        NewMediaRecorder [ScreenVideo; MicAudio]; RecorderStart 250])
    by (vm_compute; reflexivity).
  split; [vm_compute; reflexivity|]. split; [vm_compute; reflexivity|].
  split; [vm_compute; reflexivity|]. split; [exact Hes|].
  split; [vm_compute; reflexivity|].
  intros Heq. rewrite Heq in Hes. discriminate Hes.
Qed.

(** ** Direct mode and composite mode *)

Lemma usesCanvas_app a b : usesCanvas (a ++ b) = usesCanvas a || usesCanvas b.
Proof. apply existsb_app. Qed.

Lemma encoderStreams_app a b :
  encoderStreams (a ++ b) = encoderStreams a ++ encoderStreams b.
Proof. unfold encoderStreams. apply omap_app. Qed.

Lemma plain_app a b : plain a -> plain b -> plain (a ++ b).
Proof.
  intros [Ha1 Ha2] [Hb1 Hb2]. split.
  - by rewrite usesCanvas_app, Ha1, Hb1.
  - by rewrite encoderStreams_app, Ha2, Hb2.
Qed.

Lemma video_of_audio s : getVideoTracks (getAudioTracks s) = [].
Proof.
  unfold getVideoTracks, getAudioTracks.
  induction s as [|t s IH]; [done|]. destruct t; cbn; by rewrite ?IH.
Qed.

Lemma video_of_video s : getVideoTracks (getVideoTracks s) = getVideoTracks s.
Proof.
  unfold getVideoTracks.
  induction s as [|t s IH]; [done|]. destruct t; cbn; by rewrite ?IH.
Qed.

Lemma getVideoTracks_app a b :
  getVideoTracks (a ++ b) = getVideoTracks a ++ getVideoTracks b.
Proof. unfold getVideoTracks. apply List.filter_app. Qed.

(** The audio tracks added to the final stream bring no video. *)
Lemma combined_video (finalStream displayStream : MediaStream)
    (picStream : option MediaStream) (im ic : bool) :
  getVideoTracks
    (getVideoTracks finalStream
     ++ match picStream with
        | Some mic => if im then getAudioTracks mic else []
        | None => []
        end
     ++ (if ic then [] else getAudioTracks displayStream))
  = getVideoTracks finalStream.
Proof.
  rewrite !getVideoTracks_app, video_of_video.
  destruct picStream as [mic|], im, ic; cbn; rewrite ?video_of_audio; cbn;
    by rewrite ?app_nil_r.
Qed.

Lemma acquireFeeds_spec env h displayStream :
  displayResult env = Resolved displayStream ->
  exists picStream h1 es,
    acquireFeeds env h = (Ok (displayStream, picStream), h1, es)
    /\ plain es
    /\ modeInputs h1 =
         (includeCamera (settings h),
          (if includeCamera (settings h)
           then match resolved (cameraResult env) with
                | Some c => Some c
                | None => cameraStreamRef (refs h)
                end
           else cameraStreamRef (refs h)),
          recordingRegionRef (refs h)).
Proof.
  intros Hd. unfold acquireFeeds. monad_unfold. rewrite Hd.
  destruct h as [[ic im isa fmt] st rf rd]. cbn.
  destruct im, ic, (cameraResult env); cbn;
    eexists _, _, _; (split; [reflexivity|]); by cbn.
Qed.

Lemma compositeStream_spec env targetFrameRate h :
  exists fps cw ch h1,
    compositeStream env targetFrameRate h
    = (Ok [CanvasVideo fps], h1, [CreateCanvas; CaptureCanvasStream cw ch fps]).
Proof.
  unfold compositeStream. monad_unfold. cbn.
  destruct (negb _); cbn; eexists _, _, _, _; reflexivity.
Qed.

(** Step 4 goes through the canvas exactly when [useCompositeMode] says
    so; otherwise the video of the final stream is the screen feed's.  The
    stream it returns is the one it leaves in [streamRef]. *)
Lemma composeStreams_spec env targetFrameRate displayStream picStream h :
  exists s h1 es,
    composeStreams env targetFrameRate displayStream picStream h = (Ok s, h1, es)
    /\ usesCanvas es = useCompositeMode h
    /\ encoderStreams es = []
    /\ streamRef (refs h1) = Some s
    /\ if useCompositeMode h
       then exists fps, getVideoTracks s = [CanvasVideo fps]
       else getVideoTracks s = getVideoTracks displayStream.
Proof.
  unfold composeStreams. rewrite bind_gets.
  destruct (useCompositeMode h) eqn:Hmode.
  - destruct (compositeStream_spec env targetFrameRate h) as (fps & cw & ch & h1 & Hc).
    rewrite (bind_ok _ _ _ _ _ _ Hc). monad_unfold. cbn.
    eexists _, _, _. split; [reflexivity|]. cbn.
    split; [done|]. split; [done|]. split; [done|]. exists fps.
    apply (combined_video [CanvasVideo fps]).
  - monad_unfold. cbn.
    eexists _, _, _. split; [reflexivity|]. cbn.
    split; [done|]. split; [done|]. split; [done|]. apply combined_video.
Qed.

(** Steps 5 and 6: an encoder is constructed, on the stream of step 4,
    exactly when the temporary file is there; it is stored and started when
    the platform accepts it. *)
Lemma encoder_spec w env fps s h :
  let r := (initStreamToDisk w env;; startMediaRecorder env fps s) h in
  usesCanvas (effectsOf r) = false
  /\ encoderStreams (effectsOf r) = (if fileGranted w env then [s] else [])
  /\ streamRef (refs (hookOf r)) = streamRef (refs h)
  /\ match outcomeOf r with
     | Ok _ =>
         exists rec, mediaRecorderRef (refs (hookOf r)) = Some rec
                     /\ recStream rec = s /\ recState rec = recording
     | Throw _ => True
     end
  /\ (fileGranted w env = true -> is_Some (resolved (recorderResult env)) ->
      outcomeOf r = Ok tt).
Proof.
  unfold fileGranted, initStreamToDisk, startMediaRecorder. monad_unfold.
  destruct (isElectron w), (fileStreamResult env) as [[[] ? ? ?]|],
    (recorderResult env) as [[]|]; cbn; repeat split; try done;
    try (by eexists); try (by intros _ [? ?]).
Qed.

(** The [catch] block creates no canvas and no encoder, and leaves the
    stream of step 4 and the encoder where they are. *)
Lemma startRecording_catch_plain err h :
  plain (effectsOf (startRecording_catch err h))
  /\ streamRef (refs (hookOf (startRecording_catch err h))) = streamRef (refs h)
  /\ mediaRecorderRef (refs (hookOf (startRecording_catch err h))) = mediaRecorderRef (refs h).
Proof.
  unfold startRecording_catch, cleanupStreams, stopStream, stopCanvas, clearFrameBuffer.
  monad_unfold. destruct h as [s st [ipr rrr dsr csr sr rcr ovs mrr tir fbr] rd]. cbn.
  destruct csr, dsr, rcr; by cbn.
Qed.

(** The whole of [startRecording], once the screen feed is there. *)
Lemma startRecording_try_spec w env h displayStream :
  displayResult env = Resolved displayStream ->
  exists s,
    let r := startRecording_try w env h in
    let composite :=
      bool_decide (is_Some (recordingRegionRef (refs h)))
      || (includeCamera (settings h) && cameraHeld env h) in
    usesCanvas (effectsOf r) = composite
    /\ encoderStreams (effectsOf r) = (if fileGranted w env then [s] else [])
    /\ streamRef (refs (hookOf r)) = Some s
    /\ (if composite
        then exists fps, getVideoTracks s = [CanvasVideo fps]
        else getVideoTracks s = getVideoTracks displayStream)
    /\ match outcomeOf r with
       | Ok _ =>
           exists rec, mediaRecorderRef (refs (hookOf r)) = Some rec
                       /\ recStream rec = s /\ recState rec = recording
       | Throw _ => True
       end
    /\ (fileGranted w env = true -> is_Some (resolved (recorderResult env)) ->
        outcomeOf r = Ok tt).
Proof.
  intros Hd.
  destruct (acquireFeeds_spec env h displayStream Hd)
    as (picStream & h1 & es1 & Hacq & [Hc1 He1] & Hin).
  destruct (composeStreams_spec env (targetFrameRate (state h)) displayStream picStream h1)
    as (s & h2 & es2 & Hcomp & Hc2 & He2 & Hsr & Hvideo).
  pose proof (encoder_spec w env (targetFrameRate (state h)) s h2)
    as (Hc3 & He3 & Hsr3 & Hrec & Hok).
  exists s. cbn zeta in *. unfold startRecording_try. rewrite bind_gets.
  rewrite (bind_ok _ _ _ _ _ _ Hacq). cbn [fst snd].
  rewrite (bind_ok _ _ _ _ _ _ Hcomp). cbn [effectsOf hookOf outcomeOf snd fst].
  assert (Hmode : useCompositeMode h1 =
            bool_decide (is_Some (recordingRegionRef (refs h)))
            || (includeCamera (settings h) && cameraHeld env h)).
  { unfold useCompositeMode, modeInputs, cameraHeld in *.
    injection Hin as -> -> ->.
    destruct (includeCamera (settings h)), (cameraResult env),
      (cameraStreamRef (refs h)), (recordingRegionRef (refs h)); by cbn. }
  rewrite <- Hmode. split; [|split; [|split; [|split; [|split]]]].
  - rewrite !usesCanvas_app, Hc1, Hc2. unfold effectsOf in Hc3.
    etransitivity; [apply f_equal, f_equal, Hc3|]. by destruct (useCompositeMode h1).
  - rewrite !encoderStreams_app, He1, He2. exact He3.
  - etransitivity; [exact Hsr3 | exact Hsr].
  - exact Hvideo.
  - exact Hrec.
  - exact Hok.
Qed.

(** A start that has nothing to fail on was given its temporary file and
    its encoder. *)
Lemma startFailure_none w env displayStream :
  displayResult env = Resolved displayStream ->
  startFailure w env = None ->
  fileGranted w env = true /\ is_Some (resolved (recorderResult env)).
Proof.
  unfold startFailure, fileGranted. intros ->.
  destruct (isElectron w), (fileStreamResult env) as [[[] ? ? ?]|],
    (recorderResult env) as [[]|]; cbn; try done; by intros _; split; [|eexists].
Qed.

(** C5: [startRecording] goes through the off-screen canvas exactly when a
    region was given or the webcam overlay is active (the camera is wanted
    and a camera feed is held); then the encoder gets the canvas stream.  In
    every other case no canvas is created and the video handed to the
    encoder is the video of the screen feed itself.  The stream in question
    is the one step 4 leaves in [streamRef]: once the temporary file is
    there, exactly one encoder is constructed, on that stream, and a start
    that succeeds leaves that encoder recording it. *)
Theorem startRecording_mode (w : World) (env : StartEnv) (sourceId : string)
    (region : option Region) (h : Hook) (displayStream : MediaStream) :
  isProcessingRef (refs h) = false ->
  displayResult env = Resolved displayStream ->
  let r := startRecording w env sourceId region h in
  let es := effectsOf r in
  let overlayActive := includeCamera (settings h) && cameraHeld env h in
  let composite := bool_decide (is_Some region) || overlayActive in
  usesCanvas es = composite
  /\ (forall s, s ∈ encoderStreams es ->
        if composite
        then exists fps, getVideoTracks s = [CanvasVideo fps]
        else getVideoTracks s = getVideoTracks displayStream)
  /\ exists s,
       streamRef (refs (hookOf r)) = Some s
       /\ (if composite
           then exists fps, getVideoTracks s = [CanvasVideo fps]
           else getVideoTracks s = getVideoTracks displayStream)
       /\ encoderStreams es = (if fileGranted w env then [s] else [])
       /\ (startFailure w env = None ->
           exists rec, mediaRecorderRef (refs (hookOf r)) = Some rec
                       /\ recStream rec = s /\ recState rec = recording).
Proof.
  intros Hflag Hd.
  destruct (startRecording_sync_enters w sourceId region h Hflag)
    as (h1 & es0 & Hsync & _ & [Hc0 He0] & Hin).
  destruct (startRecording_try_spec w env h1 displayStream Hd)
    as (s & Hcanvas & Henc & Hsr & Hvideo & Hrec & Hok).
  assert (Hsame :
    bool_decide (is_Some (recordingRegionRef (refs h1)))
    || (includeCamera (settings h1) && cameraHeld env h1)
    = bool_decide (is_Some region) || (includeCamera (settings h) && cameraHeld env h)).
  { unfold modeInputs, cameraHeld in *. by injection Hin as -> -> ->. }
  rewrite Hsame in Hcanvas, Hvideo. clear Hsame Hin.
  cbn zeta.
  assert (Hmain :
    let r := startRecording w env sourceId region h in
    usesCanvas (effectsOf r)
    = bool_decide (is_Some region) || (includeCamera (settings h) && cameraHeld env h)
    /\ encoderStreams (effectsOf r) = (if fileGranted w env then [s] else [])
    /\ streamRef (refs (hookOf r)) = Some s
    /\ (startFailure w env = None ->
        exists rec, mediaRecorderRef (refs (hookOf r)) = Some rec
                    /\ recStream rec = s /\ recState rec = recording)).
  { cbn zeta. unfold startRecording. rewrite (bind_ok _ _ _ _ _ _ Hsync).
    cbn [effectsOf hookOf snd fst]. unfold startRecording_async, finally, tryCatch.
    destruct (startRecording_try w env h1) as [[[u|err] h2] es2] eqn:Htry;
      cbn [effectsOf hookOf outcomeOf fst snd] in Hcanvas, Henc, Hsr, Hrec, Hok.
    - cbn -[usesCanvas encoderStreams].
      rewrite app_nil_r, usesCanvas_app, encoderStreams_app, Hc0, He0, Hcanvas, Henc.
      split; [done|]. split; [done|]. split; [done|]. intros _. exact Hrec.
    - destruct (startRecording_catch_plain err h2) as ([Hc4 He4] & Hsr4 & _).
      destruct (startRecording_catch err h2) as [[r4 h4] es4].
      cbn -[usesCanvas encoderStreams] in Hc4, He4, Hsr4 |- *.
      rewrite app_nil_r, !usesCanvas_app, !encoderStreams_app, Hc0, He0, Hcanvas, Henc, Hc4, He4.
      rewrite app_nil_r, orb_false_r.
      split; [done|]. split; [done|]. split; [congruence|].
      intros Hnone. destruct (startFailure_none w env displayStream Hd Hnone) as [Hg Hr].
      by specialize (Hok Hg Hr). }
  cbn zeta in Hmain. destruct Hmain as (Hm1 & Hm2 & Hm3 & Hm4).
  split; [exact Hm1|]. split.
  - intros s' Hs'. rewrite Hm2 in Hs'. destruct (fileGranted w env).
    + apply list_elem_of_singleton in Hs'. by subst.
    + by apply elem_of_nil in Hs'.
  - exists s. by repeat split.
Qed.

(** A full-screen recording without camera, whose encoder is given the
    screen feed with the microphone, and a half-screen region. *)
Lemma startRecording_mode_witness :
  let h := mount demoSettings 30 in
  let region := {| x := 1 # 4; y := 1 # 4; width := 1 # 2; height := 1 # 2 |} in
  usesCanvas (effectsOf (startRecording demoWorld demoEnv "screen:0:0" None h)) = false
  /\ encoderStreams (effectsOf (startRecording demoWorld demoEnv "screen:0:0" None h))
     = [[ScreenVideo; MicAudio]]
  /\ usesCanvas
       (effectsOf (startRecording demoWorld demoEnv "screen:0:0" (Some region) h)) = true.
Proof.
  intros h region.
  pose proof (startRecording_mode demoWorld demoEnv "screen:0:0" None h
                [ScreenVideo] eq_refl eq_refl) as (Hdirect & _ & s & Hs & _ & Henc & _).
  pose proof (startRecording_mode demoWorld demoEnv "screen:0:0" (Some region) h
                [ScreenVideo] eq_refl eq_refl) as [Hcomposite _].
  split; [exact Hdirect|]. split; [|exact Hcomposite].
  assert (Href : streamRef (refs (hookOf (startRecording demoWorld demoEnv "screen:0:0"
                                             None h)))
                 = Some [ScreenVideo; MicAudio]) by (vm_compute; reflexivity).
  rewrite Href in Hs. injection Hs as <-. exact Henc.
Defined.

(** ** The licence limit *)

Lemma licenseNotices_app a b :
  licenseNotices (a ++ b) = (licenseNotices a + licenseNotices b)%nat.
Proof. unfold licenseNotices. by rewrite List.filter_app, length_app. Qed.

Lemma recorderStops_app a b :
  recorderStops (a ++ b) = (recorderStops a + recorderStops b)%nat.
Proof. unfold recorderStops. by rewrite List.filter_app, length_app. Qed.

(** Computations that keep an invariant and show no licence notice
    compose. *)
Section Silent.
Variable P : Hook -> Prop.
Hypothesis Pinv : invariant P.

Lemma silent_ret {A : Type} (a : A) : silent P (ret a).
Proof. by intros h Hp. Qed.

Lemma silent_gets {A : Type} (f : Hook -> A) : silent P (gets f).
Proof. by intros h Hp. Qed.

Lemma silent_emit e : isLicenseNotice e = false -> silent P (emit e).
Proof.
  intros He h Hp. split; [done|]. unfold emit, effectsOf, licenseNotices. cbn.
  by rewrite He.
Qed.

Lemma silent_refs (f : Refs -> Refs) : silent P (modify (with_refs f)).
Proof. intros h Hp. split; [by apply (inv_refs P Pinv) | done]. Qed.

Lemma silent_rendered d : silent P (modify (set_rendered d)).
Proof. intros h Hp. split; [by apply (inv_rendered P Pinv) | done]. Qed.

Lemma silent_setIsPaused v : silent P (setIsPaused v).
Proof. intros h Hp. split; [by apply (inv_paused P Pinv) | done]. Qed.

Lemma silent_setIsRecording_false : silent P (setIsRecording false).
Proof. intros h Hp. split; [by apply (inv_stopped P Pinv) | done]. Qed.

Lemma silent_setIsExporting v : silent P (setIsExporting v).
Proof. intros h Hp. split; [by apply (inv_exporting P Pinv) | done]. Qed.

Lemma silent_setExportProgress v : silent P (setExportProgress v).
Proof. intros h Hp. split; [by apply (inv_progress P Pinv) | done]. Qed.

Lemma silent_setIsProcessingRef v : silent P (setIsProcessingRef v).
Proof. apply silent_refs. Qed.

Lemma silent_bind {A B : Type} (m : M A) (k : A -> M B) :
  silent P m -> (forall a, silent P (k a)) -> silent P (bind m k).
Proof.
  intros Hm Hk h Hp. specialize (Hm h Hp). unfold bind, hookOf, effectsOf in *.
  destruct (m h) as [[[a|err] h1] e1]; cbn [fst snd] in *; [|done].
  destruct Hm as [Hp1 Hn1]. specialize (Hk a h1 Hp1). unfold hookOf, effectsOf in Hk.
  destruct (k a h1) as [[r h2] e2]; cbn [fst snd] in *. destruct Hk as [Hp2 Hn2].
  split; [done|]. rewrite licenseNotices_app. lia.
Qed.

Lemma silent_when (b : bool) (m : M unit) : silent P m -> silent P (when b m).
Proof. intros Hm. destruct b; [done | apply silent_ret]. Qed.

Lemma silent_await {A : Type} (p : Settled A) : silent P (await p).
Proof. destruct p; by intros h Hp. Qed.

Lemma silent_tryCatch {A : Type} (body : M A) handler :
  silent P body -> (forall err, silent P (handler err)) -> silent P (tryCatch body handler).
Proof.
  intros Hb Hh h Hp. specialize (Hb h Hp). unfold tryCatch, hookOf, effectsOf in *.
  destruct (body h) as [[[a|err] h1] e1]; cbn [fst snd] in *; [done|].
  destruct Hb as [Hp1 Hn1]. specialize (Hh err h1 Hp1). unfold hookOf, effectsOf in Hh.
  destruct (handler err h1) as [[r h2] e2]; cbn [fst snd] in *. destruct Hh as [Hp2 Hn2].
  split; [done|]. rewrite licenseNotices_app. lia.
Qed.

End Silent.

Create HintDb silent.
#[local] Hint Resolve silent_ret silent_gets silent_refs silent_rendered
  silent_setIsPaused silent_setIsRecording_false silent_setIsExporting
  silent_setExportProgress silent_setIsProcessingRef silent_when : silent.
#[local] Hint Extern 2 (silent _ (emit _)) => apply silent_emit; reflexivity : silent.
#[local] Hint Extern 3 (silent _ (bind _ _)) => apply silent_bind; [|intros ?] : silent.

Section SilentOperations.
Variable P : Hook -> Prop.
Hypothesis Pinv : invariant P.

Lemma silent_stopStream get clear : silent P (stopStream get clear).
Proof.
  unfold stopStream. apply silent_bind; [apply silent_gets|].
  intros [stream|]; eauto with silent.
Qed.

Lemma silent_stopCanvas : silent P stopCanvas.
Proof.
  unfold stopCanvas. apply silent_bind; [apply silent_gets|].
  intros [c|]; eauto with silent.
Qed.

Lemma silent_cleanupStreams : silent P cleanupStreams.
Proof.
  unfold cleanupStreams, clearFrameBuffer.
  repeat (apply silent_bind;
    [solve [auto using silent_stopStream, silent_stopCanvas with silent] | intros _]).
  by apply silent_refs.
Qed.

Lemma silent_stopRecording w : silent P (stopRecording w).
Proof.
  unfold stopRecording. apply silent_bind; [apply silent_gets|].
  intros [r|]; [|apply silent_cleanupStreams].
  destruct (recState r); [apply silent_cleanupStreams| |];
    repeat (apply silent_bind; [solve [eauto with silent] | intros _]);
    eauto with silent.
Qed.

Lemma silent_pauseRecording : silent P pauseRecording.
Proof.
  unfold pauseRecording. apply silent_bind; [apply silent_gets|].
  intros [r|]; [|apply silent_ret].
  destruct (recState r); eauto with silent.
Qed.

Lemma silent_resumeRecording : silent P resumeRecording.
Proof.
  unfold resumeRecording. apply silent_bind; [apply silent_gets|].
  intros [r|]; [|apply silent_ret].
  destruct (recState r); eauto with silent.
Qed.

Lemma silent_onstop w format answer : silent P (onstop w format answer).
Proof.
  unfold onstop, clearFrameBuffer.
  repeat (apply silent_bind;
    [solve [auto using silent_stopStream, silent_stopCanvas with silent] | intros _]).
  apply silent_bind; [|intros _; eauto with silent].
  apply silent_when.
  repeat (apply silent_bind; [solve [eauto with silent] | intros _]).
  apply silent_bind; [apply silent_await | intros result].
  repeat (apply silent_bind; [solve [eauto with silent] | intros _]).
  destruct (success result); [apply silent_ret|].
  destruct (bool_decide _); eauto with silent.
Qed.

Lemma silent_deliverStop w answer : silent P (deliverStop w answer).
Proof.
  unfold deliverStop. apply silent_bind; [apply silent_gets|].
  intros [r|]; [|apply silent_ret].
  destruct (stopEventPending r); [|apply silent_ret].
  apply silent_bind; [by apply silent_refs | intros _; apply silent_onstop].
Qed.

(** The delivery as the platform makes it: what the handler throws is
    dropped. *)
Lemma silent_delivery w answer :
  silent P (tryCatch (deliverStop w answer) (fun _ => ret tt)).
Proof.
  apply silent_tryCatch; [apply silent_deliverStop | intros _; apply silent_ret].
Qed.

Lemma silent_durationTimerEffect snap : silent P (durationTimerEffect snap).
Proof. by apply silent_refs. Qed.

Lemma silent_gifAutoStopEffect w snap : silent P (gifAutoStopEffect w snap).
Proof. apply silent_when, silent_stopRecording. Qed.

Lemma when_ret (b : bool) : when b (ret tt) = ret tt.
Proof. by destruct b. Qed.

(** A render is silent as long as the licence effect has nothing to do. *)
Lemma silent_runEffects w : licenseIdle w P -> silent P (runEffects w).
Proof.
  intros Hidle h Hp. unfold runEffects. rewrite !bind_gets.
  rewrite (Hidle h Hp), when_ret. generalize (depsOf h) (rendered h). intros snap old.
  revert h Hp.
  match goal with
  | |- forall h, _ -> P (hookOf (?p h)) /\ _ => change (silent P p)
  end.
  repeat (apply silent_bind;
    [solve [auto using silent_durationTimerEffect, silent_gifAutoStopEffect with silent]
    | intros _]).
  by apply silent_rendered.
Qed.

Lemma silent_commit fuel w : licenseIdle w P -> silent P (commit fuel w).
Proof.
  intros Hidle. induction fuel as [|fuel IH]; [apply silent_ret|].
  cbn [commit]. apply silent_bind; [by apply silent_runEffects | intros _].
  apply silent_bind; [apply silent_gets | intros []; [apply silent_ret | exact IH]].
Qed.

(** Events: the invariant must also survive the seconds counted. *)
Hypothesis Pduration :
  forall v h, P h -> P (with_state (set_recordingDuration v) h).

Lemma silent_setRecordingDuration v : silent P (setRecordingDuration v).
Proof. intros h Hp. split; [by apply Pduration | done]. Qed.

Lemma silent_step w ev : licenseIdle w P -> silent P (step w ev).
Proof.
  intros Hidle. pose proof (silent_commit 2 w Hidle) as Hrender.
  destruct ev; cbn [step]; unfold tick;
    repeat (apply silent_bind;
      [solve [auto using silent_pauseRecording, silent_resumeRecording,
                silent_stopRecording, silent_delivery,
                silent_setRecordingDuration with silent]
      | intros ?]);
    exact Hrender.
Qed.

Lemma silent_run w evs : licenseIdle w P -> silent P (run w evs).
Proof.
  intros Hidle. induction evs as [|ev evs IH]; [apply silent_ret|].
  cbn [run]. apply silent_bind; [by apply silent_step | intros _; exact IH].
Qed.

End SilentOperations.

(** Three invariants. *)
Lemma invariant_True : invariant (fun _ => True).
Proof. by split. Qed.

Lemma invariant_stopped : invariant (fun h => isRecording (state h) = false).
Proof. by split. Qed.

Lemma invariant_below w :
  invariant (fun h => recordingDuration (state h) < maxRecordingDuration w).
Proof. by split. Qed.

(** Without a cap the licence effect does nothing. *)
Lemma licenseIdle_unlimited w P : maxRecordingDuration w = 0 -> licenseIdle w P.
Proof.
  intros Hm h _. unfold licenseLimitEffect. rewrite Hm. cbn. apply when_ret.
Qed.

Lemma licenseIdle_stopped w : licenseIdle w (fun h => isRecording (state h) = false).
Proof. intros h Hs. unfold licenseLimitEffect, depsOf. cbn. by rewrite Hs. Qed.

Lemma licenseIdle_below w :
  licenseIdle w (fun h => recordingDuration (state h) < maxRecordingDuration w).
Proof.
  intros h Hlt. unfold licenseLimitEffect, depsOf. cbn.
  assert (E : (maxRecordingDuration w <=? recordingDuration (state h)) = false)
    by (apply Z.leb_gt; lia).
  rewrite E, andb_false_r. cbn. apply when_ret.
Qed.

(** With an unlimited licence no run of events shows the notice. *)
Lemma unlimited_never_notifies w evs h :
  maxRecordingDuration w = 0 -> licenseNotices (effectsOf (run w evs h)) = 0%nat.
Proof.
  intros Hm.
  apply (silent_run (fun _ => True) invariant_True (fun _ _ _ => I) w evs
           (licenseIdle_unlimited w _ Hm) h I).
Qed.

(** Once [isRecording] is false no run of events shows the notice. *)
Lemma stopped_never_notifies w evs h :
  isRecording (state h) = false -> licenseNotices (effectsOf (run w evs h)) = 0%nat.
Proof.
  intros Hs.
  apply (silent_run _ invariant_stopped (fun _ _ H => H) w evs
           (licenseIdle_stopped w) h Hs).
Qed.

(** A render below the cap shows no notice. *)
Lemma render_below_limit w h :
  recordingDuration (state h) < maxRecordingDuration w ->
  licenseNotices (effectsOf (render w h)) = 0%nat.
Proof.
  intros Hlt.
  apply (silent_commit _ (invariant_below w) 2 w (licenseIdle_below w) h Hlt).
Qed.

Lemma settled_inv h : settled h = true -> rendered h = depsOf h.
Proof.
  unfold settled, depsEqb.
  destruct (rendered h) as [a b c d], (depsOf h) as [a' b' c' d'].
  cbn. intros H. repeat (apply andb_prop in H; destruct H as [H ?]).
  apply Bool.eqb_prop in H. apply Bool.eqb_prop in H2. apply Z.eqb_eq in H1.
  destruct d, d'; try discriminate; by subst.
Qed.

Ltac hook_unfold :=
  unfold tick, render, commit, runEffects, settled, depsEqb, depsOf,
    timerDepsChanged, gifDepsChanged, licenseDepsChanged,
    durationTimerEffect, gifAutoStopEffect, licenseLimitEffect,
    stopRecording, cleanupStreams, stopStream, stopCanvas, clearFrameBuffer in *;
  monad_unfold.

(** One render of a recording hook whose duration has just reached the
    cap: the licence effect stops the encoder (unless the GIF rule did so a
    moment before) and shows the notice. *)
Lemma runEffects_reaching_limit (w : World) (h : Hook) (r : MediaRecorder) (d : Z) :
  isRecording (state h) = true -> isPaused (state h) = false ->
  mediaRecorderRef (refs h) = Some r -> recState r = recording ->
  rendered h = {| depRecording := true; depPaused := false; depDuration := d;
                  depFormat := saveFormat (settings h) |} ->
  d <> recordingDuration (state h) ->
  0 < maxRecordingDuration w ->
  maxRecordingDuration w <= recordingDuration (state h) ->
  exists h' es,
    runEffects w h = (Ok tt, h', es)
    /\ licenseNotices es = 1%nat
    /\ recorderStops es = 1%nat
    /\ isRecording (state h') = false
    /\ mediaRecorderRef (refs h') = Some (withRecState inactive true r)
    /\ rendered h' = depsOf h.
Proof.
  intros Hrec Hpau Hmr Hst Hrd Hd Hpos Hreach.
  destruct h as [[ic im isa fmt] [isRec isPau dur tfr iex ep] rf rd].
  destruct rf as [ipr rrr dsr csr sr rcr ovs mrr tir fbr].
  destruct r as [rs pend rstr mime vb ab cf].
  destruct w as [el m].
  cbn in *. subst.
  assert (E1 : (d =? dur) = false) by (apply Z.eqb_neq; lia).
  assert (E2 : (0 <? m) = true) by (apply Z.ltb_lt; lia).
  assert (E3 : (m <=? dur) = true) by (apply Z.leb_le; lia).
  hook_unfold. cbn -[Z.eqb Z.leb Z.ltb]. rewrite E1, E2, E3.
  destruct fmt, (60 <=? dur), el, csr, dsr, rcr; cbn;
    eexists _, _; (split; [reflexivity|]); by cbn.
Qed.

(** A render of a hook that is not recording runs no stop and no notice. *)
Lemma runEffects_stopped (w : World) (h : Hook) :
  isRecording (state h) = false ->
  exists h',
    runEffects w h = (Ok tt, h', [])
    /\ state h' = state h
    /\ mediaRecorderRef (refs h') = mediaRecorderRef (refs h)
    /\ rendered h' = depsOf h
    /\ timerIntervalRef (refs h') =
         if timerDepsChanged (rendered h) (depsOf h) then false
         else timerIntervalRef (refs h).
Proof.
  intros Hrec.
  destruct h as [[ic im isa fmt] [isRec isPau dur tfr iex ep] rf rd].
  cbn in Hrec. subst. hook_unfold. cbn -[Z.eqb].
  destruct (negb (Bool.eqb (depRecording rd) false) || _),
           (negb (depDuration rd =? dur) || _ || _),
           (negb (depDuration rd =? dur) || _ || _);
    cbn; eexists; (split; [reflexivity|]); by cbn.
Qed.

(** The second that reaches the cap: one notice, one stop, and the hook is
    left stopped with its timer cleared. *)
Lemma tick_reaching_limit (w : World) (h : Hook) (r : MediaRecorder) :
  isRecording (state h) = true -> isPaused (state h) = false ->
  mediaRecorderRef (refs h) = Some r -> recState r = recording ->
  timerIntervalRef (refs h) = true -> settled h = true ->
  0 < maxRecordingDuration w ->
  maxRecordingDuration w <= recordingDuration (state h) + 1 ->
  licenseNotices (effectsOf (tick w h)) = 1%nat
  /\ recorderStops (effectsOf (tick w h)) = 1%nat
  /\ isRecording (state (hookOf (tick w h))) = false
  /\ timerIntervalRef (refs (hookOf (tick w h))) = false
  /\ mediaRecorderRef (refs (hookOf (tick w h))) = Some (withRecState inactive true r).
Proof.
  intros Hrec Hpau Hmr Hst Htim Hset Hpos Hreach.
  apply settled_inv in Hset.
  set (h1 := with_state (set_recordingDuration (recordingDuration (state h) + 1)) h).
  assert (Htick : tick w h = render w h1).
  { unfold tick. rewrite bind_gets, Htim. unfold when, setRecordingDuration.
    rewrite (bind_ok _ _ h h1 tt []); [by destruct (render w h1) as [[? ?] ?]|].
    by rewrite bind_gets. }
  rewrite Htick. clear Htick.
  destruct (runEffects_reaching_limit w h1 r (recordingDuration (state h)))
    as (h2 & es & Hrun & Hn & Hs & Hrec2 & Hmr2 & Hrd2); try done.
  { unfold h1. cbn. rewrite Hset. unfold depsOf. by rewrite Hrec, Hpau. }
  { unfold h1. cbn. lia. }
  destruct (runEffects_stopped w h2 Hrec2) as (h3 & Hrun3 & Hst3 & Hmr3 & _ & Htim3).
  assert (Hchanged : timerDepsChanged (rendered h2) (depsOf h2) = true).
  { rewrite Hrd2. unfold timerDepsChanged, depsOf, h1. cbn. by rewrite Hrec, Hrec2. }
  assert (Hunsettled : settled h2 = false).
  { unfold settled. rewrite Hrd2. unfold depsEqb, depsOf, h1. cbn. by rewrite Hrec, Hrec2. }
  rewrite Hchanged in Htim3.
  unfold render. cbn [commit].
  rewrite (bind_ok _ _ _ _ _ _ Hrun), bind_gets, Hunsettled.
  rewrite (bind_ok _ _ _ _ _ _ Hrun3), bind_gets.
  unfold effectsOf, hookOf. destruct (settled h3); cbn; rewrite ?app_nil_r;
    by rewrite ?Hst3, ?Hmr3.
Qed.

(** A second that stays below the cap shows no notice. *)
Lemma tick_below_limit (w : World) (h : Hook) :
  recordingDuration (state h) + 1 < maxRecordingDuration w ->
  licenseNotices (effectsOf (tick w h)) = 0%nat.
Proof.
  intros Hlt. unfold tick. rewrite bind_gets.
  destruct (timerIntervalRef (refs h)); unfold when.
  - set (h1 := with_state (set_recordingDuration (recordingDuration (state h) + 1)) h).
    rewrite (bind_ok _ _ h h1 tt []); [|unfold setRecordingDuration; by rewrite bind_gets].
    cbn [effectsOf snd app]. apply render_below_limit. unfold h1. cbn. lia.
  - rewrite (bind_ok _ _ h h tt []); [|done].
    cbn [effectsOf snd app]. apply render_below_limit. lia.
Qed.

(** Simplifying after each comparison of a duration with itself. *)
Ltac crunch := repeat (progress (rewrite ?Z.eqb_refl; cbn -[Z.eqb Z.leb Z.ltb])).

(** A second of a recording that the licence does not cap yet: it counts,
    shows nothing, and the only stop it can bring is the GIF limit's. *)
Lemma tick_uncapped (w : World) (h : Hook) (r : MediaRecorder) :
  isRecording (state h) = true -> isPaused (state h) = false ->
  mediaRecorderRef (refs h) = Some r -> recState r = recording ->
  timerIntervalRef (refs h) = true -> settled h = true ->
  maxRecordingDuration w = 0
    \/ recordingDuration (state h) + 1 < maxRecordingDuration w ->
  let t := tick w h in
  outcomeOf t = Ok tt
  /\ recordingDuration (state (hookOf t)) = recordingDuration (state h) + 1
  /\ settings (hookOf t) = settings h
  /\ settled (hookOf t) = true
  /\ isPaused (state (hookOf t)) = false
  /\ alerts (effectsOf t) = []
  /\ if isGif (saveFormat (settings h)) && (60 <=? recordingDuration (state h) + 1)
     then recorderStops (effectsOf t) = 1%nat
          /\ isRecording (state (hookOf t)) = false
          /\ timerIntervalRef (refs (hookOf t)) = false
          /\ mediaRecorderRef (refs (hookOf t)) = Some (withRecState inactive true r)
     else effectsOf t = []
          /\ isRecording (state (hookOf t)) = true
          /\ timerIntervalRef (refs (hookOf t)) = true
          /\ mediaRecorderRef (refs (hookOf t)) = Some r.
Proof.
  intros Hrec Hpau Hmr Hst Htim Hset Hcap. apply settled_inv in Hset.
  destruct h as [[ic im isa fmt] [isRec isPau dur tfr iex ep] rf rd].
  destruct rf as [ipr rrr dsr csr sr rcr ovs mrr tir fbr].
  destruct r as [rs pend rstr mime vb ab cf]. destruct w as [el m].
  unfold depsOf in Hset. cbn in *. subst.
  assert (E1 : (dur =? dur + 1) = false) by (apply Z.eqb_neq; lia).
  assert (E2 : (0 <? m) && (m <=? dur + 1) = false).
  { destruct Hcap as [->|Hlt]; [done|]. apply andb_false_iff. right. apply Z.leb_gt. lia. }
  unfold tick. hook_unfold. cbn -[Z.eqb Z.leb Z.ltb]. rewrite E1, E2.
  destruct fmt; [by crunch|]. crunch.
  destruct (60 <=? dur + 1); [|by crunch].
  destruct el; by crunch.
Qed.

(** Without a cap an MP4 recording is never stopped by the seconds it
    counts: any number of them asks nothing of the platform. *)
Lemma ticks_unlimited_mp4 (w : World) (n : nat) (h : Hook) (r : MediaRecorder) :
  isRecording (state h) = true -> isPaused (state h) = false ->
  mediaRecorderRef (refs h) = Some r -> recState r = recording ->
  timerIntervalRef (refs h) = true -> settled h = true ->
  maxRecordingDuration w = 0 -> saveFormat (settings h) = mp4 ->
  run w (replicate n EvTick) h
  = (Ok tt, hookOf (run w (replicate n EvTick) h), [])
  /\ isRecording (state (hookOf (run w (replicate n EvTick) h))) = true
  /\ mediaRecorderRef (refs (hookOf (run w (replicate n EvTick) h))) = Some r
  /\ recordingDuration (state (hookOf (run w (replicate n EvTick) h)))
     = recordingDuration (state h) + Z.of_nat n.
Proof.
  revert h. induction n as [|n IH]; intros h Hrec Hpau Hmr Hst Htim Hset Hm Hfmt.
  { cbn. repeat split; try done. lia. }
  destruct (tick_uncapped w h r Hrec Hpau Hmr Hst Htim Hset (or_introl Hm))
    as (Ho & Hdur & Hsg & Hset1 & Hpau1 & _ & Hgo).
  rewrite Hfmt in Hgo. cbn [isGif andb] in Hgo. destruct Hgo as (Hes & Hrec1 & Htim1 & Hmr1).
  cbn [replicate run step].
  assert (Htick : tick w h = (Ok tt, hookOf (tick w h), [])).
  { destruct (tick w h) as [[o h1] es]. cbn in Hes, Ho. by subst. }
  rewrite (bind_ok _ _ _ _ _ _ Htick).
  specialize (IH (hookOf (tick w h)) Hrec1 Hpau1 Hmr1 Hst Htim1 Hset1 Hm
                (eq_trans (f_equal saveFormat Hsg) Hfmt)).
  destruct IH as (Hrun & Hr & Hm' & Hd).
  cbn [app hookOf effectsOf outcomeOf fst snd].
  rewrite Hrun. cbn [hookOf effectsOf outcomeOf fst snd].
  repeat split; try done. rewrite Hd, Hdur. lia.
Qed.

(** C6: while the hook is recording and not paused, the second that brings
    [recordingDuration] to the cap [m > 0] stops the encoder once and shows
    the licence notice once; the hook is left stopped, and nothing that
    follows (seconds, pause, resume, stop, the delivery of the stop event)
    shows the notice again.  A second that stays below the cap shows
    nothing.  With [m = 0] (unlimited) no run of events ever shows the
    notice and the licence effect does nothing at all: a second stops the
    encoder only by the GIF limit (a GIF reaching 60 seconds), otherwise the
    recording goes on, and an MP4 recording goes on through any number of
    seconds without a stop.  The cap of an unlicensed device is 600
    seconds, that of a licensed one 0. *)
Theorem license_limit_stops_once (w : World) (h : Hook) (r : MediaRecorder)
    (later : list Event) :
  isRecording (state h) = true -> isPaused (state h) = false ->
  mediaRecorderRef (refs h) = Some r -> recState r = recording ->
  timerIntervalRef (refs h) = true -> settled h = true ->
  let m := maxRecordingDuration w in
  let t := tick w h in
  (0 < m -> m <= recordingDuration (state h) + 1 ->
     licenseNotices (effectsOf t) = 1%nat
     /\ recorderStops (effectsOf t) = 1%nat
     /\ isRecording (state (hookOf t)) = false
     /\ mediaRecorderRef (refs (hookOf t)) = Some (withRecState inactive true r)
     /\ licenseNotices (effectsOf (run w later (hookOf t))) = 0%nat)
  /\ (recordingDuration (state h) + 1 < m -> licenseNotices (effectsOf t) = 0%nat)
  /\ (m = 0 ->
      licenseNotices (effectsOf (run w (EvTick :: later) h)) = 0%nat
      /\ (forall snap, licenseLimitEffect w snap = ret tt)
      /\ (let gifLimit :=
            isGif (saveFormat (settings h)) && (60 <=? recordingDuration (state h) + 1) in
          recorderStops (effectsOf t) = (if gifLimit then 1%nat else 0%nat)
          /\ isRecording (state (hookOf t)) = negb gifLimit
          /\ mediaRecorderRef (refs (hookOf t))
             = Some (if gifLimit then withRecState inactive true r else r))
      /\ (saveFormat (settings h) = mp4 ->
          forall n : nat,
            let after := run w (replicate n EvTick) h in
            recorderStops (effectsOf after) = 0%nat
            /\ isRecording (state (hookOf after)) = true
            /\ mediaRecorderRef (refs (hookOf after)) = Some r
            /\ recordingDuration (state (hookOf after))
               = recordingDuration (state h) + Z.of_nat n))
  /\ LicenseService.getMaxRecordingDuration false = 600
  /\ LicenseService.getMaxRecordingDuration true = 0.
Proof.
  intros Hrec Hpau Hmr Hst Htim Hset m t. split; [|split; [|split]].
  - intros Hpos Hreach.
    destruct (tick_reaching_limit w h r Hrec Hpau Hmr Hst Htim Hset Hpos Hreach)
      as (Hn & Hs & Hstop & _ & Hmr').
    repeat (split; [done|]). by apply stopped_never_notifies.
  - apply tick_below_limit.
  - intros Hm. split; [by apply unlimited_never_notifies|]. split; [|split].
    + intros snap. unfold licenseLimitEffect. fold m. rewrite Hm. cbn. apply when_ret.
    + destruct (tick_uncapped w h r Hrec Hpau Hmr Hst Htim Hset (or_introl Hm))
        as (_ & _ & _ & _ & _ & _ & Hgo).
      fold t in Hgo. cbn zeta.
      destruct (isGif (saveFormat (settings h)) && (60 <=? recordingDuration (state h) + 1)).
      * by destruct Hgo as (-> & -> & _ & ->).
      * destruct Hgo as (Hes & -> & _ & ->). by rewrite Hes.
    + intros Hfmt n.
      destruct (ticks_unlimited_mp4 w n h r Hrec Hpau Hmr Hst Htim Hset Hm Hfmt)
        as (Hrun & Hgo & Hmr' & Hdur).
      cbn zeta. split; [by rewrite Hrun|]. by repeat split.
  - by split.
Qed.

(** Scenario D: an unlicensed recording, 599 seconds old; and a licensed
    one, which is still recording 700 seconds later. *)
Lemma license_limit_stops_once_witness :
  let w := {| isElectron := true;
              maxRecordingDuration := LicenseService.getMaxRecordingDuration false |} in
  let h := recordingFor w demoSettings 599 in
  let licensed := {| isElectron := true;
                     maxRecordingDuration := LicenseService.getMaxRecordingDuration true |} in
  let h0 := recordingFor licensed demoSettings 0 in
  recordingDuration (state h) = 599
  /\ licenseNotices (effectsOf (tick w h)) = 1%nat
  /\ recorderStops (effectsOf (tick w h)) = 1%nat
  /\ recordingDuration (state (hookOf (tick w h))) = 600
  /\ isRecording (state (hookOf (tick w h))) = false
  /\ licenseNotices (effectsOf (run w [EvTick; EvStop; EvTick] (hookOf (tick w h)))) = 0%nat
  /\ recorderStops (effectsOf (run licensed (replicate 700 EvTick) h0)) = 0%nat
  /\ isRecording (state (hookOf (run licensed (replicate 700 EvTick) h0))) = true.
Proof.
  intros w h licensed h0.
  pose (r := {| recState := recording; stopEventPending := false;
                recStream := [ScreenVideo; MicAudio]; mimeType := video_mp4_avc1;
                videoBitsPerSecond := 10000000; audioBitsPerSecond := 192000;
                capturedFormat := mp4 |}).
  assert (H1 : isRecording (state h) = true) by (vm_compute; reflexivity).
  assert (H2 : isPaused (state h) = false) by (vm_compute; reflexivity).
  assert (H3 : mediaRecorderRef (refs h) = Some r) by (vm_compute; reflexivity).
  assert (H4 : recState r = recording) by reflexivity.
  assert (H5 : timerIntervalRef (refs h) = true) by (vm_compute; reflexivity).
  assert (H6 : settled h = true) by (vm_compute; reflexivity).
  destruct (license_limit_stops_once w h r [EvTick; EvStop; EvTick] H1 H2 H3 H4 H5 H6)
    as [Hreach _].
  assert (Hpos : 0 < maxRecordingDuration w) by (vm_compute; reflexivity).
  assert (Hm : maxRecordingDuration w <= recordingDuration (state h) + 1)
    by (vm_compute; discriminate).
  destruct (Hreach Hpos Hm) as (Hn & Hs & Hstop & _ & Hlater).
  assert (G1 : isRecording (state h0) = true) by (vm_compute; reflexivity).
  assert (G2 : isPaused (state h0) = false) by (vm_compute; reflexivity).
  assert (G3 : mediaRecorderRef (refs h0) = Some r) by (vm_compute; reflexivity).
  assert (G5 : timerIntervalRef (refs h0) = true) by (vm_compute; reflexivity).
  assert (G6 : settled h0 = true) by (vm_compute; reflexivity).
  destruct (license_limit_stops_once licensed h0 r [] G1 G2 G3 H4 G5 G6)
    as (_ & _ & Hfree & _).
  destruct (Hfree eq_refl) as (_ & _ & _ & Hmp4).
  destruct (Hmp4 eq_refl 700%nat) as (Hnostop & Hgoes & _).
  split; [vm_compute; reflexivity|]. split; [exact Hn|]. split; [exact Hs|].
  split; [vm_compute; reflexivity|]. split; [exact Hstop|]. split; [exact Hlater|].
  split; [exact Hnostop | exact Hgoes].
Defined.

(** ** How a start ends *)

Lemma alerts_app a b : alerts (a ++ b) = alerts a ++ alerts b.
Proof. unfold alerts. apply omap_app. Qed.

Lemma acquireFeeds_ok env h displayStream :
  displayResult env = Resolved displayStream ->
  exists picStream h1 es,
    acquireFeeds env h = (Ok (displayStream, picStream), h1, es)
    /\ alerts es = []
    /\ state h1 = state h
    /\ settings h1 = settings h
    /\ displayStreamRef (refs h1) = Some displayStream.
Proof.
  intros Hd. unfold acquireFeeds. monad_unfold. rewrite Hd.
  destruct h as [[ic im isa fmt] st rf rd]. cbn.
  destruct im, ic, (cameraResult env); cbn;
    eexists _, _, _; (split; [reflexivity|]); by cbn.
Qed.

Lemma composeStreams_ok env targetFrameRate displayStream picStream h :
  exists s h1 es,
    composeStreams env targetFrameRate displayStream picStream h = (Ok s, h1, es)
    /\ alerts es = []
    /\ settings h1 = settings h
    /\ recordingDuration (state h1) = recordingDuration (state h)
    /\ displayStreamRef (refs h1) = displayStreamRef (refs h).
Proof.
  unfold composeStreams, compositeStream. monad_unfold.
  destruct (useCompositeMode h); cbn; [destruct (negb _); cbn|];
    eexists _, _, _; (split; [reflexivity|]); by cbn.
Qed.

(** Steps 5 and 6, once the feeds are composed. *)
Lemma encoder_outcome w env targetFrameRate s h :
  let r := (initStreamToDisk w env;; startMediaRecorder env targetFrameRate s) h in
  alerts (effectsOf r) = []
  /\ displayStreamRef (refs (hookOf r)) = displayStreamRef (refs h)
  /\ match startFailure w env with
     | Some err => displayResult env = Rejected err \/ outcomeOf r = Throw err
     | None =>
         outcomeOf r = Ok tt
         /\ state (hookOf r) = set_isPaused false (set_isRecording true (state h))
         /\ exists rec,
              mediaRecorderRef (refs (hookOf r)) = Some rec
              /\ recState rec = recording
              /\ stopEventPending rec = false
              /\ recStream rec = s
              /\ audioBitsPerSecond rec = 192000
              /\ capturedFormat rec = saveFormat (settings h)
              /\ exists width height,
                   videoBitsPerSecond rec
                   = PerformanceOptimizer.calculateOptimalBitrate width height targetFrameRate
     end.
Proof.
  unfold startFailure, initStreamToDisk, startMediaRecorder. monad_unfold.
  destruct (displayResult env) as [ds|err0].
  - destruct (isElectron w), (fileStreamResult env) as [[[] ? ? ?]|], (recorderResult env);
      cbn; (split; [done|]); (split; [done|]); try (by right).
    all: repeat split; try done; eexists; repeat split; eexists _, _; reflexivity.
  - destruct (isElectron w), (fileStreamResult env) as [[[] ? ? ?]|], (recorderResult env);
      cbn; (split; [done|]); (split; [done|]); by left.
Qed.


Lemma startRecording_sync_resets w sourceId region h :
  isProcessingRef (refs h) = false ->
  exists h1 es,
    startRecording_sync w sourceId region h = (Ok true, h1, es)
    /\ alerts es = []
    /\ settings h1 = settings h
    /\ recordingDuration (state h1) = 0
    /\ targetFrameRate (state h1) = targetFrameRate (state h).
Proof.
  intros Hflag. unfold startRecording_sync. rewrite bind_gets, Hflag. monad_unfold.
  destruct (isElectron w); cbn; eexists _, _; (split; [reflexivity|]); by cbn.
Qed.

(** The [catch] block: whatever the hook holds is released, and the user
    is told once. *)
Lemma startRecording_catch_releases err h :
  exists h1 es,
    startRecording_catch err h = (Ok tt, h1, es)
    /\ alerts es = [StartFailed err]
    /\ encoderStreams es = []
    /\ (forall s, displayStreamRef (refs h) = Some s -> StopTracks s ∈ es)
    /\ isRecording (state h1) = false
    /\ isPaused (state h1) = false
    /\ isProcessingRef (refs h1) = false
    /\ displayStreamRef (refs h1) = None
    /\ cameraStreamRef (refs h1) = None
    /\ recordingCanvasRef (refs h1) = None
    /\ frameBufferRef (refs h1) = None
    /\ timerIntervalRef (refs h1) = false.
Proof.
  unfold startRecording_catch, cleanupStreams, stopStream, stopCanvas, clearFrameBuffer.
  monad_unfold. destruct h as [s st [ipr rrr dsr csr sr rcr ovs mrr tir fbr] rd]. cbn.
  destruct csr, dsr, rcr; cbn; eexists _, _; (split; [reflexivity|]); cbn;
    repeat split; try done; intros s0 Hs0; try discriminate Hs0;
    injection Hs0 as <-; set_solver.
Qed.

(** The [try] block of a call that passed the guard. *)
Lemma startRecording_try_outcome w env h :
  let r := startRecording_try w env h in
  alerts (effectsOf r) = []
  /\ match startFailure w env with
     | Some err =>
         outcomeOf r = Throw err
         /\ (forall s, displayResult env = Resolved s ->
               displayStreamRef (refs (hookOf r)) = Some s)
     | None =>
         outcomeOf r = Ok tt
         /\ isRecording (state (hookOf r)) = true
         /\ isPaused (state (hookOf r)) = false
         /\ recordingDuration (state (hookOf r)) = recordingDuration (state h)
         /\ displayStreamRef (refs (hookOf r)) = resolved (displayResult env)
         /\ exists rec,
              mediaRecorderRef (refs (hookOf r)) = Some rec
              /\ recState rec = recording
              /\ stopEventPending rec = false
              /\ audioBitsPerSecond rec = 192000
              /\ capturedFormat rec = saveFormat (settings h)
              /\ exists width height,
                   videoBitsPerSecond rec
                   = PerformanceOptimizer.calculateOptimalBitrate
                       width height (targetFrameRate (state h))
     end.
Proof.
  cbn zeta. unfold startRecording_try. rewrite bind_gets.
  destruct (displayResult env) as [ds|err0] eqn:Hd.
  - destruct (acquireFeeds_ok env h ds Hd) as (pic & h1 & es1 & Hacq & Ha1 & Hst1 & Hse1 & Hds1).
    destruct (composeStreams_ok env (targetFrameRate (state h)) ds pic h1)
      as (s & h2 & es2 & Hcomp & Ha2 & Hse2 & Hdur2 & Hds2).
    rewrite (bind_ok _ _ _ _ _ _ Hacq). cbn [fst snd].
    rewrite (bind_ok _ _ _ _ _ _ Hcomp). cbn [outcomeOf hookOf effectsOf fst snd].
    pose proof (encoder_outcome w env (targetFrameRate (state h)) s h2) as (Ha3 & Hds3 & Hout).
    cbn zeta in Ha3, Hds3, Hout.
    split; [by rewrite !alerts_app, Ha1, Ha2, Ha3|].
    destruct (startFailure w env) as [err|] eqn:Hfail.
    + destruct Hout as [Hrej|Hthrow]; [congruence|]. split; [done|].
      intros s0 Hs0. injection Hs0 as <-. by rewrite Hds3, Hds2, Hds1.
    + destruct Hout as (Hok & Hst & rec & Hrec & Hrs & Hpend & _ & Hab & Hcf & Hvb).
      split; [done|]. rewrite Hst. split; [done|]. split; [done|]. split.
      { cbn. by rewrite Hdur2, Hst1. }
      split; [by rewrite Hds3, Hds2, Hds1|].
      exists rec. rewrite Hse2, Hse1 in Hcf. by repeat split.
  - unfold startFailure. rewrite Hd.
    assert (Hthrow : acquireFeeds env h = (Throw err0, h, [])).
    { unfold acquireFeeds. monad_unfold. by rewrite Hd. }
    rewrite (bind_throw _ _ _ _ _ _ Hthrow). cbn. repeat split; try done.
Qed.

Lemma calculateOptimalBitrate_range width height fps :
  5000000 <= PerformanceOptimizer.calculateOptimalBitrate width height fps <= 12000000.
Proof.
  unfold PerformanceOptimizer.calculateOptimalBitrate. cbn zeta.
  repeat match goal with |- context [if ?c then _ else _] => destruct c end; lia.
Qed.

(** X8: a call to [startRecording] that passes the guard and is granted
    the screen feed, the temporary file (in Electron) and the encoder ends
    in state Recording, whatever the microphone and the camera answered: it
    does not throw, shows no alert, leaves [isRecording] set, [isPaused]
    clear and the duration at 0, keeps the screen feed, and has created an
    encoder that is recording with a video bitrate between 5 and 12 Mbit/s,
    an audio bitrate of 192 kbit/s and the save format of the call. *)
Theorem startRecording_succeeds (w : World) (env : StartEnv) (sourceId : string)
    (region : option Region) (h : Hook) :
  isProcessingRef (refs h) = false ->
  startFailure w env = None ->
  let r := startRecording w env sourceId region h in
  outcomeOf r = Ok tt
  /\ alerts (effectsOf r) = []
  /\ sessionState (hookOf r) = Recording
  /\ isRecording (state (hookOf r)) = true
  /\ isPaused (state (hookOf r)) = false
  /\ recordingDuration (state (hookOf r)) = 0
  /\ displayStreamRef (refs (hookOf r)) = resolved (displayResult env)
  /\ exists rec,
       mediaRecorderRef (refs (hookOf r)) = Some rec
       /\ recState rec = recording
       /\ 5000000 <= videoBitsPerSecond rec <= 12000000
       /\ audioBitsPerSecond rec = 192000
       /\ capturedFormat rec = saveFormat (settings h).
Proof.
  intros Hflag Hnone.
  destruct (startRecording_sync_resets w sourceId region h Hflag)
    as (h1 & es0 & Hsync & Ha0 & Hse0 & Hdur0 & Hfps0).
  pose proof (startRecording_try_outcome w env h1) as [Ha1 Hout].
  rewrite Hnone in Hout. cbn zeta in Ha1, Hout.
  destruct Hout as (Hok & Hrec & Hpau & Hdur & Hds & rec & Hmr & Hrs & Hpend & Hab & Hcf & Hvb).
  cbn zeta. unfold startRecording. rewrite (bind_ok _ _ _ _ _ _ Hsync).
  unfold startRecording_async, finally, tryCatch.
  destruct (startRecording_try w env h1) as [[[[]|err] h2] es2]; [|discriminate Hok].
  cbn -[alerts] in *. rewrite app_nil_r, alerts_app, Ha0, Ha1.
  unfold sessionState. cbn -[alerts]. rewrite Hmr, Hrs.
  repeat (split; [done || congruence|]).
  exists rec. destruct Hvb as (width & height & ->).
  repeat split; try done; try congruence; apply calculateOptimalBitrate_range.
Qed.

(** The session of the examples. *)
Lemma startRecording_succeeds_witness :
  let r := startRecording demoWorld demoEnv "screen:0:0" None (mount demoSettings 30) in
  sessionState (hookOf r) = Recording /\ alerts (effectsOf r) = [].
Proof.
  intros r.
  destruct (startRecording_succeeds demoWorld demoEnv "screen:0:0" None
              (mount demoSettings 30) eq_refl eq_refl) as (_ & Ha & Hs & _).
  split; [exact Hs | exact Ha].
Defined.

(** X9: a call to [startRecording] that passes the guard and is refused
    the screen feed, the temporary file (in Electron) or the encoder does
    not throw to its caller: it shows exactly one alert, carrying the error
    of the first refusal, stops the tracks of the screen feed if it had
    been granted, and leaves the hook not recording and not paused, with
    the flag clear, no feed, canvas or frame buffer referenced and the
    timer cleared. *)
Theorem startRecording_failure_releases (w : World) (env : StartEnv) (sourceId : string)
    (region : option Region) (h : Hook) (err : string) :
  isProcessingRef (refs h) = false ->
  startFailure w env = Some err ->
  let r := startRecording w env sourceId region h in
  outcomeOf r = Ok tt
  /\ alerts (effectsOf r) = [StartFailed err]
  /\ (forall s, displayResult env = Resolved s -> StopTracks s ∈ effectsOf r)
  /\ isRecording (state (hookOf r)) = false
  /\ isPaused (state (hookOf r)) = false
  /\ isProcessingRef (refs (hookOf r)) = false
  /\ displayStreamRef (refs (hookOf r)) = None
  /\ cameraStreamRef (refs (hookOf r)) = None
  /\ recordingCanvasRef (refs (hookOf r)) = None
  /\ frameBufferRef (refs (hookOf r)) = None
  /\ timerIntervalRef (refs (hookOf r)) = false.
Proof.
  intros Hflag Hsome.
  destruct (startRecording_sync_resets w sourceId region h Hflag)
    as (h1 & es0 & Hsync & Ha0 & _).
  pose proof (startRecording_try_outcome w env h1) as [Ha1 Hout].
  rewrite Hsome in Hout. cbn zeta in Ha1, Hout. destruct Hout as [Hthrow Hds].
  cbn zeta. unfold startRecording. rewrite (bind_ok _ _ _ _ _ _ Hsync).
  unfold startRecording_async, finally, tryCatch.
  destruct (startRecording_try w env h1) as [[[[]|err'] h2] es2]; [discriminate Hthrow|].
  cbn -[alerts] in Hthrow, Ha1, Hds. injection Hthrow as ->.
  destruct (startRecording_catch_releases err h2)
    as (h3 & es3 & Hcatch & Ha3 & _ & Hstop & Hfacts).
  rewrite Hcatch. cbn -[alerts]. rewrite app_nil_r, !alerts_app, Ha0, Ha1, Ha3.
  split; [done|]. split; [done|]. split; [|by destruct Hfacts as (? & ? & ? & ?)].
  intros s Hs. apply elem_of_app. right. apply elem_of_app. right.
  apply Hstop. by apply Hds.
Qed.

(** The screen feed is refused. *)
Lemma startRecording_failure_releases_witness :
  let env := {| displayResult := Rejected "NotAllowedError";
                microphoneResult := Resolved [MicAudio];
                cameraResult := Resolved [CameraVideo];
                videoWidth := 1920; videoHeight := 1080; hardwareConcurrency := 8;
                fileStreamResult := Rejected "unused";
                mp4Supported := true; recorderResult := Resolved tt |} in
  let r := startRecording demoWorld env "screen:0:0" None (mount demoSettings 30) in
  alerts (effectsOf r) = [StartFailed "NotAllowedError"]
  /\ isRecording (state (hookOf r)) = false.
Proof.
  intros env r.
  destruct (startRecording_failure_releases demoWorld env "screen:0:0" None
              (mount demoSettings 30) "NotAllowedError" eq_refl eq_refl)
    as (_ & Ha & _ & Hrec & _).
  split; [exact Ha | exact Hrec].
Defined.

(** ** The compositor's canvas *)

Import PerformanceOptimizer PerformanceOptimizerFacts CropFacts.

Lemma round_inject (z : Z) : round (inject_Z z * 1) = z.
Proof.
  unfold round.
  assert (H : (inject_Z z * 1 + (1 # 2) == inject_Z z + (1 # 2))%Q) by ring.
  rewrite H. apply Z.le_antisymm.
  - assert (Hle : (inject_Z (Qfloor (inject_Z z + (1 # 2))) <= inject_Z z + (1 # 2))%Q)
      by apply Qfloor_le.
    assert (Hlt : (inject_Z (Qfloor (inject_Z z + (1 # 2))) < inject_Z (z + 1))%Q).
    { rewrite inject_Z_plus. change (inject_Z 1) with 1%Q. lra. }
    rewrite <- Zlt_Qlt in Hlt. lia.
  - rewrite <- (Qfloor_Z z) at 1. apply Qfloor_resp_le. lra.
Qed.

(** X10: for a capture surface of non-negative reported size, the canvas of
    the compositor has exactly the size of the crop rectangle (the scale is
    1), between one pixel and the size of the surface.  The canvas stream is
    captured at the smaller of [targetFrameRate] and the optimizer's rate,
    so never faster than asked and never above 60; that rate becomes the
    hook's [targetFrameRate], and the depth of the frame buffer is adjusted
    to it. *)
Theorem compositeStream_canvas (env : StartEnv) (h : Hook) :
  0 <= videoWidth env -> 0 <= videoHeight env ->
  let targetFrameRate := targetFrameRate (state h) in
  let W := orDefault (videoWidth env) 1920 in
  let H := orDefault (videoHeight env) 1080 in
  let crop := cropRect (recordingRegionRef (refs h)) W H in
  let fps :=
    Z.min targetFrameRate (calculateOptimalFps (getCPUCores (hardwareConcurrency env)) W H) in
  let r := compositeStream env targetFrameRate h in
  outcomeOf r = Ok [CanvasVideo fps]
  /\ effectsOf r = [CreateCanvas; CaptureCanvasStream (cropWidth crop) (cropHeight crop) fps]
  /\ recordingCanvasRef (refs (hookOf r))
     = Some {| canvasWidth := cropWidth crop; canvasHeight := cropHeight crop |}
  /\ originalVideoSizeRef (refs (hookOf r)) = Some (W, H)
  /\ 1 <= cropWidth crop <= W /\ 1 <= cropHeight crop <= H
  /\ fps <= targetFrameRate /\ fps <= 60
  /\ Recorder.targetFrameRate (state (hookOf r)) = fps
  /\ frameBufferRef (refs (hookOf r))
     = FrameBuffer.adjustQueueDepth (inject_Z fps) <$> frameBufferRef (refs h).
Proof.
  intros Hvw Hvh tfr W H crop fps r.
  assert (HW : 0 < W) by (unfold W, orDefault; destruct (Z.eqb_spec (videoWidth env) 0); lia).
  assert (HH : 0 < H) by (unfold H, orDefault; destruct (Z.eqb_spec (videoHeight env) 0); lia).
  assert (Hcw : 1 <= cropWidth crop <= W /\ 1 <= cropHeight crop <= H).
  { unfold crop, cropRect.
    destruct (recordingRegionRef (refs h)) as [region|];
      cbn [cropX cropY cropWidth cropHeight]; [|lia].
    pose proof (clamp_origin W (Qfloor (x region * inject_Z W)) HW) as Hx.
    pose proof (clamp_origin H (Qfloor (y region * inject_Z H)) HH) as Hy.
    pose proof (clamp_extent W _ (Qfloor (width region * inject_Z W)) Hx) as Hw.
    pose proof (clamp_extent H _ (Qfloor (height region * inject_Z H)) Hy) as Hh.
    lia. }
  assert (Hfps : fps <= tfr /\ fps <= 60).
  { unfold fps. rewrite calculateOptimalFps_spec. destruct (_ && _); lia. }
  unfold r, compositeStream, calculateOptimalScale. monad_unfold. fold W H.
  destruct h as [s [isRec isPau dur tfr0 iex ep] rf rd].
  cbn [state Recorder.targetFrameRate] in tfr. subst tfr. fold fps.
  destruct (Z.eqb_spec fps tfr0) as [Heq|Hne];
    cbn -[cropRect round Z.min calculateOptimalFps getCPUCores orDefault
          FrameBuffer.adjustQueueDepth];
    rewrite !round_inject; fold crop; repeat split; try done; lia.
Qed.

(** The centred half-size region of a 1920 x 1080 screen, at 60 frames per
    second on eight cores. *)
Lemma compositeStream_canvas_witness :
  let region := {| x := 1 # 4; y := 1 # 4; width := 1 # 2; height := 1 # 2 |} in
  let h := hookOf (startRecording_sync demoWorld "screen:0:0" (Some region)
                     (mount demoSettings 60)) in
  recordingCanvasRef (refs (hookOf (compositeStream demoEnv 60 h)))
  = Some {| canvasWidth := 960; canvasHeight := 540 |}
  /\ outcomeOf (compositeStream demoEnv 60 h) = Ok [CanvasVideo 60].
Proof.
  intros region h.
  assert (Hw : 0 <= videoWidth demoEnv) by (vm_compute; discriminate).
  assert (Hh : 0 <= videoHeight demoEnv) by (vm_compute; discriminate).
  destruct (compositeStream_canvas demoEnv h Hw Hh) as (Hout & _ & Hcanvas & _).
  split; [exact Hcanvas | exact Hout].
Defined.

(** ** Pause and resume *)

(** X11: [pauseRecording] and [resumeRecording] are idempotent: a second
    pause after a pause, and a second resume after a resume, change nothing
    and ask nothing of the encoder.  On a hook whose encoder is recording,
    pause asks the encoder to pause once and sets [isPaused]; the resume
    that follows asks it to resume once and leaves the hook as it was, with
    [isPaused] clear.  Without an encoder, or with an inactive one, both do
    nothing. *)
Theorem pause_resume (h : Hook) :
  let p := pauseRecording h in
  let q := resumeRecording (hookOf p) in
  pauseRecording (hookOf p) = (Ok tt, hookOf p, [])
  /\ resumeRecording (hookOf q) = (Ok tt, hookOf q, [])
  /\ (forall r, mediaRecorderRef (refs h) = Some r -> recState r = recording ->
        effectsOf p = [RecorderPause]
        /\ isPaused (state (hookOf p)) = true
        /\ sessionState (hookOf p) = (if isProcessingRef (refs h) then Starting else Paused)
        /\ effectsOf q = [RecorderResume]
        /\ hookOf q = with_state (set_isPaused false) h)
  /\ ((forall r, mediaRecorderRef (refs h) = Some r -> recState r = inactive) ->
        p = (Ok tt, h, []) /\ resumeRecording h = (Ok tt, h, [])).
Proof.
  destruct h as [s st [ipr rrr dsr csr sr rcr ovs mrr tir fbr] rd].
  destruct mrr as [[rs pend rstr mime vb ab cf]|]; cbn zeta.
  - split; [by destruct rs|]. split; [by destruct rs|]. split.
    + intros r Hr Hs. injection Hr as <-. cbn in Hs. subst rs. repeat split; reflexivity.
    + intros Hin. specialize (Hin _ eq_refl). cbn in Hin. by subst rs.
  - split; [done|]. split; [done|]. split; [intros r Hr; discriminate Hr | done].
Qed.

Lemma timerDepsChanged_same d : timerDepsChanged d d = false.
Proof. unfold timerDepsChanged. by destruct (depRecording d), (depPaused d). Qed.

Lemma gifDepsChanged_same d : gifDepsChanged d d = false.
Proof.
  unfold gifDepsChanged. rewrite Z.eqb_refl.
  by destruct (depRecording d), (depFormat d).
Qed.

Lemma licenseDepsChanged_same d : licenseDepsChanged d d = false.
Proof.
  unfold licenseDepsChanged. rewrite Z.eqb_refl.
  by destruct (depRecording d), (depPaused d).
Qed.

(** Rendering a hook whose effects have all run changes nothing. *)
Lemma render_settled w h : settled h = true -> render w h = (Ok tt, h, []).
Proof.
  intros Hs. pose proof (settled_inv h Hs) as Hrd.
  assert (Hrun : runEffects w h = (Ok tt, h, [])).
  { unfold runEffects. rewrite !bind_gets, Hrd.
    rewrite timerDepsChanged_same, gifDepsChanged_same, licenseDepsChanged_same.
    rewrite <- Hrd. by destruct h. }
  unfold render. cbn [commit]. rewrite (bind_ok _ _ _ _ _ _ Hrun), bind_gets, Hs. done.
Qed.

(** A second on a settled hook whose timer is not running. *)
Lemma tick_idle w h :
  settled h = true -> timerIntervalRef (refs h) = false -> tick w h = (Ok tt, h, []).
Proof.
  intros Hs Ht. unfold tick. rewrite bind_gets, Ht. unfold when.
  rewrite (bind_ok _ _ h h tt []) by done. by rewrite render_settled.
Qed.

Lemma ticks_idle w n h :
  settled h = true -> timerIntervalRef (refs h) = false ->
  run w (replicate n EvTick) h = (Ok tt, h, []).
Proof.
  intros Hs Ht. induction n as [|n IH]; [done|].
  cbn [replicate run step]. rewrite (bind_ok _ _ _ _ _ _ (tick_idle w h Hs Ht)).
  by rewrite IH.
Qed.

Lemma run_app w evs1 evs2 h h1 es1 :
  run w evs1 h = (Ok tt, h1, es1) ->
  run w (evs1 ++ evs2) h
  = (outcomeOf (run w evs2 h1), hookOf (run w evs2 h1), es1 ++ effectsOf (run w evs2 h1)).
Proof.
  revert h h1 es1. induction evs1 as [|ev evs1 IH]; intros h h1 es1 Hrun.
  - cbn in Hrun. unfold ret in Hrun. injection Hrun as <- <-.
    change ([] ++ evs2) with evs2. by destruct (run w evs2 h) as [[? ?] ?].
  - cbn [app run] in *. unfold bind in *.
    destruct (step w ev h) as [[[[]|err] h0] e0]; [|done].
    destruct (run w evs1 h0) as [[r2 h2] e2] eqn:H2.
    injection Hrun as -> -> <-. rewrite (IH h0 h1 e2 H2).
    cbn. by rewrite app_assoc.
Qed.

(** The pause button on a recording hook: the encoder pauses and the
    render that follows clears the timer. *)
Lemma step_pause w h r :
  settled h = true -> isPaused (state h) = false ->
  mediaRecorderRef (refs h) = Some r -> recState r = recording ->
  exists h1,
    step w EvPause h = (Ok tt, h1, [RecorderPause])
    /\ settled h1 = true
    /\ timerIntervalRef (refs h1) = false
    /\ state h1 = set_isPaused true (state h)
    /\ settings h1 = settings h
    /\ mediaRecorderRef (refs h1) = Some (withRecState paused (stopEventPending r) r).
Proof.
  intros Hs Hp Hr Hst. apply settled_inv in Hs.
  destruct h as [[ic im isa fmt] [isRec isPau dur tfr iex ep] rf rd].
  destruct rf as [ipr rrr dsr csr sr rcr ovs mrr tir fbr].
  destruct r as [rs pend rstr mime vb ab cf].
  unfold depsOf in Hs. cbn in *. subst. unfold step, pauseRecording. hook_unfold. cbn -[Z.eqb Z.leb Z.ltb].
  rewrite !Z.eqb_refl.
  destruct isRec, fmt; cbn -[Z.eqb Z.leb Z.ltb]; rewrite ?Z.eqb_refl;
    eexists; (split; [reflexivity|]); cbn; rewrite ?Z.eqb_refl; by repeat split.
Qed.

(** The resume button on a paused hook below the cap: the encoder resumes
    and the render that follows restarts the timer of a recording. *)
Lemma step_resume w h r :
  settled h = true -> isPaused (state h) = true ->
  mediaRecorderRef (refs h) = Some r -> recState r = paused ->
  maxRecordingDuration w = 0 \/ recordingDuration (state h) < maxRecordingDuration w ->
  exists h1,
    step w EvResume h = (Ok tt, h1, [RecorderResume])
    /\ timerIntervalRef (refs h1) = isRecording (state h)
    /\ state h1 = set_isPaused false (state h).
Proof.
  intros Hs Hp Hr Hst Hcap. apply settled_inv in Hs.
  destruct h as [[ic im isa fmt] [isRec isPau dur tfr iex ep] rf rd].
  destruct rf as [ipr rrr dsr csr sr rcr ovs mrr tir fbr].
  destruct r as [rs pend rstr mime vb ab cf]. destruct w as [el m].
  unfold depsOf in Hs. cbn in *. subst.
  assert (E : (0 <? m) && (m <=? dur) = false).
  { destruct Hcap as [->|Hlt]; [done|]. apply andb_false_iff. right. apply Z.leb_gt. lia. }
  unfold step, resumeRecording. hook_unfold. cbn -[Z.eqb Z.leb Z.ltb].
  rewrite !Z.eqb_refl, E.
  destruct isRec, fmt; cbn -[Z.eqb Z.leb Z.ltb]; rewrite ?Z.eqb_refl;
    eexists; (split; [reflexivity|]); cbn; by repeat split.
Qed.

(** X12: on a settled hook that is not paused and whose encoder is
    recording, the pause button followed by any number of seconds leaves
    [recordingDuration] where it was: the only effect issued is the
    encoder's pause, and the timer is cleared.  The resume button then
    (below the licence cap) restarts the timer of a recording, with the
    duration still unchanged. *)
Theorem paused_time_not_counted (w : World) (h : Hook) (r : MediaRecorder) (n : nat) :
  settled h = true -> isPaused (state h) = false ->
  mediaRecorderRef (refs h) = Some r -> recState r = recording ->
  let during := run w (EvPause :: replicate n EvTick) h in
  let after := run w (EvPause :: replicate n EvTick ++ [EvResume]) h in
  effectsOf during = [RecorderPause]
  /\ recordingDuration (state (hookOf during)) = recordingDuration (state h)
  /\ isPaused (state (hookOf during)) = true
  /\ timerIntervalRef (refs (hookOf during)) = false
  /\ (maxRecordingDuration w = 0
        \/ recordingDuration (state h) < maxRecordingDuration w ->
      effectsOf after = [RecorderPause; RecorderResume]
      /\ recordingDuration (state (hookOf after)) = recordingDuration (state h)
      /\ isPaused (state (hookOf after)) = false
      /\ timerIntervalRef (refs (hookOf after)) = isRecording (state h)).
Proof.
  intros Hs Hp Hr Hst during after.
  destruct (step_pause w h r Hs Hp Hr Hst) as (h1 & Hstep & Hs1 & Ht1 & Hst1 & _ & Hr1).
  assert (Hduring : during = (Ok tt, h1, [RecorderPause])).
  { unfold during. cbn [run]. rewrite (bind_ok _ _ _ _ _ _ Hstep).
    by rewrite (ticks_idle w n h1 Hs1 Ht1). }
  rewrite Hduring. cbn [effectsOf hookOf fst snd]. rewrite Hst1.
  split; [done|]. split; [by destruct (state h)|]. split; [done|]. split; [done|].
  intros Hcap.
  destruct (step_resume w h1 (withRecState paused (stopEventPending r) r))
    as (h2 & Hstep2 & Ht2 & Hst2); try done.
  { by rewrite Hst1. }
  { rewrite Hst1. by destruct (state h). }
  unfold after. change (EvPause :: replicate n EvTick ++ [EvResume])
    with ((EvPause :: replicate n EvTick) ++ [EvResume]).
  fold during in Hduring. rewrite (run_app w _ [EvResume] h h1 _ Hduring).
  cbn [run]. rewrite (bind_ok _ _ _ _ _ _ Hstep2).
  cbn [effectsOf hookOf outcomeOf fst snd ret app].
  rewrite Hst2, Ht2, Hst1. by destruct (state h).
Qed.

(** A recording of three seconds, paused for five. *)
Lemma paused_time_not_counted_witness :
  let h := recordingFor demoWorld demoSettings 3 in
  recordingDuration (state (hookOf (run demoWorld (EvPause :: replicate 5 EvTick) h))) = 3
  /\ timerIntervalRef
       (refs (hookOf (run demoWorld (EvPause :: replicate 5 EvTick ++ [EvResume]) h)))
     = true.
Proof.
  intros h.
  pose (r := {| recState := recording; stopEventPending := false;
                recStream := [ScreenVideo; MicAudio]; mimeType := video_mp4_avc1;
                videoBitsPerSecond := 10000000; audioBitsPerSecond := 192000;
                capturedFormat := mp4 |}).
  assert (H1 : settled h = true) by (vm_compute; reflexivity).
  assert (H2 : isPaused (state h) = false) by (vm_compute; reflexivity).
  assert (H3 : mediaRecorderRef (refs h) = Some r) by (vm_compute; reflexivity).
  destruct (paused_time_not_counted demoWorld h r 5 H1 H2 H3 eq_refl)
    as (_ & Hd & _ & _ & Hafter).
  split; [exact Hd|].
  assert (Hcap : maxRecordingDuration demoWorld = 0
                 \/ recordingDuration (state h) < maxRecordingDuration demoWorld)
    by (right; vm_compute; reflexivity).
  destruct (Hafter Hcap) as (_ & _ & _ & Ht). exact Ht.
Defined.

(** ** The GIF limit *)

(** X13: on a settled, recording, unpaused hook below the licence cap, a
    second always counts (the duration grows by one) and never shows an
    alert.  When the save format is GIF and the duration reaches 60 the
    encoder is told to stop exactly once and the hook is left stopped with
    its timer cleared; in every other case (MP4 at any duration, GIF below
    60) nothing is asked of the platform and the recording goes on. *)
Theorem gif_auto_stop (w : World) (h : Hook) (r : MediaRecorder) :
  isRecording (state h) = true -> isPaused (state h) = false ->
  mediaRecorderRef (refs h) = Some r -> recState r = recording ->
  timerIntervalRef (refs h) = true -> settled h = true ->
  maxRecordingDuration w = 0
    \/ recordingDuration (state h) + 1 < maxRecordingDuration w ->
  let t := tick w h in
  recordingDuration (state (hookOf t)) = recordingDuration (state h) + 1
  /\ alerts (effectsOf t) = []
  /\ if isGif (saveFormat (settings h)) && (60 <=? recordingDuration (state h) + 1)
     then recorderStops (effectsOf t) = 1%nat
          /\ isRecording (state (hookOf t)) = false
          /\ timerIntervalRef (refs (hookOf t)) = false
          /\ mediaRecorderRef (refs (hookOf t)) = Some (withRecState inactive true r)
     else effectsOf t = []
          /\ isRecording (state (hookOf t)) = true
          /\ timerIntervalRef (refs (hookOf t)) = true
          /\ mediaRecorderRef (refs (hookOf t)) = Some r.
Proof.
  intros Hrec Hpau Hmr Hst Htim Hset Hcap. apply settled_inv in Hset.
  destruct h as [[ic im isa fmt] [isRec isPau dur tfr iex ep] rf rd].
  destruct rf as [ipr rrr dsr csr sr rcr ovs mrr tir fbr].
  destruct r as [rs pend rstr mime vb ab cf]. destruct w as [el m].
  unfold depsOf in Hset. cbn in *. subst.
  assert (E1 : (dur =? dur + 1) = false) by (apply Z.eqb_neq; lia).
  assert (E2 : (0 <? m) && (m <=? dur + 1) = false).
  { destruct Hcap as [->|Hlt]; [done|]. apply andb_false_iff. right. apply Z.leb_gt. lia. }
  unfold tick. hook_unfold. cbn -[Z.eqb Z.leb Z.ltb]. rewrite E1, E2.
  destruct fmt; [by crunch|]. crunch.
  destruct (60 <=? dur + 1); [|by crunch].
  destruct el; by crunch.
Qed.

(** A GIF recording of 59 seconds. *)
Lemma gif_auto_stop_witness :
  let s := {| includeCamera := false; includeMicrophone := true;
              includeSystemAudio := true; saveFormat := gif |} in
  let h := recordingFor demoWorld s 59 in
  recorderStops (effectsOf (tick demoWorld h)) = 1%nat
  /\ isRecording (state (hookOf (tick demoWorld h))) = false
  /\ alerts (effectsOf (tick demoWorld h)) = [].
Proof.
  intros s h.
  pose (r := {| recState := recording; stopEventPending := false;
                recStream := [ScreenVideo; MicAudio]; mimeType := video_mp4_avc1;
                videoBitsPerSecond := 10000000; audioBitsPerSecond := 192000;
                capturedFormat := gif |}).
  assert (H1 : isRecording (state h) = true) by (vm_compute; reflexivity).
  assert (H2 : isPaused (state h) = false) by (vm_compute; reflexivity).
  assert (H3 : mediaRecorderRef (refs h) = Some r) by (vm_compute; reflexivity).
  assert (H5 : timerIntervalRef (refs h) = true) by (vm_compute; reflexivity).
  assert (H6 : settled h = true) by (vm_compute; reflexivity).
  assert (H7 : maxRecordingDuration demoWorld = 0
               \/ recordingDuration (state h) + 1 < maxRecordingDuration demoWorld)
    by (right; vm_compute; reflexivity).
  destruct (gif_auto_stop demoWorld h r H1 H2 H3 eq_refl H5 H6 H7) as (_ & Ha & Hstop).
  assert (Hcond : isGif (saveFormat (settings h))
                  && (60 <=? recordingDuration (state h) + 1) = true)
    by (vm_compute; reflexivity).
  rewrite Hcond in Hstop. destruct Hstop as (Hs & Hrec & _).
  split; [exact Hs|]. split; [exact Hrec | exact Ha].
Defined.

(** ** Stopping *)

(** X14: [stopRecording] tells the encoder to stop exactly when the hook
    holds an encoder that is not inactive, and afterwards the encoder is
    inactive: a second call cannot stop it again.  The call that stops the
    encoder clears [isRecording] and [isPaused], leaves the feeds to the
    [onstop] handler and queues its stop event; a call that finds no
    active encoder only cleans up: it releases the feeds, the canvas and
    the frame buffer, clears the timer and leaves the state alone.  No
    alert is shown either way. *)
Theorem stopRecording_once (w : World) (h : Hook) :
  let s := stopRecording w h in
  recorderStops (effectsOf s) = (if recorderActive h then 1%nat else 0%nat)
  /\ recorderActive (hookOf s) = false
  /\ alerts (effectsOf s) = []
  /\ (if recorderActive h
      then isRecording (state (hookOf s)) = false
           /\ isPaused (state (hookOf s)) = false
           /\ displayStreamRef (refs (hookOf s)) = displayStreamRef (refs h)
           /\ cameraStreamRef (refs (hookOf s)) = cameraStreamRef (refs h)
           /\ (exists r, mediaRecorderRef (refs (hookOf s)) = Some r
                         /\ stopEventPending r = true)
      else state (hookOf s) = state h
           /\ displayStreamRef (refs (hookOf s)) = None
           /\ cameraStreamRef (refs (hookOf s)) = None
           /\ recordingCanvasRef (refs (hookOf s)) = None
           /\ frameBufferRef (refs (hookOf s)) = None
           /\ timerIntervalRef (refs (hookOf s)) = false
           /\ mediaRecorderRef (refs (hookOf s)) = mediaRecorderRef (refs h)).
Proof.
  destruct h as [s st [ipr rrr dsr csr sr rcr ovs mrr tir fbr] rd].
  unfold recorderActive, stopRecording, cleanupStreams, stopStream, stopCanvas,
    clearFrameBuffer. monad_unfold.
  destruct mrr as [[[] pend rstr mime vb ab cf]|]; cbn.
  2,3: destruct (isElectron w); cbn; repeat split; try done; by eexists.
  all: destruct csr, dsr, rcr; cbn; by repeat split.
Qed.

(** X15: when the stop event of the hook's encoder is delivered, the
    [onstop] handler stops the tracks of the screen and camera feeds it
    finds, and of no other stream, and clears their references and the
    canvas; [streamRef] keeps the combined stream, with any microphone
    track in it.  In Electron the handler asks for the export once, with the
    save format the recording was started with; outside Electron it asks
    for none.  If the request resolves (or none is made) the handler
    returns, shows an alert exactly for an Electron export that failed and
    was not cancelled, and leaves [isExporting] clear, no frame buffer, the
    flag clear and the session Idle.  If the request is rejected the handler
    throws that error: no alert is shown, [isExporting] stays set, and the
    frame buffer and the flag are left as they were.  Either way the event
    is not delivered twice. *)
Theorem stop_event_releases (w : World) (answer : Settled Result) (h : Hook)
    (r : MediaRecorder) :
  mediaRecorderRef (refs h) = Some r ->
  stopEventPending r = true ->
  let d := deliverStop w answer h in
  omap (fun e => match e with StopRecordingStream f => Some f | _ => None end)
       (effectsOf d)
  = (if isElectron w then [capturedFormat r] else [])
  /\ (forall s, StopTracks s ∈ effectsOf d
                <-> displayStreamRef (refs h) = Some s \/ cameraStreamRef (refs h) = Some s)
  /\ displayStreamRef (refs (hookOf d)) = None
  /\ cameraStreamRef (refs (hookOf d)) = None
  /\ recordingCanvasRef (refs (hookOf d)) = None
  /\ streamRef (refs (hookOf d)) = streamRef (refs h)
  /\ mediaRecorderRef (refs (hookOf d)) = Some (withRecState inactive false r)
  /\ isRecording (state (hookOf d)) = isRecording (state h)
  /\ deliverStop w answer (hookOf d) = (Ok tt, hookOf d, [])
  /\ (forall result, isElectron w = false \/ answer = Resolved result ->
      outcomeOf d = Ok tt
      /\ alerts (effectsOf d) = saveAlert w result
      /\ frameBufferRef (refs (hookOf d)) = None
      /\ isProcessingRef (refs (hookOf d)) = false
      /\ isExporting (state (hookOf d))
         = (if isElectron w then false else isExporting (state h))
      /\ sessionState (hookOf d) = Idle)
  /\ (forall err, isElectron w = true -> answer = Rejected err ->
      outcomeOf d = Throw err
      /\ alerts (effectsOf d) = []
      /\ isExporting (state (hookOf d)) = true
      /\ frameBufferRef (refs (hookOf d)) = frameBufferRef (refs h)
      /\ isProcessingRef (refs (hookOf d)) = isProcessingRef (refs h)).
Proof.
  intros Hr Hpend.
  destruct h as [s st [ipr rrr dsr csr sr rcr ovs mrr tir fbr] rd].
  destruct r as [rs pend rstr mime vb ab cf]. cbn in Hr, Hpend. subst.
  unfold saveAlert, deliverStop, onstop, stopStream, stopCanvas, clearFrameBuffer.
  monad_unfold.
  assert (Hone : forall a b : MediaStream, StopTracks a ∈ [StopTracks b] <-> b = a).
  { intros a b. rewrite list_elem_of_singleton. split; [by intros [= ->] | by intros ->]. }
  destruct (isElectron w) eqn:Hel; (destruct answer as [result|err0]);
    destruct csr, dsr, rcr; cbn;
    try (destruct (success result) eqn:Hs,
           (bool_decide (canceled result = Some true)) eqn:Hc); cbn.
  all: repeat match goal with |- _ /\ _ => split end; try done.
  all: try (intros s0; rewrite ?elem_of_app, ?elem_of_cons, ?elem_of_nil;
            split; [intros Hs0 | intros [Hs0|Hs0]];
            repeat match goal with
                   | H : _ \/ _ |- _ => destruct H
                   | H : StopTracks _ = StopTracks _ |- _ => injection H as ->
                   | H : Some _ = Some _ |- _ => injection H as ->
                   end; try done; try discriminate; auto; tauto).
  all: try (intros result0 [Hne|Hres]; [discriminate Hne|]; try discriminate Hres;
            injection Hres as <-; rewrite ?Hs, ?Hc; cbn; by repeat split).
  all: try (intros result0 [Hne|Hres]; cbn; by repeat split).
  all: try (intros err1 _ Herr; try discriminate Herr; injection Herr as <-; by repeat split).
  all: try (intros err1 Hne; discriminate Hne).
Qed.

(** The recording of the examples, stopped after three seconds: once the
    export fails, once the request for it is rejected. *)
Lemma stop_event_releases_witness :
  let h := hookOf (stopRecording demoWorld (recordingFor demoWorld demoSettings 3)) in
  let result := {| success := false; path := None;
                   error := Some "ffmpeg exited with code 1"; canceled := None |} in
  alerts (effectsOf (deliverStop demoWorld (Resolved result) h))
  = [SaveFailed (Some "ffmpeg exited with code 1")]
  /\ displayStreamRef (refs (hookOf (deliverStop demoWorld (Resolved result) h))) = None
  /\ streamRef (refs (hookOf (deliverStop demoWorld (Resolved result) h)))
     = Some [ScreenVideo; MicAudio]
  /\ sessionState (hookOf (deliverStop demoWorld (Resolved result) h)) = Idle
  /\ outcomeOf (deliverStop demoWorld (Rejected "No handler registered") h)
     = Throw "No handler registered"
  /\ isExporting (state (hookOf (deliverStop demoWorld (Rejected "No handler registered") h)))
     = true.
Proof.
  intros h result.
  pose (r := {| recState := inactive; stopEventPending := true;
                recStream := [ScreenVideo; MicAudio]; mimeType := video_mp4_avc1;
                videoBitsPerSecond := 10000000; audioBitsPerSecond := 192000;
                capturedFormat := mp4 |}).
  assert (H1 : mediaRecorderRef (refs h) = Some r) by (vm_compute; reflexivity).
  assert (H2 : streamRef (refs h) = Some [ScreenVideo; MicAudio]) by (vm_compute; reflexivity).
  destruct (stop_event_releases demoWorld (Resolved result) h r H1 eq_refl)
    as (_ & _ & Hd & _ & _ & Hsr & _ & _ & _ & Hres & _).
  destruct (Hres result (or_intror eq_refl)) as (_ & Ha & _ & _ & _ & Hidle).
  destruct (stop_event_releases demoWorld (Rejected "No handler registered") h r H1 eq_refl)
    as (_ & _ & _ & _ & _ & _ & _ & _ & _ & _ & Hrej).
  destruct (Hrej "No handler registered" eq_refl eq_refl) as (Hthrow & _ & Hexp & _).
  split; [exact Ha|]. split; [exact Hd|]. split; [by rewrite Hsr|].
  split; [exact Hidle|]. split; [exact Hthrow | exact Hexp].
Defined.

(** ** Renders *)

Section Relates.
Variable R : Hook -> Hook -> Prop.
Hypothesis R_refl : forall h, R h h.
Hypothesis R_trans : forall h1 h2 h3, R h1 h2 -> R h2 h3 -> R h1 h3.

Lemma relates_ret {A : Type} (a : A) : relates R (ret a).
Proof. intros h. by exists a, h, []. Qed.

Lemma relates_gets {A : Type} (f : Hook -> A) : relates R (gets f).
Proof. intros h. by exists (f h), h, []. Qed.

Lemma relates_emit e : relates R (emit e).
Proof. intros h. by exists tt, h, [e]. Qed.

Lemma relates_modify f : (forall h, R h (f h)) -> relates R (modify f).
Proof. intros Hf h. by exists tt, (f h), []. Qed.

Lemma relates_bind {A B : Type} (m : M A) (k : A -> M B) :
  relates R m -> (forall a, relates R (k a)) -> relates R (bind m k).
Proof.
  intros Hm Hk h. destruct (Hm h) as (a & h1 & e1 & Hm1 & Hr1).
  destruct (Hk a h1) as (b & h2 & e2 & Hk2 & Hr2).
  exists b, h2, (e1 ++ e2). split; [|by eapply R_trans].
  unfold bind. by rewrite Hm1, Hk2.
Qed.

Lemma relates_when (b : bool) (m : M unit) : relates R m -> relates R (when b m).
Proof. intros Hm. destruct b; [done | apply relates_ret]. Qed.

End Relates.

Lemma stoppedOrSame_refl h : stoppedOrSame h h.
Proof. split; [done | by left]. Qed.

Lemma stoppedOrSame_trans h1 h2 h3 :
  stoppedOrSame h1 h2 -> stoppedOrSame h2 h3 -> stoppedOrSame h1 h3.
Proof.
  intros [Hs1 Hst1] [Hs2 Hst2]. split; [congruence|].
  destruct Hst2 as [->| ->]; [done|]. right.
  by destruct Hst1 as [->| ->].
Qed.

Ltac relates_step :=
  lazymatch goal with
  | |- relates _ (bind _ _) =>
      apply (relates_bind _ stoppedOrSame_trans); [|intros ?]
  | |- relates _ (ret _) => apply (relates_ret _ stoppedOrSame_refl)
  | |- relates _ (gets _) => apply (relates_gets _ stoppedOrSame_refl)
  | |- relates _ (emit _) => apply (relates_emit _ stoppedOrSame_refl)
  | |- relates _ (when _ _) => apply relates_when; [apply stoppedOrSame_refl|]
  | |- relates _ (modify _) =>
      apply relates_modify; intros ?; split; [done | first [by left | by right]]
  | |- relates _ (match ?x with _ => _ end) => destruct x
  | |- relates _ (if ?x then _ else _) => destruct x
  end.

Lemma stopRecording_stoppedOrSame w : relates stoppedOrSame (stopRecording w).
Proof.
  intros h. destruct h as [s st [ipr rrr dsr csr sr rcr ovs mrr tir fbr] rd].
  unfold stopRecording, cleanupStreams, stopStream, stopCanvas, clearFrameBuffer.
  monad_unfold.
  destruct mrr as [[[] pend rstr mime vb ab cf]|]; cbn.
  2,3: destruct (isElectron w); cbn; eexists _, _, _; (split; [reflexivity|]);
       (split; [done | by right]).
  all: destruct csr, dsr, rcr; cbn; eexists _, _, _; (split; [reflexivity|]);
       (split; [done | by left]).
Qed.

(** Each effect of a render, run or skipped. *)
Lemma effects_stoppedOrSame w snap (c : bool) :
  relates stoppedOrSame (when c (durationTimerEffect snap))
  /\ relates stoppedOrSame (when c (gifAutoStopEffect w snap))
  /\ relates stoppedOrSame (when c (licenseLimitEffect w snap)).
Proof.
  pose proof (stopRecording_stoppedOrSame w) as Hstop.
  unfold durationTimerEffect, gifAutoStopEffect, licenseLimitEffect.
  repeat split; repeat (first [exact Hstop | relates_step]).
Qed.

(** One round of effects: it does not throw, it records the render, and
    it leaves the state alone unless it stopped the recording. *)
Lemma runEffects_stoppedOrSame w h :
  exists h1 es,
    runEffects w h = (Ok tt, h1, es)
    /\ rendered h1 = depsOf h
    /\ stoppedOrSame h h1.
Proof.
  unfold runEffects. rewrite !bind_gets.
  destruct (effects_stoppedOrSame w (depsOf h) (timerDepsChanged (rendered h) (depsOf h)))
    as (Htimer & _ & _).
  destruct (effects_stoppedOrSame w (depsOf h) (gifDepsChanged (rendered h) (depsOf h)))
    as (_ & Hgif & _).
  destruct (effects_stoppedOrSame w (depsOf h) (licenseDepsChanged (rendered h) (depsOf h)))
    as (_ & _ & Hlicense).
  destruct (Htimer h) as ([] & h1 & e1 & H1 & R1).
  destruct (Hgif h1) as ([] & h2 & e2 & H2 & R2).
  destruct (Hlicense h2) as ([] & h3 & e3 & H3 & R3).
  rewrite (bind_ok _ _ _ _ _ _ H1), (bind_ok _ _ _ _ _ _ H2), (bind_ok _ _ _ _ _ _ H3).
  eexists _, _. split; [reflexivity|]. split; [done|].
  pose proof (stoppedOrSame_trans _ _ _ (stoppedOrSame_trans _ _ _ R1 R2) R3) as [Hs Hst].
  by split.
Qed.

Lemma settled_same h h1 :
  rendered h1 = depsOf h -> settings h1 = settings h -> state h1 = state h ->
  settled h1 = true.
Proof.
  intros Hr Hs Hst. unfold settled. rewrite Hr. unfold depsOf. rewrite Hs, Hst.
  unfold depsEqb. cbn. rewrite Z.eqb_refl.
  by destruct (isRecording (state h)), (isPaused (state h)), (saveFormat (settings h)).
Qed.

(** X16: a render never throws and always settles: after at most one
    re-render the timer, GIF and licence effects have all seen the values
    they depend on.  It never touches the settings, and it leaves the state
    as it was or as a stop leaves it ([isRecording] and [isPaused] cleared);
    in particular it never changes the duration. *)
Theorem render_settles (w : World) (h : Hook) :
  let r := render w h in
  outcomeOf r = Ok tt
  /\ settled (hookOf r) = true
  /\ settings (hookOf r) = settings h
  /\ (state (hookOf r) = state h \/ state (hookOf r) = stopped (state h))
  /\ recordingDuration (state (hookOf r)) = recordingDuration (state h).
Proof.
  cbn zeta.
  assert (Hmain : outcomeOf (render w h) = Ok tt
                  /\ settled (hookOf (render w h)) = true
                  /\ settings (hookOf (render w h)) = settings h
                  /\ (state (hookOf (render w h)) = state h
                      \/ state (hookOf (render w h)) = stopped (state h)));
    [|destruct Hmain as (Ho & Hse & Hsg & Hst); repeat (split; [done|]);
      by destruct Hst as [->| ->]].
  unfold render. cbn [commit].
  destruct (runEffects_stoppedOrSame w h) as (h1 & e1 & H1 & Hr1 & Hs1 & Hst1).
  rewrite (bind_ok _ _ _ _ _ _ H1), bind_gets.
  destruct (settled h1) eqn:Hset1; [by cbn|].
  destruct Hst1 as [Hsame|Hstop].
  { by rewrite (settled_same h h1) in Hset1. }
  destruct (runEffects_stoppedOrSame w h1) as (h2 & e2 & H2 & Hr2 & Hs2 & Hst2).
  assert (Hst : state h2 = state h1).
  { destruct (runEffects_stopped w h1) as (h2' & H2' & Hst' & _); [by rewrite Hstop|].
    rewrite H2 in H2'. by injection H2' as ->. }
  rewrite (bind_ok _ _ _ _ _ _ H2), bind_gets.
  rewrite (settled_same h1 h2 Hr2 Hs2 Hst). cbn.
  split; [done|]. split; [by apply (settled_same h1 h2)|].
  split; [congruence|]. right. congruence.
Qed.

(** ** The frame buffer of the hook *)

Section Keeps.
Variable P : Hook -> Prop.
Variable Q : Effect -> Prop.

Lemma keeps_ret {A : Type} (a : A) : keeps P Q (ret a).
Proof. intros h Hp. by split. Qed.

Lemma keeps_throw {A : Type} err : keeps P Q (@throw A err).
Proof. intros h Hp. by split. Qed.

Lemma keeps_gets {A : Type} (f : Hook -> A) : keeps P Q (gets f).
Proof. intros h Hp. by split. Qed.

Lemma keeps_emit e : Q e -> keeps P Q (emit e).
Proof. intros He h Hp. split; [done|]. by apply Forall_singleton. Qed.

Lemma keeps_modify f : (forall h, P h -> P (f h)) -> keeps P Q (modify f).
Proof. intros Hf h Hp. split; [by apply Hf | done]. Qed.

Lemma keeps_await {A : Type} (p : Settled A) : keeps P Q (await p).
Proof. destruct p; [apply keeps_ret | apply keeps_throw]. Qed.

Lemma keeps_bind {A B : Type} (m : M A) (k : A -> M B) :
  keeps P Q m -> (forall a, keeps P Q (k a)) -> keeps P Q (bind m k).
Proof.
  intros Hm Hk h Hp. specialize (Hm h Hp). unfold bind, hookOf, effectsOf in *.
  destruct (m h) as [[[a|err] h1] e1]; cbn [fst snd] in *; [|done].
  destruct Hm as [Hp1 Hq1]. specialize (Hk a h1 Hp1). unfold hookOf, effectsOf in Hk.
  destruct (k a h1) as [[r h2] e2]; cbn [fst snd] in *. destruct Hk as [Hp2 Hq2].
  split; [done|]. by apply Forall_app.
Qed.

Lemma keeps_when (b : bool) (m : M unit) : keeps P Q m -> keeps P Q (when b m).
Proof. intros Hm. destruct b; [done | apply keeps_ret]. Qed.

Lemma keeps_tryCatch {A : Type} (body : M A) handler :
  keeps P Q body -> (forall err, keeps P Q (handler err)) -> keeps P Q (tryCatch body handler).
Proof.
  intros Hb Hh h Hp. specialize (Hb h Hp). unfold tryCatch, hookOf, effectsOf in *.
  destruct (body h) as [[[a|err] h1] e1]; cbn [fst snd] in *; [done|].
  destruct Hb as [Hp1 Hq1]. specialize (Hh err h1 Hp1). unfold hookOf, effectsOf in Hh.
  destruct (handler err h1) as [[r h2] e2]; cbn [fst snd] in *. destruct Hh as [Hp2 Hq2].
  split; [done|]. by apply Forall_app.
Qed.

Lemma keeps_finally {A : Type} (body : M A) fin :
  keeps P Q body -> keeps P Q fin -> keeps P Q (finally body fin).
Proof.
  intros Hb Hf h Hp. specialize (Hb h Hp). unfold finally, hookOf, effectsOf in *.
  destruct (body h) as [[r h1] e1]; cbn [fst snd] in *.
  destruct Hb as [Hp1 Hq1]. specialize (Hf h1 Hp1). unfold hookOf, effectsOf in Hf.
  destruct (fin h1) as [[[u|err] h2] e2]; cbn [fst snd] in *; destruct Hf as [Hp2 Hq2];
    (split; [done|]); by apply Forall_app.
Qed.

End Keeps.

(** One step of a proof that a piece of the hook's code keeps a property:
    the shape of the code decides. *)
Ltac keeps_step :=
  lazymatch goal with
  | |- keeps _ _ (bind _ _) => apply keeps_bind; [|intros ?]
  | |- keeps _ _ (ret _) => apply keeps_ret
  | |- keeps _ _ (throw _) => apply keeps_throw
  | |- keeps _ _ (gets _) => apply keeps_gets
  | |- keeps _ _ (await _) => apply keeps_await
  | |- keeps _ _ (when _ _) => apply keeps_when
  | |- keeps _ _ (emit _) => apply keeps_emit; try exact I; try done
  | |- keeps _ _ (modify _) => apply keeps_modify; intros ? ?; try done
  | |- keeps _ _ (tryCatch _ _) => apply keeps_tryCatch; [|intros ?]
  | |- keeps _ _ (finally _ _) => apply keeps_finally
  | |- keeps _ _ (match ?x with _ => _ end) => destruct x
  | |- keeps _ _ (if ?x then _ else _) => destruct x
  end.

Ltac keeps_all := repeat keeps_step.

Ltac hook_ops :=
  unfold startRecording, startRecording_async, startRecording_try, startRecording_catch,
    startRecording_sync, acquireFeeds, composeStreams, compositeStream,
    initStreamToDisk, startMediaRecorder,
    step, tick, render, deliverStop, onstop, pauseRecording, resumeRecording,
    runEffects, durationTimerEffect, gifAutoStopEffect, licenseLimitEffect,
    stopRecording, cleanupStreams, stopStream, stopCanvas, clearFrameBuffer,
    setRecordingDuration, setIsRecording, setIsPaused, setIsProcessingRef,
    setIsExporting, setExportProgress, setTargetFrameRate.

Lemma unfed_commit fuel w : keeps unfed anyEffect (commit fuel w).
Proof.
  induction fuel as [|fuel IH]; [apply keeps_ret|].
  cbn [commit]. apply keeps_bind; [|intros _; apply keeps_bind; [apply keeps_gets|]].
  - hook_ops. keeps_all.
  - intros []; [apply keeps_ret | exact IH].
Qed.


Lemma unfed_step w ev : keeps unfed anyEffect (step w ev).
Proof.
  pose proof (unfed_commit 2 w) as Hrender.
  destruct ev; cbn [step]; unfold tick; fold (render w) in Hrender.
  all: repeat (apply keeps_bind; [|intros ?]); try exact Hrender.
  all: hook_ops; keeps_all.
Qed.

Lemma unfed_startRecording w env sourceId region :
  keeps unfed anyEffect (startRecording w env sourceId region).
Proof.
  hook_ops. keeps_all.
  all: unfold unfed in *; cbn in *; try done.
  all: by destruct (frameBufferRef (refs _)).
Qed.

(** The check does nothing on a buffer that was never fed. *)
Lemma checkPerformance_unfed frameCount actualFps h :
  unfed h -> checkPerformance frameCount actualFps h = (Ok tt, h, []).
Proof.
  unfold unfed, checkPerformance. rewrite bind_gets.
  destruct (frameBufferRef (refs h)) as [b|]; [|done].
  intros Hz. unfold FrameBuffer.dropRate. rewrite Hz. cbn.
  by rewrite andb_false_r.
Qed.

Lemma unfed_act w a : keeps unfed anyEffect (act w a).
Proof.
  pose proof (unfed_commit 2 w) as Hrender.
  destruct a as [env sourceId region|ev|frameCount actualFps]; cbn [act].
  - apply keeps_bind; [apply unfed_startRecording | intros _; exact Hrender].
  - apply unfed_step.
  - apply keeps_bind; [|intros _; exact Hrender].
    intros h Hp. by rewrite checkPerformance_unfed.
Qed.

Lemma unfed_session w acts : keeps unfed anyEffect (session w acts).
Proof.
  induction acts as [|a acts IH]; [apply keeps_ret|].
  cbn [session]. apply keeps_bind; [apply unfed_act | intros _; exact IH].
Qed.

(** X17: nothing in the hook ever adds a frame to its frame buffer.  After
    any run of starts, events and performance checks on a mounted hook the
    buffer, if there is one, has received nothing, its drop rate is 0, and
    the draw loop's performance check therefore changes nothing: it never
    lowers [targetFrameRate]. *)
Theorem checkPerformance_inert (w : World) (s : Settings) (fps : Z)
    (acts : list Action) (frameCount actualFps : Z) :
  let h := hookOf (session w acts (mount s fps)) in
  unfed h
  /\ (forall b, frameBufferRef (refs h) = Some b -> FrameBuffer.dropRate b = 0%Q)
  /\ checkPerformance frameCount actualFps h = (Ok tt, h, []).
Proof.
  intros h.
  assert (Hu : unfed h) by (by apply (unfed_session w acts (mount s fps))).
  split; [done|]. split; [|by apply checkPerformance_unfed].
  intros b Hb. unfold unfed in Hu. rewrite Hb in Hu.
  unfold FrameBuffer.dropRate. by rewrite Hu.
Qed.

End RecorderFacts.

Module MainFacts.
Import Ipc Main.

(** ** Stream copy or re-encoding *)

(** When the probe gave no stream list nothing is known, and nothing is
    copied. *)
Lemma useStreamCopy_spec probe :
  useStreamCopy probe
  = isCodec "h264" (videoCodecOf probe)
    && (isCodec "aac" (audioCodecOf probe) || isCodec "mp3" (audioCodecOf probe)
        || negb (truthy (audioCodecOf probe))).
Proof.
  unfold useStreamCopy, videoCodecOf, audioCodecOf.
  by destruct (probedStreams probe).
Qed.

(** The three pairs of preset and CRF the tiers give. *)
Lemma recommended_settings darwin cores :
  (getRecommendedPreset darwin cores = "medium" /\ getRecommendedCRF darwin cores = 18)
  \/ (getRecommendedPreset darwin cores = "fast" /\ getRecommendedCRF darwin cores = 20)
  \/ (getRecommendedPreset darwin cores = "slow" /\ getRecommendedCRF darwin cores = 16).
Proof.
  unfold getRecommendedPreset, getRecommendedCRF, getPerformanceTier.
  destruct darwin, (cores <? 4), (cores <? 8); auto.
Qed.

(** C7 (as amended): for an MP4 destination the whole file is stream-copied
    ([-c copy]) exactly when the probed video codec is H.264 and the audio
    codec is AAC, MP3 or absent.  Otherwise each track is decided on its
    own: the video track is copied exactly when it is H.264, the audio track
    exactly when it is AAC or MP3.  A video track that is not copied is
    encoded with libx264, the preset and CRF of the hardware tier and the
    fixed x264 parameters, at 30 frames per second; an audio track that is
    not copied (an absent one next to a video that is not H.264 included)
    gets AAC at 192k, 48 kHz, two channels. *)
Theorem mp4_copy_decision (probe : option Metadata) (darwin : bool) (cores : Z) :
  let preset := getRecommendedPreset darwin cores in
  let crf := getRecommendedCRF darwin cores in
  let opts := mp4OutputOptions probe preset crf in
  let videoCodec := videoCodecOf probe in
  let audioCodec := audioCodecOf probe in
  let h264 := isCodec "h264" videoCodec in
  let compatible := isCodec "aac" audioCodec || isCodec "mp3" audioCodec in
  hasOption "-c" "copy" opts = h264 && (compatible || negb (truthy audioCodec))
  /\ copiesVideo opts = h264
  /\ copiesAudio opts = compatible || (h264 && negb (truthy audioCodec))
  /\ (copiesVideo opts = false ->
      hasOption "-c:v" "libx264" opts = true
      /\ hasOption "-preset" preset opts = true
      /\ hasOption "-crf" (pretty crf) opts = true
      /\ hasOption "-x264-params" x264Params opts = true
      /\ hasOption "-r" "30" opts = true)
  /\ (copiesAudio opts = false ->
      hasOption "-c:a" "aac" opts = true
      /\ hasOption "-b:a" "192k" opts = true
      /\ hasOption "-ar" "48000" opts = true
      /\ hasOption "-ac" "2" opts = true).
Proof.
  cbn zeta.
  destruct (recommended_settings darwin cores) as [[-> ->]|[[-> ->]|[-> ->]]];
    unfold copiesVideo, copiesAudio, mp4OutputOptions, videoOptions, audioOptions;
    rewrite useStreamCopy_spec;
    destruct (isCodec "h264" (videoCodecOf probe)),
             (isCodec "aac" (audioCodecOf probe)),
             (isCodec "mp3" (audioCodecOf probe)),
             (truthy (audioCodecOf probe));
    vm_compute; repeat split; congruence.
Qed.

(** An H.264 file with AAC audio is copied whole; the same video with Opus
    audio keeps its video and gets its audio encoded. *)
Lemma mp4_copy_decision_witness :
  let h264 := {| codec_type := Some "video"; codec_name := Some "h264" |} in
  let aac := {| codec_type := Some "audio"; codec_name := Some "aac" |} in
  let opus := {| codec_type := Some "audio"; codec_name := Some "opus" |} in
  let copied := Some {| streams := Some [h264; aac]; duration := 10%Q |} in
  let mixed := Some {| streams := Some [h264; opus]; duration := 10%Q |} in
  hasOption "-c" "copy" (mp4OutputOptions copied "slow" 16) = true
  /\ hasOption "-c" "copy" (mp4OutputOptions mixed "slow" 16) = false
  /\ copiesVideo (mp4OutputOptions mixed "slow" 16) = true
  /\ hasOption "-b:a" "192k" (mp4OutputOptions mixed "slow" 16) = true.
Proof.
  intros h264 aac opus copied mixed.
  destruct (mp4_copy_decision copied false 8) as (Hwhole & _).
  destruct (mp4_copy_decision mixed false 8) as (Hpart & Hvideo & Haudio & _ & Hencode).
  split; [exact Hwhole|]. split; [exact Hpart|]. split; [exact Hvideo|].
  exact (proj1 (proj2 (Hencode Haudio))).
Defined.

(** VP8 video without an audio track: the audio options are those of a
    re-encoding, although no audio track was probed. *)
Lemma audio_not_copied_without_audio_track :
  let opts := mp4OutputOptions (Some vp8Silent) "medium" 18 in
  audioCodecOf (Some vp8Silent) = None
  /\ copiesAudio opts = false
  /\ hasOption "-c:a" "aac" opts = true.
Proof. vm_compute. by repeat split. Qed.

(** ** The result of stop-recording-stream *)

Lemma runFfmpeg_keeps env filePath onEvent lastProgress m m2 sent :
  runFfmpeg env filePath onEvent lastProgress m = (Resolved m2, sent) ->
  files m ⊆ files m2 /\ recordingWriteStream m2 = recordingWriteStream m.
Proof.
  unfold runFfmpeg. destruct (ffmpegResult env); [|done].
  intros Heq. injection Heq as <- _. cbn. split; [|done].
  intros p Hp. apply elem_of_union. by right.
Qed.

Lemma copyFile_keeps env src dst m m2 :
  copyFile env src dst m = Resolved m2 ->
  files m ⊆ files m2 /\ recordingWriteStream m2 = recordingWriteStream m.
Proof.
  unfold copyFile. destruct (bool_decide _); [|done].
  destruct (copyResult env); [|done]. intros Heq. injection Heq as <-. cbn.
  split; [|done]. intros p Hp. apply elem_of_union. by right.
Qed.

(** A finished export leaves every earlier file in place and does not
    reopen the stream. *)
Lemma export_keeps env format tempInput filePath m m2 sent :
  export env format tempInput filePath m = (Resolved m2, sent) ->
  files m ⊆ files m2 /\ recordingWriteStream m2 = recordingWriteStream m.
Proof.
  unfold export. destruct format.
  - destruct (endsWith filePath ".webm" && endsWith tempInput ".webm").
    { intros Heq. injection Heq as H _. by apply copyFile_keeps in H. }
    destruct (endsWith filePath ".mp4").
    + destruct (runFfmpeg _ _ _ _ _) as [r s] eqn:Hrun.
      intros Heq. injection Heq as -> _. by apply runFfmpeg_keeps in Hrun.
    + intros Heq. injection Heq as H _. by apply copyFile_keeps in H.
  - destruct (runFfmpeg _ _ _ _ _) as [r s] eqn:Hrun.
    intros Heq. injection Heq as -> _. by apply runFfmpeg_keeps in Hrun.
Qed.

Lemma unlink_present p m :
  p ∈ files m -> unlink p m = Resolved (withFiles (files m ∖ {[ p ]}) m).
Proof. intros Hp. unfold unlink. by rewrite bool_decide_eq_true_2. Qed.

Lemma removed p (fs : gset string) : p ∉ fs ∖ {[ p ]}.
Proof. intros Hin. apply elem_of_difference in Hin as [_ Hne]. apply Hne. by apply elem_of_singleton. Qed.

(** How an export ends: as ffmpeg does when the destination goes through
    it, as the copy does otherwise. *)
Lemma export_outcome env format tempInput filePath m :
  tempInput ∈ files m ->
  (export env format tempInput filePath m).1
  = match (if match format with
              | gif => true
              | mp4 => negb (endsWith filePath ".webm" && endsWith tempInput ".webm")
                       && endsWith filePath ".mp4"
              end
           then ffmpegResult env else copyResult env) with
    | Resolved _ => Resolved (withFiles ({[ filePath ]} ∪ files m) m)
    | Rejected err => Rejected err
    end.
Proof.
  intros Hin.
  assert (Hcopy : copyFile env tempInput filePath m
                  = match copyResult env with
                    | Resolved _ => Resolved (withFiles ({[ filePath ]} ∪ files m) m)
                    | Rejected err => Rejected err
                    end).
  { unfold copyFile. by rewrite bool_decide_eq_true_2. }
  unfold export. destruct format.
  - destruct (endsWith filePath ".webm" && endsWith tempInput ".webm"); [exact Hcopy|].
    destruct (endsWith filePath ".mp4"); cbn [negb andb fst]; [|exact Hcopy].
    unfold runFfmpeg. by destruct (ffmpegResult env).
  - unfold runFfmpeg. by destruct (ffmpegResult env).
Qed.

(** C8: with a stream open on an existing temporary file,
    [stop-recording-stream] answers with exactly one of the three shapes
    [{success:true, path}], [{success:false, error}] and
    [{success:false, canceled:true}].  The answer is the cancelled one
    exactly when the save dialog was declined, and the temporary file is
    gone afterwards exactly when the answer is the success or the cancelled
    one: after a failed export it is still there.  When the dialog is not
    declined the answer follows the export: a GIF, or an MP4 recording
    saved to a ".mp4" path (the WebM-to-WebM case apart), goes through
    ffmpeg, every other destination is a copy of the file; if that step is
    rejected the answer is the failure carrying its error and no file is
    touched, and if it resolves the answer is the success with the chosen
    path, the destination is written and the temporary file removed. *)
Theorem stopRecordingStream_result (env : StopEnv) (format : SaveFormat)
    (m : State) (stream tempInput : string) :
  recordingWriteStream m = Some stream ->
  recordingTempPath m = Some tempInput ->
  tempInput ∈ files m ->
  let '(res, m', sent) := stopRecordingStream env format m in
  let succeeded := exists p,
    res = {| success := true; path := Some p; error := None; canceled := None |} in
  let failed := exists err, res = failure err in
  let cancelled :=
    res = {| success := false; path := None; error := None; canceled := Some true |} in
  ((succeeded /\ ~ failed /\ ~ cancelled)
   \/ (~ succeeded /\ failed /\ ~ cancelled)
   \/ (~ succeeded /\ ~ failed /\ cancelled))
  /\ (cancelled <-> declined env = true)
  /\ (tempInput ∉ files m' <-> succeeded \/ cancelled)
  /\ recordingWriteStream m' = None
  /\ (declined env = true -> files m' = files m ∖ {[ tempInput ]})
  /\ (declined env = false ->
      let filePath := dialogFilePath env in
      let transcodes :=
        match format with
        | gif => true
        | mp4 => negb (endsWith filePath ".webm" && endsWith tempInput ".webm")
                 && endsWith filePath ".mp4"
        end in
      match (if transcodes then ffmpegResult env else copyResult env) with
      | Resolved _ =>
          res = {| success := true; path := Some filePath; error := None; canceled := None |}
          /\ files m' = ({[ filePath ]} ∪ files m) ∖ {[ tempInput ]}
      | Rejected err =>
          res = failure err /\ files m' = files m
      end).
Proof.
  intros Hstream Htemp Hfile. unfold stopRecordingStream. rewrite Hstream. cbn.
  rewrite Htemp. destruct (declined env) eqn:Hdecl.
  - rewrite unlink_present by done. cbn.
    split; [|split; [|split; [|split; [|split]]]]; try done.
    + right; right. split; [by intros [p Hp]|]. split; [by intros [e He] | done].
    + split; [intros _; by right | intros _; apply removed].
  - set (m1 := {| recordingWriteStream := None; recordingTempPath := Some tempInput;
                  files := files m |}).
    pose proof (export_outcome env format tempInput (dialogFilePath env) m1 Hfile) as Hout.
    destruct (export env format tempInput (dialogFilePath env) m1)
      as [[m2|err] sent] eqn:Hexp; cbn [fst] in Hout.
    + destruct (export_keeps _ _ _ _ _ _ _ Hexp) as [Hsub Hclosed].
      rewrite unlink_present by (by apply Hsub). cbn.
      split; [|split; [|split; [|split; [|split]]]]; try done.
      * left. split; [by eexists|]. split; [by intros [e He] | done].
      * split; [intros _; left; by eexists | intros _; apply removed].
      * intros _. cbn zeta.
        match type of Hout with _ = match ?c with _ => _ end => destruct c end; [|done].
        injection Hout as ->. by cbn.
    + cbn. split; [|split; [|split; [|split; [|split]]]]; try done.
      * right; left. split; [by intros [p Hp]|]. split; [by eexists | done].
      * split; [intros Hnot; by destruct Hnot | intros [[p Hp]|Hc]; done].
      * intros _. cbn zeta.
        match type of Hout with _ = match ?c with _ => _ end => destruct c end; [done|].
        by injection Hout as ->.
Qed.

(** The recording of the examples, with the save dialog declined; and the
    same recording saved as MP4 when ffmpeg fails. *)
Lemma stopRecordingStream_result_witness :
  let env := {| dialogCanceled := true; dialogFilePath := "";
                probe := None; events := []; ffmpegResult := Resolved tt;
                copyResult := Resolved tt; cores := 8; darwin := false |} in
  let failing := {| dialogCanceled := false; dialogFilePath := "/home/user/recording.mp4";
                    probe := None; events := [];
                    ffmpegResult := Rejected "ffmpeg exited with code 1";
                    copyResult := Resolved tt; cores := 8; darwin := false |} in
  (let '(res, m', sent) := stopRecordingStream env mp4 demoRecording in
   res = {| success := false; path := None; error := None; canceled := Some true |}
   /\ demoTemp ∉ files m')
  /\ (let '(res, m', sent) := stopRecordingStream failing mp4 demoRecording in
      res = failure "ffmpeg exited with code 1" /\ demoTemp ∈ files m').
Proof.
  intros env failing.
  assert (Hfile : demoTemp ∈ files demoRecording).
  { apply elem_of_union. left. by apply elem_of_singleton. }
  split.
  - pose proof (stopRecordingStream_result env mp4 demoRecording demoTemp demoTemp
                  eq_refl eq_refl Hfile) as H.
    destruct (stopRecordingStream env mp4 demoRecording) as [[res m'] sent] eqn:Hrun.
    destruct H as (_ & Hcancel & Hgone & _).
    assert (Hres : res = {| success := false; path := None; error := None;
                            canceled := Some true |}) by (by apply Hcancel).
    split; [exact Hres|]. apply Hgone. by right.
  - pose proof (stopRecordingStream_result failing mp4 demoRecording demoTemp demoTemp
                  eq_refl eq_refl Hfile) as H.
    destruct (stopRecordingStream failing mp4 demoRecording) as [[res m'] sent] eqn:Hrun.
    destruct H as (_ & _ & _ & _ & _ & Hexport).
    destruct (Hexport eq_refl) as [Hres Hfiles].
    split; [exact Hres|]. rewrite Hfiles. exact Hfile.
Defined.

(** What [start-recording-stream] leaves behind is what the theorem above
    asks for. *)
Lemma startRecordingStream_opens tmpdir now m :
  let '(res, m') := startRecordingStream tmpdir now m in
  exists tempInput,
    path res = Some tempInput
    /\ recordingWriteStream m' = Some tempInput
    /\ recordingTempPath m' = Some tempInput
    /\ tempInput ∈ files m'.
Proof.
  cbn. eexists. repeat split. apply elem_of_union. left. by apply elem_of_singleton.
Qed.

(** ** Progress events *)

Lemma clamp_range (lo hi v : Q) : (lo <= hi)%Q -> (lo <= Qmin hi (Qmax lo v) <= hi)%Q.
Proof.
  intros Hle. split.
  - apply Q.min_glb; [done | apply Q.le_max_l].
  - apply Q.le_min_l.
Qed.

(** [Math.min(hi, Math.max(lo, p))] brings every number but NaN into
    [lo, hi]; NaN stays NaN. *)
Lemma clamp_within (lo hi : Q) (p : Number) :
  (lo <= hi)%Q ->
  match p with
  | NaN => mathMin (Num hi) (mathMax (Num lo) p) = NaN
  | _ => within lo hi (mathMin (Num hi) (mathMax (Num lo) p))
  end.
Proof.
  intros Hle. destruct p as [q| | |]; cbn; [by apply clamp_range| | |done].
  - split; [done | apply Qle_refl].
  - split; [apply Q.min_glb; [done | apply Qle_refl] | apply Q.le_min_l].
Qed.

(** ffmpeg's own percentage, when it is not NaN, is sent clamped to [5,95]
    by the GIF job ... *)
Lemma gifProgress_native_clamped inputDuration p timemark lastProgress :
  p <> NaN ->
  exists v,
    gifProgress inputDuration (Progress (Some p) timemark) lastProgress = (v, [v])
    /\ within 5 95 v.
Proof.
  intros Hp. eexists. split; [reflexivity|].
  pose proof (clamp_within 5 95 p) as H. destruct p; try done; by apply H.
Qed.

Lemma round_range (a b : Z) (v : Q) :
  (inject_Z a <= v <= inject_Z b)%Q -> (inject_Z a <= round v <= inject_Z b)%Q.
Proof.
  intros [Ha Hb]. unfold round. rewrite <- !Zle_Qle. split.
  - rewrite <- (Qfloor_Z a). apply Qfloor_resp_le. lra.
  - assert (H : (inject_Z (Qfloor (v + (1 # 2))) <= v + (1 # 2))%Q) by apply Qfloor_le.
    assert (H2 : (inject_Z (Qfloor (v + (1 # 2))) < inject_Z (b + 1))%Q).
    { rewrite inject_Z_plus. change (inject_Z 1) with 1%Q. lra. }
    rewrite <- Zlt_Qlt in H2. lia.
Qed.

(** Rounding a number of a range with whole ends leaves it in the range,
    and makes it whole. *)
Lemma mathRound_within (a b : Z) (v : Number) :
  within (inject_Z a) (inject_Z b) v ->
  within (inject_Z a) (inject_Z b) (mathRound v) /\ isInteger (mathRound v).
Proof.
  destruct v as [q| | |]; cbn; try done. intros H. split; [by apply round_range | by eexists].
Qed.

(** ... and clamped to [10,95], then rounded, by the MP4 job. *)
Lemma mp4Progress_native_clamped copy tier actualDuration p timemark lastProgress :
  p <> NaN ->
  exists v,
    mp4Progress copy tier actualDuration (Progress (Some p) timemark) lastProgress
      = (v, [mathRound v])
    /\ within 10 95 v
    /\ isInteger (mathRound v).
Proof.
  intros Hp. eexists. split; [reflexivity|].
  pose proof (clamp_within 10 95 p) as H.
  assert (Hw : within 10 95 (mathMin (Num 95) (mathMax (Num 10) p)))
    by (destruct p; try done; by apply H).
  split; [done|]. by apply (mathRound_within 10 95).
Qed.

(** A percentage that is NaN is sent as it is by both jobs, and becomes
    their [lastProgress]. *)
Lemma nan_percent_sent inputDuration copy tier actualDuration timemark lastProgress :
  gifProgress inputDuration (Progress (Some NaN) timemark) lastProgress = (NaN, [NaN])
  /\ mp4Progress copy tier actualDuration (Progress (Some NaN) timemark) lastProgress
     = (NaN, [NaN]).
Proof. by split. Qed.

(** C9, at a GIF export during which the fallback interval fires twice and
    ffmpeg then reports 12.5 percent: the export succeeds and the values
    sent are 5, 10, 15, 12.5, 100.  The sequence goes down from 15 to 12.5,
    and 12.5 is not an integer. *)
Theorem gif_progress_goes_back :
  let '(res, _, sent) := stopRecordingStream gifExport gif demoRecording in
  success res = true
  /\ sent = Num <$> [5; 10; 15; 25 # 2; 100]%Q
  /\ ~ nonDecreasing sent
  /\ ~ Forall isInteger sent.
Proof.
  assert (Hrun : (stopRecordingStream gifExport gif demoRecording).2
                 = Num <$> [5; 10; 15; 25 # 2; 100]%Q) by (vm_compute; reflexivity).
  assert (Hok : success (stopRecordingStream gifExport gif demoRecording).1.1 = true)
    by (vm_compute; reflexivity).
  destruct (stopRecordingStream gifExport gif demoRecording) as [[res m'] sent].
  cbn in Hrun, Hok. subst sent. split; [done|]. split; [done|]. split.
  - cbn. unfold Qle. cbn. lia.
  - intros Hall. cbn in Hall. rewrite !Forall_cons in Hall.
    destruct Hall as (_ & _ & _ & [z Hz] & _). unfold Qeq in Hz. cbn in Hz. lia.
Qed.

(** The MP4 job can go back as well: the [start] event sends 15, and a
    first report of 3 percent is sent as 10. *)
Lemma mp4_progress_goes_back :
  let '(res, _, sent) := stopRecordingStream mp4Export mp4 demoRecording in
  success res = true
  /\ sent = Num <$> [5; 10; 15; 10; 100]%Q
  /\ ~ nonDecreasing sent.
Proof.
  assert (Hrun : (stopRecordingStream mp4Export mp4 demoRecording).2
                 = Num <$> [5; 10; 15; 10; 100]%Q) by (vm_compute; reflexivity).
  assert (Hok : success (stopRecordingStream mp4Export mp4 demoRecording).1.1 = true)
    by (vm_compute; reflexivity).
  destruct (stopRecordingStream mp4Export mp4 demoRecording) as [[res m'] sent].
  cbn in Hrun, Hok. subst sent. split; [done|]. split; [done|].
  cbn. unfold Qle. cbn. lia.
Qed.

(** ** The range of the progress values *)

Lemma Qltb_lt a b : Qltb a b = true -> (a < b)%Q.
Proof.
  unfold Qltb. intros H. apply negb_true_iff in H.
  apply Qnot_le_lt. intros Hle. apply Qle_bool_iff in Hle. congruence.
Qed.

Lemma within_weaken (lo hi lo' hi' : Q) (v : Number) :
  (lo' <= lo)%Q -> (hi <= hi')%Q -> within lo hi v -> within lo' hi' v.
Proof. destruct v; cbn; try done. intros ? ? [? ?]. split; lra. Qed.

(** The GIF job, fed numbers, keeps [lastProgress] in [5,95] and sends
    nothing outside. *)
Lemma gifProgress_running inputDuration ev lastProgress :
  numeric ev -> running lastProgress ->
  running (fst (gifProgress inputDuration ev lastProgress))
  /\ Forall running (snd (gifProgress inputDuration ev lastProgress)).
Proof.
  unfold running. intros Hev Hl.
  assert (H595 : (5 <= 95)%Q) by (by vm_compute).
  destruct ev as [elapsed| |[p|] [tm|]]; cbn [gifProgress fst snd]; try (by split).
  - destruct lastProgress as [l| | |]; try done. cbn [lessThan plus].
    destruct (Qltb l 90) eqn:Hlt; cbn [fst snd]; [|by split].
    apply Qltb_lt in Hlt. cbn in Hl.
    assert (within 5 95 (Num (l + 5))) by (cbn; lra).
    split; [done|]. by apply Forall_singleton.
  - pose proof (clamp_within 5 95 p H595) as H. destruct p; try done;
      (split; [done | by apply Forall_singleton]).
  - pose proof (clamp_within 5 95 p H595) as H. destruct p; try done;
      (split; [done | by apply Forall_singleton]).
  - destruct (Qltb 0 inputDuration); cbn [fst snd]; [|by split].
    pose proof (clamp_within 5 95 (Num (secondsOf tm / inputDuration * 100)) H595) as H.
    split; [done | by apply Forall_singleton].
Qed.

(** The MP4 job, fed numbers, keeps [lastProgress] in [10,95] and sends
    whole numbers of that range. *)
Lemma mp4Progress_running copy tier actualDuration ev lastProgress :
  numeric ev -> mp4Running lastProgress ->
  mp4Running (fst (mp4Progress copy tier actualDuration ev lastProgress))
  /\ Forall (fun v => mp4Running v /\ isInteger v)
            (snd (mp4Progress copy tier actualDuration ev lastProgress)).
Proof.
  unfold mp4Running. intros Hev Hl.
  assert (H1095 : (10 <= 95)%Q) by (by vm_compute).
  assert (H1090 : (10 <= 90)%Q) by (by vm_compute).
  assert (Hround : forall v, within 10 95 v ->
            within 10 95 (mathRound v) /\ isInteger (mathRound v))
    by (intros v; apply (mathRound_within 10 95)).
  destruct ev as [elapsed| |[p|] [tm|]]; cbn [mp4Progress fst snd]; try (by split).
  - destruct lastProgress as [l| | |]; try done. cbn in Hl. destruct copy.
    + cbn [lessThan]. destruct (Qltb l 95); cbn [fst snd]; [|by split].
      split; [by vm_compute|]. apply Forall_singleton. split; [by vm_compute | by exists 95%Z].
    + cbn zeta.
      set (t := mathMin (Num 90) (mathMax (Num 10) _)).
      assert (Ht : within 10 90 t) by (by apply (clamp_within 10 90 (Num _))).
      assert (Ht' : within 10 95 t) by (apply (within_weaken 10 90); [lra | by vm_compute | done]).
      destruct (lessThan (Num l) t); cbn [fst snd].
      * split; [done|]. apply Forall_singleton. by apply Hround.
      * cbn [lessThan plus]. destruct (Qltb l 50) eqn:Hlt; cbn [fst snd]; [|by split].
        apply Qltb_lt in Hlt.
        assert (within 10 95 (Num (l + 3))) by (cbn; lra).
        split; [done|]. apply Forall_singleton. by apply Hround.
  - split; [done|]. apply Forall_singleton. split; [by vm_compute | by exists 15%Z].
  - pose proof (clamp_within 10 95 p H1095) as H. destruct p; try done;
      (split; [done|]; apply Forall_singleton; by apply Hround).
  - pose proof (clamp_within 10 95 p H1095) as H. destruct p; try done;
      (split; [done|]; apply Forall_singleton; by apply Hround).
  - destruct (Qltb 0 actualDuration); cbn [fst snd]; [|by split].
    pose proof (clamp_within 10 95 (Num (secondsOf tm / actualDuration * 100)) H1095) as H.
    split; [done|]. apply Forall_singleton. by apply Hround.
Qed.

Lemma sentDuring_Forall (I P : Number -> Prop) onEvent :
  (forall ev last, numeric ev -> I last ->
     I (fst (onEvent ev last)) /\ Forall P (snd (onEvent ev last))) ->
  forall events last, Forall numeric events -> I last ->
    Forall P (sentDuring onEvent events last).
Proof.
  intros Hstep events. induction events as [|ev rest IH]; intros last Hev Hl; [done|].
  apply Forall_cons in Hev as [Hev Hrest].
  cbn [sentDuring]. specialize (Hstep ev last Hev Hl).
  destruct (onEvent ev last) as [next sent]. cbn in Hstep. destruct Hstep as [Hn Hs].
  apply Forall_app. split; [done | by apply IH].
Qed.

Lemma running_displayable v : running v -> displayable v.
Proof. apply within_weaken; [apply Qle_refl | by vm_compute]. Qed.

Lemma mp4Running_running v : mp4Running v -> running v.
Proof. apply within_weaken; [by vm_compute | apply Qle_refl]. Qed.

Lemma Forall_running_displayable l : Forall running l -> Forall displayable l.
Proof. intros H. eapply Forall_impl; [exact H | apply running_displayable]. Qed.

(** What a finished export has sent when every percentage reported was a
    number: values of [5,95] while it ran, whole numbers for an MP4
    destination, and 100 at the end exactly when it succeeded. *)
Lemma export_sent env format tempInput filePath m :
  Forall numeric (events env) ->
  exists during,
    Forall running during
    /\ (format = mp4 -> Forall isInteger during)
    /\ export env format tempInput filePath m
       = match (export env format tempInput filePath m).1 with
         | Resolved m2 => (Resolved m2, during ++ [Num 100])
         | Rejected err => (Rejected err, during)
         end.
Proof.
  intros Hnum.
  assert (H5 : running (Num 5)) by (split; by vm_compute).
  assert (H10 : running (Num 10)) by (split; by vm_compute).
  assert (H50 : running (Num 50)) by (split; by vm_compute).
  assert (Hcopy : forall m0,
    exists during,
      Forall running during
      /\ Forall isInteger during
      /\ (copyFile env tempInput filePath m0,
           [Num 5; Num 50]
           ++ (if bool_decide (is_Some (resolved (copyFile env tempInput filePath m0)))
               then [Num 100] else []))
         = match copyFile env tempInput filePath m0 with
           | Resolved m2 => (Resolved m2, during ++ [Num 100])
           | Rejected err => (Rejected err, during)
           end).
  { intros m0. exists [Num 5; Num 50]. split; [by repeat constructor|].
    split; [repeat constructor; [by exists 5%Z | by exists 50%Z]|].
    destruct (copyFile env tempInput filePath m0); [|done].
    by rewrite bool_decide_eq_true_2. }
  unfold export. destruct format.
  - destruct (endsWith filePath ".webm" && endsWith tempInput ".webm").
    { destruct (Hcopy m) as (during & Hr & Hi & Heq). exists during. cbn [fst].
      split; [done|]. split; [done|]. rewrite Heq. by destruct (copyFile _ _ _ _). }
    destruct (endsWith filePath ".mp4").
    + set (onEvent := mp4Progress _ _ _).
      assert (Hall : Forall (fun v => mp4Running v /\ isInteger v)
                       (sentDuring onEvent (events env) (Num 10))).
      { apply (sentDuring_Forall mp4Running); [apply mp4Progress_running | done |].
        split; by vm_compute. }
      exists ([Num 5; Num 10] ++ sentDuring onEvent (events env) (Num 10)).
      split; [|split].
      * apply Forall_app. split; [by repeat constructor|].
        eapply Forall_impl; [exact Hall|]. intros v [Hv _]. by apply mp4Running_running.
      * intros _. apply Forall_app.
        split; [repeat constructor; [by exists 5%Z | by exists 10%Z]|].
        eapply Forall_impl; [exact Hall|]. by intros v [_ Hv].
      * unfold runFfmpeg. destruct (ffmpegResult env); cbn; [|done].
        by rewrite <- ?app_assoc.
    + destruct (Hcopy m) as (during & Hr & Hi & Heq). exists during. cbn [fst].
      split; [done|]. split; [done|]. rewrite Heq. by destruct (copyFile _ _ _ _).
  - set (onEvent := gifProgress _).
    exists ([Num 5] ++ sentDuring onEvent (events env) (Num 5)). split; [|split; [done|]].
    + apply Forall_app. split; [by repeat constructor|].
      apply (sentDuring_Forall running); [apply gifProgress_running | done | done].
    + unfold runFfmpeg. destruct (ffmpegResult env); cbn; [|done].
      by rewrite <- ?app_assoc.
Qed.

Lemma displayable_100 : displayable (Num 100).
Proof. split; by vm_compute. Qed.

(** X18: as long as no percentage reported by ffmpeg is NaN, every
    [export-progress] value sent by [stop-recording-stream] is a number
    between 5 and 100, whatever else ffmpeg reports (negative, huge or
    infinite percentages, any time mark) and however often the fallback
    interval fires; for an MP4 destination every value is a whole number;
    when the save dialog is declined nothing is sent.  A percentage that is
    NaN is not covered: both progress handlers send it on as NaN. *)
Theorem export_progress_range (env : StopEnv) (format : SaveFormat) (m : State) :
  Forall numeric (events env) ->
  let '(res, _, sent) := stopRecordingStream env format m in
  Forall displayable sent
  /\ (format = mp4 -> Forall isInteger sent)
  /\ (declined env = true -> sent = [])
  /\ (forall inputDuration copy tier actualDuration timemark lastProgress,
        gifProgress inputDuration (Progress (Some NaN) timemark) lastProgress = (NaN, [NaN])
        /\ mp4Progress copy tier actualDuration (Progress (Some NaN) timemark) lastProgress
           = (NaN, [NaN])).
Proof.
  intros Hnum.
  assert (Hnan : forall inputDuration copy tier actualDuration timemark lastProgress,
            gifProgress inputDuration (Progress (Some NaN) timemark) lastProgress = (NaN, [NaN])
            /\ mp4Progress copy tier actualDuration (Progress (Some NaN) timemark) lastProgress
               = (NaN, [NaN])) by (intros; apply nan_percent_sent).
  unfold stopRecordingStream.
  destruct (recordingWriteStream m); [|by repeat split].
  cbn [recordingTempPath].
  destruct (recordingTempPath m) as [tempInput|]; [|by repeat split].
  destruct (declined env); [by repeat split|].
  set (m1 := {| recordingWriteStream := None; recordingTempPath := Some tempInput;
                files := files m |}).
  destruct (export_sent env format tempInput (dialogFilePath env) m1 Hnum)
    as (during & Hr & Hi & Heq).
  rewrite Heq. destruct (export env format tempInput (dialogFilePath env) m1).1 as [m2|err].
  - assert (Hall : Forall displayable (during ++ [Num 100])).
    { apply Forall_app. split; [by apply Forall_running_displayable|].
      apply Forall_singleton, displayable_100. }
    assert (Hint : format = mp4 -> Forall isInteger (during ++ [Num 100])).
    { intros Hf. apply Forall_app. split; [by apply Hi|]. apply Forall_singleton.
      by exists 100%Z. }
    by destruct (unlink tempInput m2).
  - split; [by apply Forall_running_displayable|]. by split.
Qed.

(** An MP4 export during which ffmpeg reports minus three percent, the
    fallback interval fires after two seconds, and ffmpeg then reports an
    infinite percentage. *)
Lemma export_progress_range_witness :
  let env := {| dialogCanceled := false; dialogFilePath := "/home/user/recording.mp4";
                probe := Some vp8Opus;
                events := [Started; Progress (Some (Num (-3))) None; Interval 2;
                           Progress (Some PosInfinity) None];
                ffmpegResult := Resolved tt; copyResult := Resolved tt;
                cores := 8; darwin := false |} in
  let '(res, _, sent) := stopRecordingStream env mp4 demoRecording in
  sent = Num <$> [5; 10; 15; 10; 24; 95; 100]%Q
  /\ Forall displayable sent
  /\ Forall isInteger sent.
Proof.
  intros env.
  assert (Hnum : Forall numeric (events env)) by (by repeat constructor).
  pose proof (export_progress_range env mp4 demoRecording Hnum) as H.
  assert (Hrun : (stopRecordingStream env mp4 demoRecording).2
                 = Num <$> [5; 10; 15; 10; 24; 95; 100]%Q) by (vm_compute; reflexivity).
  destruct (stopRecordingStream env mp4 demoRecording) as [[res m'] sent].
  cbn [snd] in Hrun. destruct H as (Hall & Hint & _).
  split; [exact Hrun|]. split; [exact Hall | exact (Hint eq_refl)].
Defined.

(** X19: with a stream open on an existing temporary file, and as long as
    no percentage reported by ffmpeg is NaN, the value 100 is sent by
    [stop-recording-stream] exactly when it answers success, and then as
    the last value; every value before it, and every value of a call that
    does not succeed, is a number between 5 and 95. *)
Theorem export_progress_completion (env : StopEnv) (format : SaveFormat)
    (m : State) (stream tempInput : string) :
  recordingWriteStream m = Some stream ->
  recordingTempPath m = Some tempInput ->
  tempInput ∈ files m ->
  Forall numeric (events env) ->
  let '(res, _, sent) := stopRecordingStream env format m in
  if success res
  then exists during, sent = during ++ [Num 100] /\ Forall running during
  else Forall running sent.
Proof.
  intros Hstream Htemp Hfile Hnum. unfold stopRecordingStream. rewrite Hstream. cbn.
  rewrite Htemp. destruct (declined env); [cbn; by constructor|].
  set (m1 := {| recordingWriteStream := None; recordingTempPath := Some tempInput;
                files := files m |}).
  destruct (export_sent env format tempInput (dialogFilePath env) m1 Hnum)
    as (during & Hr & Hi & Heq).
  destruct (export env format tempInput (dialogFilePath env) m1) as [[m2|err] sent] eqn:Hexp;
    cbn in Heq; injection Heq as ->; [|done].
  destruct (export_keeps _ _ _ _ _ _ _ Hexp) as [Hsub _].
  rewrite unlink_present by (by apply Hsub). cbn. by exists during.
Qed.

(** The GIF export of the examples. *)
Lemma export_progress_completion_witness :
  let '(res, _, sent) := stopRecordingStream gifExport gif demoRecording in
  if success res
  then exists during, sent = during ++ [Num 100] /\ Forall running during
  else Forall running sent.
Proof.
  apply (export_progress_completion gifExport gif demoRecording demoTemp demoTemp
           eq_refl eq_refl).
  - apply elem_of_union. left. by apply elem_of_singleton.
  - by repeat constructor.
Defined.

(** ** Streams and files *)

Lemma unlink_closed p m m' :
  unlink p m = Resolved m' -> recordingWriteStream m' = recordingWriteStream m.
Proof. unfold unlink. destruct (bool_decide _); [|done]. by intros [= <-]. Qed.

(** Whatever its answer, a stop leaves no stream open. *)
Lemma stopRecordingStream_closes env format m :
  recordingWriteStream (stopRecordingStream env format m).1.2 = None.
Proof.
  unfold stopRecordingStream.
  destruct (recordingWriteStream m) eqn:Hs; [|done].
  cbn [recordingTempPath].
  destruct (recordingTempPath m) as [tempInput|]; [|done].
  set (m1 := {| recordingWriteStream := None; recordingTempPath := Some tempInput;
                files := files m |}).
  destruct (declined env).
  { cbn. destruct (unlink tempInput m1) eqn:Hu; [|done].
    by rewrite (unlink_closed _ _ _ Hu). }
  destruct (export env format tempInput (dialogFilePath env) m1) as [[m2|err] sent] eqn:Hexp;
    [|done].
  destruct (export_keeps _ _ _ _ _ _ _ Hexp) as [_ Hclosed].
  destruct (unlink tempInput m2) eqn:Hu; cbn; [|done].
  by rewrite (unlink_closed _ _ _ Hu).
Qed.

(** X20: whatever it answers, [stop-recording-stream] leaves no stream
    open: afterwards [write-recording-chunk] answers false, and another
    [stop-recording-stream] answers "No active stream", sends nothing and
    changes nothing, until the next [start-recording-stream]. *)
Theorem stop_closes_stream (env next : StopEnv) (format format' : SaveFormat) (m : State) :
  let '(_, m', _) := stopRecordingStream env format m in
  recordingWriteStream m' = None
  /\ writeRecordingChunk m' = false
  /\ stopRecordingStream next format' m' = (failure "No active stream", m', []).
Proof.
  pose proof (stopRecordingStream_closes env format m) as Hclosed.
  destruct (stopRecordingStream env format m) as [[res m'] sent]. cbn in Hclosed.
  unfold writeRecordingChunk, stopRecordingStream. by rewrite Hclosed.
Qed.

Lemma append_cons c (s t : string) : String c s +:+ t = String c (s +:+ t).
Proof. reflexivity. Qed.

Lemma append_nil_r (s : string) : s +:+ "" = s.
Proof. induction s as [|c s IH]; [done|]. by rewrite append_cons, IH. Qed.

Lemma append_assoc (a b c : string) : a +:+ (b +:+ c) = (a +:+ b) +:+ c.
Proof. induction a as [|x a IH]; [done|]. by rewrite !append_cons, IH. Qed.

Lemma rev_app_append (a b acc : string) :
  String.rev_app (a +:+ b) acc = String.rev_app b (String.rev_app a acc).
Proof.
  revert acc. induction a as [|x a IH]; intros acc; [done|].
  rewrite append_cons. cbn [String.rev_app]. apply IH.
Qed.

Lemma rev_app_acc (a acc : string) : String.rev_app a acc = String.rev a +:+ acc.
Proof.
  unfold String.rev. revert acc. induction a as [|x a IH]; intros acc; [done|].
  cbn [String.rev_app]. rewrite (IH (String x "")), IH, <- append_assoc. done.
Qed.

Lemma rev_append (a b : string) : String.rev (a +:+ b) = String.rev b +:+ String.rev a.
Proof. unfold String.rev at 1. by rewrite rev_app_append, rev_app_acc. Qed.

Lemma prefix_app (a b : string) : String.prefix a (a +:+ b) = true.
Proof.
  induction a as [|c a IH]; [by destruct b|].
  rewrite append_cons. cbn [String.prefix].
  destruct (Ascii.ascii_dec c c); [done | congruence].
Qed.

Lemma endsWith_app (a suffix : string) : endsWith (a +:+ suffix) suffix = true.
Proof. unfold endsWith. rewrite rev_append. apply prefix_app. Qed.

(** The temporary file of [start-recording-stream] is a WebM file. *)
Lemma startRecordingStream_webm tmpdir now m :
  exists tempInput,
    recordingTempPath (snd (startRecordingStream tmpdir now m)) = Some tempInput
    /\ recordingWriteStream (snd (startRecordingStream tmpdir now m)) = Some tempInput
    /\ tempInput ∈ files (snd (startRecordingStream tmpdir now m))
    /\ endsWith tempInput ".webm" = true.
Proof.
  eexists. cbn. split; [reflexivity|]. split; [reflexivity|]. split.
  - apply elem_of_union. left. by apply elem_of_singleton.
  - rewrite !append_assoc. apply endsWith_app.
Qed.

(** X21: after [start-recording-stream], a [stop-recording-stream] for the
    MP4 format whose chosen destination ends in ".webm" converts nothing:
    the temporary file is copied.  If the copy succeeds the answer is
    success with the chosen path, the values sent are 5, 50, 100, and the
    destination has replaced the temporary file; if it fails the answer
    carries the error, the values sent are 5, 50, and the temporary file is
    still there.  What ffprobe reports, ffmpeg's events and ffmpeg's result
    play no part. *)
Theorem webm_destination_is_copied (tmpdir now : string) (m0 : State) (env : StopEnv) :
  declined env = false ->
  endsWith (dialogFilePath env) ".webm" = true ->
  let m := snd (startRecordingStream tmpdir now m0) in
  let '(res, m', sent) := stopRecordingStream env mp4 m in
  match copyResult env with
  | Resolved _ =>
      res = {| success := true; path := Some (dialogFilePath env);
               error := None; canceled := None |}
      /\ sent = Num <$> [5; 50; 100]%Q
      /\ files m' = ({[ dialogFilePath env ]} ∪ files m)
                    ∖ {[ tmpdir +:+ "/stream-recording-" +:+ now +:+ ".webm" ]}
  | Rejected err =>
      res = failure err
      /\ sent = Num <$> [5; 50]%Q
      /\ tmpdir +:+ "/stream-recording-" +:+ now +:+ ".webm" ∈ files m'
  end.
Proof.
  intros Hdecl Hdest.
  destruct (startRecordingStream_webm tmpdir now m0)
    as (tempInput & Htemp & Hstream & Hfile & Hwebm).
  cbn zeta. unfold stopRecordingStream. rewrite Hstream. cbn [recordingTempPath].
  rewrite Htemp, Hdecl. unfold export. rewrite Hdest, Hwebm. cbn [andb].
  unfold copyFile. cbn [files]. rewrite bool_decide_eq_true_2 by done.
  destruct (copyResult env) as [[]|err].
  2: { split; [done|]. split; [done|]. cbn in Htemp. injection Htemp as <-.
       exact Hfile. }
  cbn [resolved]. rewrite bool_decide_eq_true_2 by (by eexists).
  rewrite unlink_present; cbn [files withFiles].
  - cbn in Htemp. injection Htemp as <-. by cbn.
  - apply elem_of_union. by right.
Qed.

(** The recording of the examples, saved as WebM. *)
Lemma webm_destination_is_copied_witness :
  let env := {| dialogCanceled := false; dialogFilePath := "/home/user/recording.webm";
                probe := None; events := [Progress (Some (Num 40)) None];
                ffmpegResult := Rejected "not run"; copyResult := Resolved tt;
                cores := 8; darwin := false |} in
  let '(res, _, sent) := stopRecordingStream env mp4 demoRecording in
  success res = true /\ sent = Num <$> [5; 50; 100]%Q.
Proof.
  intros env.
  pose proof (webm_destination_is_copied "/tmp" "1700000000000"
                {| recordingWriteStream := None; recordingTempPath := None; files := ∅ |}
                env eq_refl eq_refl) as H.
  cbv zeta in H. change (snd (startRecordingStream _ _ _)) with demoRecording in H.
  destruct (stopRecordingStream env mp4 demoRecording) as [[res m'] sent].
  change (copyResult env) with (@Resolved unit tt) in H. cbv iota in H.
  destruct H as (-> & -> & _). by split.
Defined.

Lemma rev_involutive (a : string) : String.rev (String.rev a) = a.
Proof.
  induction a as [|x a IH]; [done|].
  change (String x a) with (String x "" +:+ a) at 1.
  by rewrite rev_append, rev_append, IH.
Qed.

Lemma append_inj_r (a b c : string) : a +:+ c = b +:+ c -> a = b.
Proof.
  intros H. apply (f_equal String.rev) in H. rewrite !rev_append in H.
  apply String.app_inj in H. by rewrite <- (rev_involutive a), H, rev_involutive.
Qed.

(** Two starts at different times write to different files. *)
Lemma tempInput_inj tmpdir now1 now2 :
  tmpdir +:+ "/stream-recording-" +:+ now1 +:+ ".webm"
  = tmpdir +:+ "/stream-recording-" +:+ now2 +:+ ".webm" ->
  now1 = now2.
Proof.
  intros H. apply String.app_inj in H. apply String.app_inj in H.
  by apply append_inj_r in H.
Qed.

Lemma export_tempPath env format tempInput filePath m m2 sent :
  export env format tempInput filePath m = (Resolved m2, sent) ->
  recordingTempPath m2 = recordingTempPath m.
Proof.
  assert (Hcopy : forall r, copyFile env tempInput filePath m = Resolved r ->
            recordingTempPath r = recordingTempPath m).
  { intros r. unfold copyFile. destruct (bool_decide _); [|done].
    destruct (copyResult env); [|done]. by intros [= <-]. }
  assert (Hrun : forall onEvent last r s, runFfmpeg env filePath onEvent last m = (Resolved r, s) ->
            recordingTempPath r = recordingTempPath m).
  { intros onEvent last r s. unfold runFfmpeg. destruct (ffmpegResult env); [|done].
    by intros [= <- _]. }
  unfold export. destruct format.
  - destruct (endsWith filePath ".webm" && endsWith tempInput ".webm").
    { intros [= H _]. by apply Hcopy. }
    destruct (endsWith filePath ".mp4").
    + destruct (runFfmpeg _ _ _ _ _) as [r s] eqn:Hr. intros [= -> _]. by eapply Hrun.
    + intros [= H _]. by apply Hcopy.
  - destruct (runFfmpeg _ _ _ _ _) as [r s] eqn:Hr. intros [= -> _]. by eapply Hrun.
Qed.

(** A stop removes at most the temporary file it was started with. *)
Lemma stopRecordingStream_keeps env format m p :
  p ∈ files m -> recordingTempPath m <> Some p ->
  let '(_, m', _) := stopRecordingStream env format m in
  p ∈ files m' /\ recordingTempPath m' = recordingTempPath m.
Proof.
  intros Hp Hne. unfold stopRecordingStream.
  destruct (recordingWriteStream m); [|done]. cbn [recordingTempPath].
  destruct (recordingTempPath m) as [tempInput|] eqn:Htemp; [|done].
  assert (Hdiff : p <> tempInput) by congruence.
  set (m1 := {| recordingWriteStream := None; recordingTempPath := Some tempInput;
                files := files m |}).
  assert (Hunlink : forall m2, p ∈ files m2 -> recordingTempPath m2 = Some tempInput ->
            forall m3, unlink tempInput m2 = Resolved m3 ->
            p ∈ files m3 /\ recordingTempPath m3 = Some tempInput).
  { intros m2 Hp2 Ht2 m3. unfold unlink. destruct (bool_decide _); [|done].
    intros [= <-]. cbn. split; [|done].
    apply elem_of_difference. split; [done|]. by rewrite elem_of_singleton. }
  destruct (declined env).
  { destruct (unlink tempInput m1) eqn:Hu; [|done]. exact (Hunlink m1 Hp eq_refl _ Hu). }
  destruct (export env format tempInput (dialogFilePath env) m1) as [[m2|err] sent] eqn:Hexp;
    [|done].
  destruct (export_keeps _ _ _ _ _ _ _ Hexp) as [Hsub _].
  assert (Ht2 : recordingTempPath m2 = Some tempInput)
    by (by rewrite (export_tempPath _ _ _ _ _ _ _ Hexp)).
  destruct (unlink tempInput m2) eqn:Hu; [exact (Hunlink m2 (Hsub _ Hp) Ht2 _ Hu)|].
  split; [by apply Hsub | done].
Qed.

(** X22: [start-recording-stream] called twice at different times without
    a stop in between orphans the first temporary file: whatever the
    [stop-recording-stream] that follows does, the first file is still on
    disk afterwards, no stream is open, and the path the handlers remember
    is not that of the first file. *)
Theorem second_start_orphans_first (tmpdir now1 now2 : string) (m0 : State)
    (env : StopEnv) (format : SaveFormat) :
  now1 <> now2 ->
  let first := startRecordingStream tmpdir now1 m0 in
  let second := startRecordingStream tmpdir now2 (snd first) in
  let '(_, m', _) := stopRecordingStream env format (snd second) in
  exists p1,
    path (fst first) = Some p1
    /\ p1 ∈ files m'
    /\ recordingTempPath m' <> Some p1
    /\ recordingWriteStream m' = None.
Proof.
  intros Hne. cbn zeta.
  set (p1 := tmpdir +:+ "/stream-recording-" +:+ now1 +:+ ".webm").
  set (p2 := tmpdir +:+ "/stream-recording-" +:+ now2 +:+ ".webm").
  assert (Hdiff : p1 <> p2) by (intros H; by apply tempInput_inj in H).
  set (m2 := snd (startRecordingStream tmpdir now2 (snd (startRecordingStream tmpdir now1 m0)))).
  assert (Hp : p1 ∈ files m2).
  { cbn. apply elem_of_union. right. apply elem_of_union. left. by apply elem_of_singleton. }
  assert (Ht : recordingTempPath m2 <> Some p1).
  { intros H. apply Hdiff. symmetry. by injection H. }
  pose proof (stopRecordingStream_keeps env format m2 p1 Hp Ht) as Hkeep.
  pose proof (stopRecordingStream_closes env format m2) as Hclosed.
  destruct (stopRecordingStream env format m2) as [[res m'] sent].
  destruct Hkeep as [Hin Hsame]. exists p1. split; [done|]. split; [done|].
  split; [by rewrite Hsame | exact Hclosed].
Qed.

(** Two starts one millisecond apart, then a cancelled save. *)
Lemma second_start_orphans_first_witness :
  let m0 := {| recordingWriteStream := None; recordingTempPath := None; files := ∅ |} in
  let env := {| dialogCanceled := true; dialogFilePath := "";
                probe := None; events := []; ffmpegResult := Resolved tt;
                copyResult := Resolved tt; cores := 8; darwin := false |} in
  let m2 := snd (startRecordingStream "/tmp" "1700000000001"
                   (snd (startRecordingStream "/tmp" "1700000000000" m0))) in
  let '(_, m', _) := stopRecordingStream env mp4 m2 in
  "/tmp/stream-recording-1700000000000.webm" ∈ files m'.
Proof.
  intros m0 env m2.
  assert (Hne : "1700000000000" <> "1700000000001") by discriminate.
  pose proof (second_start_orphans_first "/tmp" "1700000000000" "1700000000001"
                m0 env mp4 Hne) as H.
  cbv zeta in H. fold m2 in H.
  destruct (stopRecordingStream env mp4 m2) as [[res m'] sent].
  destruct H as (p1 & Hp & Hin & _). injection Hp as <-. exact Hin.
Defined.

End MainFacts.

Module LicenseServiceFacts.
Import LicenseService.

Lemma length_toUpperCase s : String.length (toUpperCase s) = String.length s.
Proof. induction s as [|c s IH]; [done|]. cbn. by rewrite IH. Qed.

Lemma literal_length lit s rest :
  literal lit s = Some rest ->
  String.length s = (String.length lit + String.length rest)%nat.
Proof.
  revert s. induction lit as [|a lit IH]; intros s H; cbn in H.
  - by injection H as ->.
  - destruct s as [|b s]; [done|]. destruct (Ascii.eqb a b); [|done].
    cbn. by rewrite (IH s H).
Qed.

Lemma group_length n s rest :
  group n s = Some rest -> String.length s = (n + String.length rest)%nat.
Proof.
  revert s. induction n as [|n IH]; intros s H; cbn in H.
  - by injection H as ->.
  - destruct s as [|c s]; [done|]. destruct (isKeyChar c); [|done].
    cbn. by rewrite (IH s H).
Qed.

Lemma atEnd_nil r : atEnd r = true -> r = Some EmptyString.
Proof. by destruct r as [[|? ?]|]. Qed.

Ltac sequence_step H :=
  match type of H with
  | context [match literal ?lit ?s with _ => _ end] =>
      let E := fresh "E" in
      destruct (literal lit s) eqn:E; [apply literal_length in E | discriminate H]
  | context [match group ?n ?s with _ => _ end] =>
      let E := fresh "E" in
      destruct (group n s) eqn:E; [apply group_length in E | discriminate H]
  end.

Lemma format1_length s : format1 s = true -> String.length s = 29%nat.
Proof.
  unfold format1. intros H. apply atEnd_nil in H. cbn [sequence] in H.
  repeat sequence_step H. injection H as ->. cbn in *. lia.
Qed.

Lemma format2_length s : format2 s = true -> String.length s = 27%nat.
Proof.
  unfold format2. intros H. apply atEnd_nil in H. cbn [sequence] in H.
  repeat sequence_step H. injection H as ->. cbn in *. lia.
Qed.

(** The decision of [validateLicenseKey], by the length of the trimmed
    key alone. *)
Lemma validateLicenseKey_spec key deviceId :
  validateLicenseKey key deviceId
  = if (String.length (trim key) =? 0)%nat then Invalid "empty"
    else if (String.length (trim key) <? 20)%nat then Invalid "format"
    else Valid.
Proof.
  unfold validateLicenseKey.
  destruct (String.length (trim key) =? 0)%nat; [done|]. cbn zeta.
  rewrite length_toUpperCase.
  destruct (Nat.ltb_spec (String.length (trim key)) 20) as [Hlt|Hge].
  - destruct (format1 _) eqn:H1.
    { apply format1_length in H1. rewrite length_toUpperCase in H1. lia. }
    destruct (format2 _) eqn:H2.
    { apply format2_length in H2. rewrite length_toUpperCase in H2. lia. }
    done.
  - rewrite !andb_false_r. done.
Qed.


(** X23: for a key of ASCII characters, [validateLicenseKey] looks at the
    length of the trimmed key only: an empty one is refused as "empty", one
    of fewer than 20 characters as "format", and every other key is valid.
    The reason "checksum" is never given and the device identifier plays no
    part; a key of one of the two documented formats is valid. *)
Theorem validateLicenseKey_by_length (key deviceId deviceId' : string) :
  isAscii key ->
  let n := String.length (trim key) in
  validateLicenseKey key deviceId
  = (if (n =? 0)%nat then Invalid "empty"
     else if (n <? 20)%nat then Invalid "format"
     else Valid)
  /\ validateLicenseKey key deviceId <> Invalid "checksum"
  /\ validateLicenseKey key deviceId' = validateLicenseKey key deviceId
  /\ (format1 (toUpperCase (trim key)) || format2 (toUpperCase (trim key)) = true ->
      validateLicenseKey key deviceId = Valid).
Proof.
  intros _ n. rewrite !validateLicenseKey_spec. fold n.
  split; [done|]. split; [by destruct (n =? 0)%nat, (n <? 20)%nat|]. split; [done|].
  intros Hf. apply orb_true_iff in Hf.
  assert (Hn : (n = 29 \/ n = 27)%nat).
  { unfold n. rewrite <- (length_toUpperCase (trim key)).
    destruct Hf as [H|H]; [left; by apply format1_length | right; by apply format2_length]. }
  by destruct Hn as [-> | ->].
Qed.

Lemma isAscii_decide s :
  forallb (fun c => (Ascii.N_of_ascii c <? 128)%N) (String.list_ascii_of_string s) = true ->
  isAscii s.
Proof.
  unfold isAscii. induction (String.list_ascii_of_string s) as [|c l IH]; intros H;
    constructor; cbn in H; apply andb_prop in H as [Hc Hl];
    [by apply N.ltb_lt | by apply IH].
Qed.

(** A key of the documented shape, and twenty letters that have none. *)
Lemma validateLicenseKey_by_length_witness :
  validateLicenseKey "  cleansnap-ab12-cd34-ef56-gh78 " "device-1" = Valid
  /\ validateLicenseKey "aaaaaaaaaaaaaaaaaaaa" "device-1" = Valid
  /\ validateLicenseKey "CLEANSNAP-AB12-CD34" "device-1" = Invalid "format".
Proof.
  split; [|split].
  - exact (proj1 (validateLicenseKey_by_length "  cleansnap-ab12-cd34-ef56-gh78 "
                    "device-1" "device-1"
                    (isAscii_decide "  cleansnap-ab12-cd34-ef56-gh78 " eq_refl))).
  - exact (proj1 (validateLicenseKey_by_length "aaaaaaaaaaaaaaaaaaaa"
                    "device-1" "device-1" (isAscii_decide "aaaaaaaaaaaaaaaaaaaa" eq_refl))).
  - exact (proj1 (validateLicenseKey_by_length "CLEANSNAP-AB12-CD34"
                    "device-1" "device-1" (isAscii_decide "CLEANSNAP-AB12-CD34" eq_refl))).
Defined.

(** *** Trimming and upper-casing a key twice *)







Lemma upperAscii_idemp c : upperAscii (upperAscii c) = upperAscii c.
Proof. destruct c as [[] [] [] [] [] [] [] []]; reflexivity. Qed.

Lemma toUpperCase_idemp s : toUpperCase (toUpperCase s) = toUpperCase s.
Proof. induction s as [|c s IH]; [done|]. cbn. by rewrite upperAscii_idemp, IH. Qed.







(** ** The fingerprint and the storage *)







End LicenseServiceFacts.
